(** * BPAI: browsing-selection data preparation and forecast pipeline

    A shallow embedding of the two notebooks of the repository,
    [Implementation/Data_preparation.ipynb] and
    [Pipeline/Browsing_forecast.ipynb], and the properties of their cells.

    From the data preparation: [read_forest_data], [aggregate_data] on the
    array that it returns, [combine_forest], [check_data], the cell that reads
    the forest folders, the cells that aggregate the unknown species, compute
    [distributions] and add them to the forests, the cells that build
    [dataset], the normalization of the freshly browsed shoots, the removal of
    the old browsed ones, the renaming with [names_dict], and the cells that
    split the dataset into target and predictor values.  From the forecast:
    every cell from [properties_table] to [forest_estimates], with
    [normalize_TS] and [adjust_predictions].

    Conventions of the embedding.
    - A numpy array of [dtype=object] whose row 0 holds column names and whose
      other rows hold numbers is a [table]: a header and a body.  Row [i >= 1]
      of the array is entry [i - 1] of the body, and every row of the body has
      as many entries as the header.
    - Shoot counts are integers ([Z]); every quantity that results from a
      division is a rational ([Q]), so divisions are exact where the notebooks
      compute with floating-point numbers.
    - A Python exception is a value [Raise e] of [result]; the global list
      [log] is threaded through the [logged] monad.
    - A dictionary is the list of its items in insertion order, which is the
      order in which [items()] visits them. *)

From Stdlib Require Import String Ascii List ZArith QArith Qminmax Lia Lqa Bool Arith.
Import ListNotations.

Open Scope string_scope.
Open Scope list_scope.
Open Scope nat_scope.

(** ** Python and numpy primitives *)

Inductive exn : Type :=
| IndexError
| KeyError (key : string)
| ZeroDivisionError
| ValueError.

Inductive result (A : Type) : Type :=
| Ok (a : A)
| Raise (e : exn).
Arguments Ok {A} a.
Arguments Raise {A} e.

Definition rbind {A B} (c : result A) (k : A -> result B) : result B :=
  match c with
  | Ok a => k a
  | Raise e => Raise e
  end.

Fixpoint rmapM {A B} (f : A -> result B) (l : list A) : result (list B) :=
  match l with
  | [] => Ok []
  | x :: l' => rbind (f x) (fun y => rbind (rmapM f l') (fun ys => Ok (y :: ys)))
  end.

(** A loop that updates [a] on every element of [l] and stops when the body
    raises. *)
Fixpoint rfold_left {A B} (f : A -> B -> result A) (l : list B) (a : A) : result A :=
  match l with
  | [] => Ok a
  | b :: l' => rbind (f a b) (rfold_left f l')
  end.

(** [l[i]] for an index that is not negative. *)
Definition index {A} (l : list A) (i : nat) : result A :=
  match nth_error l i with
  | Some a => Ok a
  | None => Raise IndexError
  end.

(** [l[a:b]]: slices are clipped to the list, they never raise. *)
Definition slice {A} (a b : nat) (l : list A) : list A :=
  firstn (b - a) (skipn a l).

(** [np.sum] of a vector of counts. *)
Definition np_sum (l : list Z) : Z := fold_right Z.add 0%Z l.

(** [enumerate(l, start)]. *)
Definition enumerate_from {A} (start : nat) (l : list A) : list (nat * A) :=
  combine (seq start (length l)) l.

(** The values of [l] without repetition, in the order of their first
    occurrence: [u, idx = np.unique(l, return_index=True); u[np.argsort(idx)]]. *)
Fixpoint unique_in_order (l : list string) : list string :=
  match l with
  | [] => []
  | x :: l' => x :: filter (fun y => negb (String.eqb x y)) (unique_in_order l')
  end.

(** A header row over a body of numeric rows. *)
Record table (H V : Type) : Type := mkTable {
  header : list H;
  body : list (list V)
}.
Arguments mkTable {H V} _ _.
Arguments header {H V} _.
Arguments body {H V} _.

(** [np.shape(data)[0]] and [np.shape(data)[1]] of a table. *)
Definition nrows {H V} (t : table H V) : nat := S (length (body t)).
Definition ncols {H V} (t : table H V) : nat := length (header t).

(** An entry of an object array: a column name, or a number (the [0] that
    [np.zeros] leaves in a cell that was never assigned). *)
Inductive cell : Type :=
| Str (s : string)
| Num (z : Z).

(** ** The correction log *)

(** The entries of the global list [log]: the name of a file about to be read
    (the string [file_name] after a newline), and a correction
    [f'{species}\t ROW {i}\t ALL: {all}\t FRESH: {fresh}'], kept here as its four
    fields. *)
Inductive log_entry : Type :=
| LogFile (file_name : string)
| LogCorrection (species : string) (row : nat) (all fresh : Z).

(** A computation that appends to [log] and may raise; what was appended
    before an exception stays in the log. *)
Definition logged (A : Type) : Type := (list log_entry * result A)%type.

Definition lret {A} (a : A) : logged A := ([], Ok a).

Definition lbind {A B} (c : logged A) (k : A -> logged B) : logged B :=
  match c with
  | (l1, Ok a) => let (l2, r) := k a in (l1 ++ l2, r)
  | (l1, Raise e) => (l1, Raise e)
  end.

Definition log_append (e : log_entry) : logged unit := ([e], Ok tt).

Definition lift {A} (r : result A) : logged A := ([], r).

Declare Scope logged_scope.
Delimit Scope logged_scope with logged.
Notation "x <- c ;; k" := (lbind c (fun x => k))
  (at level 61, c at next level, right associativity) : logged_scope.
Notation "c ;;; k" := (lbind c (fun _ => k))
  (at level 61, right associativity) : logged_scope.

Fixpoint lmapM {A B} (f : A -> logged B) (l : list A) : logged (list B) :=
  match l with
  | [] => lret []
  | x :: l' => (y <- f x ;; ys <- lmapM f l' ;; lret (y :: ys))%logged
  end.

(** ** The double loop that counts supply

    Both notebooks run the same loop over rows and species to count, for each
    species, the rows where it is offered and the shoots it offers; they differ
    in the rows they visit and in the column that holds species [j]. *)

(** [x / y] on the elements of an object array is Python's division. *)
Definition py_div (x y : Q) : result Q :=
  if Qeq_bool y 0 then Raise ZeroDivisionError else Ok (x / y)%Q.

(** [l[j] = f(l[j])] for an index within the list. *)
Fixpoint update_nth {A} (j : nat) (f : A -> A) (l : list A) : list A :=
  match l, j with
  | [], _ => []
  | x :: l', 0 => f x :: l'
  | x :: l', S j' => x :: update_nth j' f l'
  end.

(** Rows 1 and 2 of the table of properties, not yet divided, and the
    running total [all_shoots]. *)
Record tally : Type := mkTally {
  points_with_supply : list Q;
  shoots_offered : list Q;
  all_shoots : Q
}.

(** The body of the double loop: species [j] of one row, whose count is in
    column [j * stride]. *)
Definition tally_species (stride : nat) (row : list Q) (t : tally) (j : nat)
  : result tally :=
  rbind (index row (j * stride)) (fun offered_shoots =>
    if negb (Qeq_bool offered_shoots 0) then
      Ok (mkTally (update_nth j (fun x => x + 1)%Q (points_with_supply t))
                  (update_nth j (fun x => x + offered_shoots)%Q (shoots_offered t))
                  (all_shoots t + offered_shoots)%Q)
    else Ok t).

Definition tally_rows (stride nr_species : nat) (rows : list (list Q)) : result tally :=
  rfold_left
    (fun t row => rfold_left (tally_species stride row) (seq 0 nr_species) t)
    rows
    (mkTally (repeat 0%Q nr_species) (repeat 0%Q nr_species) 0%Q).

Module DataPreparation.

(** ** [read_forest_data]: the raw sheet

    The array that [read_forest_data] returns has three header rows (species
    name, measurement label, height level) and then one row of counts per
    sampling point.  [aggregate_data] reads row 0 and the rows from 3 on, which
    are the two fields kept here: [data[0]] and [data[3:]]. *)
Record raw_sheet : Type := mkRaw {
  sheet_names : list string;
  sheet_counts : list (list Z)
}.

(** [np.shape(data)]. *)
Definition raw_nrows (data : raw_sheet) : nat := 3 + length (sheet_counts data).
Definition raw_ncols (data : raw_sheet) : nat := length (sheet_names data).

(** ** [aggregate_data] *)

(** The three header cells written for the species at position [index]. *)
Definition aggregated_names (sp : string) : list cell :=
  [Str (sp ++ " all shoots")%string; Str (sp ++ " freshly browsed")%string;
   Str (sp ++ " old browsed")%string].

(** Row 0: the names of [species] are written from column 0 on, three cells
    each; a write past the last column raises, cells never written stay 0. *)
Definition aggregated_header (species : list string) (nr_species : nat)
  : result (list cell) :=
  if length species <=? nr_species
  then Ok (flat_map aggregated_names species
           ++ repeat (Num 0) (3 * (nr_species - length species)))
  else Raise IndexError.

(** The body of the inner loop, for row [i] of the result and species [j]. *)
Definition aggregate_species (species : list string) (i : nat) (row : list Z)
  (j : nat) : logged (list Z) :=
  let start_unaggregated := j * 9 in
  let aggregated_shoots :=
    np_sum (slice start_unaggregated (start_unaggregated + 4) row) in
  let aggregated_browsed :=
    np_sum (slice (start_unaggregated + 4) (start_unaggregated + 8) row) in
  (all <- (if (aggregated_browsed >? aggregated_shoots)%Z
           then (sp <- lift (index species j) ;;
                 log_append (LogCorrection sp i aggregated_shoots aggregated_browsed) ;;;
                 lret (aggregated_shoots + aggregated_browsed)%Z)
           else lret aggregated_shoots) ;;
   old <- lift (index row (start_unaggregated + 8)) ;;
   lret [all; aggregated_browsed; old])%logged.

Definition aggregate_row (species : list string) (nr_species : nat)
  (ir : nat * list Z) : logged (list Z) :=
  let (i, row) := ir in
  (cells <- lmapM (aggregate_species species i row) (seq 0 nr_species) ;;
   lret (concat cells))%logged.

Definition aggregate_data (data : raw_sheet) : logged (table cell Z) :=
  let nr_species := raw_ncols data / 9 in
  let species := unique_in_order (sheet_names data) in
  (hd <- lift (aggregated_header species nr_species) ;;
   rows <- lmapM (aggregate_row species nr_species)
                 (enumerate_from 1 (sheet_counts data)) ;;
   lret (mkTable hd rows))%logged.

(** ** [combine_forest]

    [np.concatenate] raises when the arrays differ in their number of
    columns. *)

Definition combine_forest {H V} (paths : list (table H V)) : result (table H V) :=
  rbind (index paths 0) (fun combined =>
    rfold_left (fun combined array =>
                  if ncols array =? ncols combined
                  then Ok (mkTable (header combined) (body combined ++ body array))
                  else Raise ValueError)
               (tl paths) combined).

(** ** The cell that reads the forests

    The file system as the cell sees it: [os.listdir(root_folder)] is a list of
    entries; an entry that is a directory lists its files.  [read_forest_data]
    is spreadsheet input; a file carries what that call does on it, the raw
    sheet or the exception it raises. *)
Record sheet_file : Type := mkFile {
  file_name : string;
  file_read : result raw_sheet
}.

Record dir_entry : Type := mkEntry {
  folder_name : string;
  is_dir : bool;
  folder_files : list sheet_file
}.

(** [s.endswith(suffix)]. *)
Definition endswith (s suffix : string) : bool :=
  (String.length suffix <=? String.length s)
  && String.eqb (substring (String.length s - String.length suffix)
                           (String.length suffix) s) suffix.

(** [d[k] = v] on a dictionary kept in insertion order. *)
Fixpoint dict_set {V} (d : list (string * V)) (k : string) (v : V)
  : list (string * V) :=
  match d with
  | [] => [(k, v)]
  | (k', v') :: d' =>
      if String.eqb k' k then (k', v) :: d' else (k', v') :: dict_set d' k v
  end.

(** What the cell has built when it stops: the dictionary [forests], the list
    [log], the warnings issued, and the exception that ended it, if any. *)
Record reading : Type := mkReading {
  forests : list (string * table cell Z);
  log : list log_entry;
  warnings : list string;
  raised : option exn
}.

Definition problem_with_loading (file_name : string) : string :=
  ("Problem with loading " ++ file_name ++ ".")%string.

(** The [try] block on one file: the file name is logged, then the sheet is
    read and aggregated; the bare [except] turns any exception into a warning
    and the file contributes no path. *)
Definition try_file (f : sheet_file)
  : list log_entry * list string * list (table cell Z) :=
  if endswith (file_name f) "xlsx" then
    match (log_append (LogFile (file_name f)) ;;;
           data <- lift (file_read f) ;;
           aggregate_data data)%logged with
    | (lg, Ok path_data) => (lg, [], [path_data])
    | (lg, Raise _) => (lg, [problem_with_loading (file_name f)], [])
    end
  else ([], [], []).

(** The inner loop over the files of one folder: [paths_data] and what was
    logged and warned on the way. *)
Fixpoint try_files (fs : list sheet_file)
  : list log_entry * list string * list (table cell Z) :=
  match fs with
  | [] => ([], [], [])
  | f :: fs' =>
      let '(lg1, w1, p1) := try_file f in
      let '(lg2, w2, p2) := try_files fs' in
      (lg1 ++ lg2, w1 ++ w2, p1 ++ p2)
  end.

(** The outer loop; [combine_forest] is called outside the [try], so what it
    raises ends the cell. *)
Fixpoint read_forests_from (st : reading) (root : list dir_entry) : reading :=
  match root with
  | [] => st
  | d :: root' =>
      if is_dir d then
        let '(lg, w, paths_data) := try_files (folder_files d) in
        match combine_forest paths_data with
        | Ok combined =>
            read_forests_from
              (mkReading (dict_set (forests st) (folder_name d) combined)
                         (log st ++ lg) (warnings st ++ w) None)
              root'
        | Raise e =>
            mkReading (forests st) (log st ++ lg) (warnings st ++ w) (Some e)
        end
      else read_forests_from st root'
  end.

Definition read_forests (root : list dir_entry) : reading :=
  read_forests_from (mkReading [] [] [] None) root.

(** ** Column names *)

(** [s.split(' ')]. *)
Fixpoint split_space (s : string) : list string :=
  match s with
  | EmptyString => [EmptyString]
  | String c s' =>
      if Ascii.eqb c " "%char then EmptyString :: split_space s'
      else match split_space s' with
           | [] => [String c EmptyString]
           | w :: ws => String c w :: ws
           end
  end.

(** [' '.join(h.split(' ')[:-2])] and [' '.join(h.split(' ')[-2:])]. *)
Definition species_of (h : string) : string :=
  let parts := split_space h in
  String.concat " " (firstn (length parts - 2) parts).

Definition feature_of (h : string) : string :=
  let parts := split_space h in
  String.concat " " (skipn (length parts - 2) parts).

(** [sub in s]. *)
Fixpoint contains (sub s : string) : bool :=
  prefix sub s
  || match s with
     | EmptyString => false
     | String _ s' => contains sub s'
     end.

(** ** Species distribution within a forest *)

(** The table stored in [distributions[forest]]: the species, their coverage
    and their share of the supply. *)
Record distribution : Type := mkDistribution {
  dist_species : list string;
  coverages : list Q;
  supplyPerces : list Q
}.

Definition count_table := table string Z.

Definition distribution_of (data : count_table) : result distribution :=
  let sampling_points := nrows data - 1 in
  let species := unique_in_order (map species_of (header data)) in
  let nr_species := length species in
  rbind (tally_rows 3 nr_species (map (map inject_Z) (body data))) (fun t =>
  rbind (rmapM (fun x => py_div x (inject_Z (Z.of_nat sampling_points)))
               (points_with_supply t)) (fun coverages =>
  rbind (rmapM (fun x => py_div x (all_shoots t)) (shoots_offered t)) (fun supplyPerces =>
    Ok (mkDistribution species coverages supplyPerces)))).

(** The loop over [forests.items()]. *)
Definition distributions (forests : list (string * count_table))
  : result (list (string * distribution)) :=
  rfold_left (fun d fd => rbind (distribution_of (snd fd)) (fun t =>
                Ok (dict_set d (fst fd) t)))
             forests [].


(** ** Combining the forests into one dataset *)

Definition value_table := table string Q.

(** The species of one forest, read off every fifth column name. *)
Definition forest_species (data : value_table) : list string :=
  map (fun i => species_of (nth (i * 5) (header data) EmptyString))
      (seq 0 (ncols data / 5)).

(** The array [species] of the whole dataset. *)
Definition all_species (forests : list (string * value_table)) : list string :=
  unique_in_order (flat_map (fun fd => forest_species (snd fd)) forests).

(** The total number of sampling points, [nr_rows]. *)
Definition nr_rows (forests : list (string * value_table)) : nat :=
  fold_left (fun n fd => n + (nrows (snd fd) - 1)) forests 0.

Definition dataset_names (sp : string) : list string :=
  [(sp ++ " all shoots")%string; (sp ++ " freshly browsed")%string;
   (sp ++ " old browsed")%string; (sp ++ " forest coverage")%string;
   (sp ++ " supply percentage")%string].

(** Row 0 of [dataset]. *)
Definition dataset_header (species : list string) : list string :=
  flat_map dataset_names species.

(** [np.where(row == h)[0][0]]: the first column named [h]. *)
Fixpoint where_first (row : list string) (h : string) : result nat :=
  match row with
  | [] => Raise IndexError
  | x :: row' =>
      if String.eqb x h then Ok 0
      else rbind (where_first row' h) (fun k => Ok (S k))
  end.

(** One row of [dataset], all zeros when it is allocated, after the loop over
    the columns [j] of row [row] of a forest. *)
Definition dataset_row (dataset0 forest0 : list string) (row : list Q)
  : result (list Q) :=
  rfold_left
    (fun acc j =>
       let header := nth j forest0 EmptyString in
       rbind (where_first dataset0 header) (fun dataset_col =>
         Ok (update_nth dataset_col (fun _ => nth j row 0%Q) acc)))
    (seq 0 (length forest0))
    (repeat 0%Q (length dataset0)).

(** The rows that one forest contributes, in its own row order. *)
Definition forest_rows (dataset0 : list string) (data : value_table)
  : result (list (list Q)) :=
  rmapM (dataset_row dataset0 (header data)) (body data).

(** The combined dataset.  The array is allocated with [nr_rows] rows of zeros
    under the header, and [dataset_row] runs from 1 over the rows of the
    forests, in the iteration order of the dictionary: row after row is
    filled, which is the concatenation built here. *)
Definition dataset (forests : list (string * value_table)) : result value_table :=
  let dataset0 := dataset_header (all_species forests) in
  rbind (rmapM (fun fd => forest_rows dataset0 (snd fd)) forests) (fun blocks =>
    Ok (mkTable dataset0 (concat blocks))).

(** ** Normalizing the freshly browsed shoots *)

(** Column [j - 1] as Python indexes it: [-1] is the last column. *)
Definition column_before (cols j : nat) : nat :=
  match j with
  | 0 => cols - 1
  | S j' => j'
  end.

(** The body of the inner loop on one row. *)
Definition normalize_cell (cols j : nat) (row : list Q) : list Q :=
  let all_offered := nth (column_before cols j) row 0%Q in
  if negb (Qeq_bool all_offered 0)
  then update_nth j (fun x => x / all_offered)%Q row
  else if negb (Qeq_bool (nth j row 0%Q) 0)
       then update_nth j (fun _ => 0%Q) row
       else row.

Definition normalize_column (dataset0 : list string) (rows : list (list Q)) (j : nat)
  : list (list Q) :=
  if contains "freshly browsed" (nth j dataset0 EmptyString)
  then map (normalize_cell (length dataset0) j) rows
  else rows.

Definition normalize_freshly_browsed (dataset : value_table) : value_table :=
  mkTable (header dataset)
          (fold_left (normalize_column (header dataset))
                     (seq 0 (ncols dataset)) (body dataset)).

(** ** Hungarian to Latin names *)

Definition names_dict : list (string * string) :=
  [("Kocsánytalan tölgy", "Quercus petraea"); ("Kocsányos tölgy", "Quercus robur");
   ("Csertölgy", "Quercus cerris"); ("Magas kőris", "Fraxinus excelsior");
   ("Virágos kőris", "Fraxinus ornus"); ("Gyertyán", "Carpinus betulus");
   ("Bükk", "Fagus sylvatica"); ("Hegyi juhar", "Acer pseudoplatanus");
   ("Korai juhar", "Acer platanoides"); ("Mezei juhar", "Acer campestre");
   ("Erdei fenyő", "Pinus sylvestris"); ("Akác", "Robinia pseudoacacia");
   ("Fagyal", "Ligustrum vulgare "); ("Galagonya", "Crataegus monogyna");
   ("Húsos som", "Cornus mas"); ("Veresgyűrűs som", "Cornus sanguinea");
   ("Kökény", "Prunus spinosa"); ("Szeder", "Rubus fruticosus ");
   ("Vadrózsa", "Rosa canina "); ("Bodza", "Sambucus nigra");
   ("Tatárjuhar", "Acer tataricum"); ("Madárcseresznye", "Prunus avium ");
   ("Mogyoró", "Corylus avellana"); ("Mezei szil", "Ulmus minor ");
   ("Berkenye", "Sorbus aucuparia"); ("Vadkörte", "Pyrus pyraster ");
   ("Bibircses kecskerágó", "Euonymus verrucosus");
   ("Molyhos tölgy", "Quercus pubescens")].

(** [d[k]]. *)
Fixpoint dict_get {V} (d : list (string * V)) (k : string) : result V :=
  match d with
  | [] => Raise (KeyError k)
  | (k', v) :: d' => if String.eqb k' k then Ok v else dict_get d' k
  end.

(** The new name of one column. *)
Definition rename_header (h : string) : result string :=
  let species := species_of h in
  let feature := feature_of h in
  if negb (String.eqb species "Unknown")
  then rbind (dict_get names_dict species) (fun latin =>
         Ok (latin ++ " " ++ feature)%string)
  else Ok h.

(** The loop over the columns renames row 0 in place: when a lookup raises,
    the columns before it are renamed already and the others are not. *)
Fixpoint rename_headers (dataset0 : list string) : list string * option exn :=
  match dataset0 with
  | [] => ([], None)
  | h :: rest =>
      match rename_header h with
      | Ok h' => let (rest', e) := rename_headers rest in (h' :: rest', e)
      | Raise e => (h :: rest, Some e)
      end
  end.

Definition rename_dataset (dataset : value_table) : value_table * option exn :=
  let (dataset0, e) := rename_headers (header dataset) in
  (mkTable dataset0 (body dataset), e).

End DataPreparation.

Module BrowsingForecast.

(** ** Auxiliary functions *)

Definition q_sum (l : list Q) : Q := fold_left Qplus l 0%Q.

Definition column (c : nat) (X : list (list Q)) : list Q :=
  map (fun row => nth c row 0%Q) X.

(** [min] and [max] along axis 0; numpy raises on a column without entries. *)
Definition np_min (l : list Q) : result Q :=
  match l with
  | [] => Raise ValueError
  | x :: l' => Ok (fold_left Qmin l' x)
  end.

Definition np_max (l : list Q) : result Q :=
  match l with
  | [] => Raise ValueError
  | x :: l' => Ok (fold_left Qmax l' x)
  end.

Definition smoothing : Q := 1 # 100000.

(** The normalized value of column [c], for each row. *)
Definition normalized_column (X : list (list Q)) (c : nat) : result (list Q) :=
  let col := column c X in
  if c mod 3 =? 0 then
    rbind (np_min col) (fun lo =>
    rbind (np_max col) (fun hi =>
      Ok (map (fun x => (x - lo) / (hi - lo + smoothing))%Q col)))
  else Ok col.

(** The rows of a table given by its columns. *)
Definition rows_of_columns (n : nat) (cols : list (list Q)) : list (list Q) :=
  map (fun i => map (fun col => nth i col 0%Q) cols) (seq 0 n).

(** [normalize_TS(X)] for an array [X] with [width] columns. *)
Definition normalize_TS (width : nat) (X : list (list Q)) : result (list (list Q)) :=
  rbind (rmapM (normalized_column X) (seq 0 width)) (fun cols =>
    Ok (rows_of_columns (length X) cols)).

(** The inner loop of [adjust_predictions] on row [i]. *)
Definition adjust_row (noSupply_value : Q) (y_row X_row : list Q) : result (list Q) :=
  rmapM (fun jy : nat * Q =>
           let (j, y) := jy in
           rbind (index X_row (j * 3)) (fun x =>
             Ok (if Qeq_bool x 0 then noSupply_value
                 else if negb (Qle_bool 0 y) then 0%Q
                 else y)))
        (enumerate_from 0 y_row).

Definition adjust_predictions (y_pred X : list (list Q)) (noSupply_value : Q)
  : result (list (list Q)) :=
  rmapM (fun iy : nat * list Q =>
           let (i, y_row) := iy in
           rbind (index X i) (adjust_row noSupply_value y_row))
        (enumerate_from 0 y_pred).

(** ** Loading the dataset *)

(** [properties_table]: rows 1 and 2, the F and RPS values of the species. *)
Definition properties_table (ts_values : list (list Q)) (nr_species : nat)
  : result (list Q * list Q) :=
  let sampling_points := length ts_values in
  rbind (tally_rows 1 nr_species (skipn 1 ts_values)) (fun t =>
  rbind (rmapM (fun x => py_div x (inject_Z (Z.of_nat sampling_points)))
               (points_with_supply t)) (fun f_values =>
  rbind (rmapM (fun x => py_div x (all_shoots t)) (shoots_offered t)) (fun rps_values =>
    Ok (f_values, rps_values)))).

(** [unaggregated_data]: TS, F and RPS of every species at every point. *)
Definition unaggregated_data (ts_values : list (list Q)) (nr_species : nat)
  (f_values rps_values : list Q) : list (list Q) :=
  map (fun row =>
         flat_map (fun i => [nth i row 0%Q; nth i f_values 0%Q; nth i rps_values 0%Q])
                  (seq 0 nr_species))
      ts_values.

(** [data] before it is normalized: sections of 5 adjacent points. *)
Definition sections (unaggregated : list (list Q)) (nr_species : nat)
  : list (list Q) :=
  map (fun i =>
         let start_index := i * 5 in
         let end_index := start_index + 4 in
         flat_map (fun j =>
                     [q_sum (column (j * 3) (slice start_index (end_index + 1) unaggregated));
                      nth (j * 3 + 1) (nth start_index unaggregated []) 0%Q;
                      nth (j * 3 + 2) (nth start_index unaggregated []) 0%Q])
                  (seq 0 nr_species))
      (seq 0 (length unaggregated / 5)).

(** ** Generating estimates *)

Definition noSupply_value : Q := - (1 # 100000).

(** A fitted regressor predicts one value for each row of the array it is
    given; [models i] is the regressor of species [i]. *)
Definition regressors := nat -> list Q -> Q.

(** [section_estimates] before it is adjusted. *)
Definition predicted_browsing (models : regressors) (data : list (list Q))
  (nr_species : nat) : list (list Q) :=
  map (fun row => map (fun i => models i row) (seq 0 nr_species)) data.

(** The list [section_contributions] of species [sp]. *)
Definition section_contributions (data : list (list Q)) (sp : nat) (total_shoots : Q)
  : list Q :=
  map (fun row => nth (sp * 3) row 0 / total_shoots)%Q data.

Definition forest_estimate (data section_estimates : list (list Q)) (sp : nat) : Q :=
  let total_shoots := q_sum (column (sp * 3) data) in
  if negb (Qeq_bool total_shoots 0) then
    let weighted_estimates :=
      map (fun ic : nat * Q =>
             let (index, contribution) := ic in
             (contribution * nth sp (nth index section_estimates []) 0)%Q)
          (enumerate_from 0 (section_contributions data sp total_shoots)) in
    q_sum weighted_estimates
  else noSupply_value.

Definition forest_estimates (data section_estimates : list (list Q)) (nr_species : nat)
  : list Q :=
  map (forest_estimate data section_estimates) (seq 0 nr_species).

(** What the notebook has computed after its last estimate. *)
Record forecast : Type := mkForecast {
  fc_sections : list (list Q);
  fc_data : list (list Q);
  fc_section_estimates : list (list Q);
  fc_forest_estimates : list Q
}.

(** The cells that load the dataset: [data] as the sections leave it, and
    [data] after [normalize_TS], which is the one every later cell reads. *)
Definition load_dataset (loaded_dataset : table string Q)
  : result (list (list Q) * list (list Q)) :=
  let ts_values := body loaded_dataset in
  let nr_species := length (header loaded_dataset) in
  rbind (properties_table ts_values nr_species) (fun fr =>
  let unaggregated := unaggregated_data ts_values nr_species (fst fr) (snd fr) in
  let data0 := sections unaggregated nr_species in
  rbind (normalize_TS (nr_species * 3) data0) (fun data =>
    Ok (data0, data))).

(** The cells of the notebook in order, on the loaded sheet. *)
Definition browsing_forecast (models : regressors) (loaded_dataset : table string Q)
  : result forecast :=
  let nr_species := length (header loaded_dataset) in
  rbind (load_dataset loaded_dataset) (fun dd =>
  let data := snd dd in
  rbind (adjust_predictions (predicted_browsing models data nr_species) data
                            noSupply_value) (fun section_estimates =>
    Ok (mkForecast (fst dd) data section_estimates
                   (forest_estimates data section_estimates nr_species)))).

End BrowsingForecast.

(** * Notions of the statements *)

Module Spec.

Import DataPreparation.

(** A file that the reading cell turns into a path of its forest. *)
Definition loads (f : sheet_file) : bool :=
  match snd (try_file f) with
  | [] => false
  | _ => true
  end.

(** A folder without the files that fail. *)
Definition without_failing (d : dir_entry) : dir_entry :=
  mkEntry (folder_name d) (is_dir d) (filter loads (folder_files d)).

(** A forest matrix with five columns for each of its species, named as the
    cells before the merge name them. *)
Definition five_per_species (data : value_table) : Prop :=
  header data = dataset_header (forest_species data).

(** The number of sampling points of a forest, and the position in the body of
    the dataset of the first point of forest number [k]. *)
Definition sampling_points (data : value_table) : nat := length (body data).

Definition first_point (forests : list (string * value_table)) (k : nat) : nat :=
  list_sum (map (fun fd => sampling_points (snd fd)) (firstn k forests)).

(** Frequency and relative proportion of supply as they are specified: the
    share of the sampling points where species [j] is offered, and the share
    of species [j] in all the shoots offered. *)
Definition frequency_as_specified (ts_values : list (list Q)) (j : nat) : Q :=
  inject_Z (Z.of_nat (length (filter (fun row => negb (Qeq_bool (nth j row 0%Q) 0))
                                     ts_values)))
  / inject_Z (Z.of_nat (length ts_values)).

Definition rps_as_specified (ts_values : list (list Q)) (j : nat) : Q :=
  BrowsingForecast.q_sum (BrowsingForecast.column j ts_values)
  / BrowsingForecast.q_sum (map BrowsingForecast.q_sum ts_values).

(** The weights of the sections as they are specified: the shoots of the
    species in the section over its shoots in the forest. *)
Definition contributions_as_specified (sections : list (list Q)) (sp : nat) : list Q :=
  map (fun row => nth (sp * 3) row 0
                  / BrowsingForecast.q_sum (BrowsingForecast.column (sp * 3) sections))%Q
      sections.

End Spec.

(** * Sample inputs *)

Module Samples.

Import DataPreparation.

(** One species, one sampling point with the raw sub-columns
    [2,0,0,0, 3,0,0,0, 1]. *)
Definition one_point_sheet : raw_sheet :=
  mkRaw (repeat "Bükk" 9) [[2; 0; 0; 0; 3; 0; 0; 0; 1]%Z].

(** Two species on two sampling points; only the first point of the first
    species records more browsed than offered shoots. *)
Definition two_species_sheet : raw_sheet :=
  mkRaw (repeat "Bükk" 9 ++ repeat "Gyertyán" 9)
        [[2; 0; 0; 0; 3; 0; 0; 0; 1; 4; 1; 0; 0; 1; 1; 0; 0; 2]%Z;
         [1; 1; 1; 1; 0; 2; 0; 0; 0; 0; 0; 0; 0; 0; 0; 0; 0; 0]%Z].


(** A sheet whose header marker is missing: [read_forest_data] raises on the
    [index] call that looks for it. *)
Definition unreadable (name : string) : sheet_file :=
  mkFile name (Raise ValueError).

Definition readable (name : string) : sheet_file :=
  mkFile name (Ok one_point_sheet).

(** Two forest folders; the only sheet of the first one cannot be read. *)
Definition corpus_with_failing_forest : list dir_entry :=
  [mkEntry "Recsk" true [unreadable "Recsk 1 vonal.xlsx"];
   mkEntry "Bükk-alja" true [readable "Bükk-alja 1 vonal.xlsx"]].

(** The same corpus without the first folder. *)
Definition corpus_of_readable_forest : list dir_entry :=
  [mkEntry "Bükk-alja" true [readable "Bükk-alja 1 vonal.xlsx"]].

(** A forest of two species on two sampling points where no shoot is
    offered. *)
Definition forest_without_shoots : count_table :=
  mkTable ["Unknown all shoots"; "Unknown freshly browsed"; "Unknown old browsed";
           "Bükk all shoots"; "Bükk freshly browsed"; "Bükk old browsed"]
          [[0; 0; 0; 0; 0; 0]%Z; [0; 0; 0; 0; 0; 0]%Z].


(** Two forests that share one species; each has a species of its own. *)
Definition forest_a : value_table :=
  mkTable (dataset_header ["Unknown"; "Bükk"])
          [[0; 0; 0; 0; 0; 4; 1; 0; 1; 1];
           [1; 0; 0; 1 # 2; 1 # 5; 0; 0; 0; 1 # 2; 4 # 5]]%Q.

Definition forest_b : value_table :=
  mkTable (dataset_header ["Unknown"; "Gyertyán"])
          [[2; 1; 0; 1; 2 # 5; 3; 3; 1; 1; 3 # 5]]%Q.

Definition two_forests : list (string * value_table) :=
  [("Recsk", forest_a); ("Mátra-Észak", forest_b)].


(** Column names before the renaming: in the first header Unknown and two
    names that [names_dict] has, in the second header a name that it lacks. *)
Definition hungarian_header : list string :=
  ["Unknown all shoots"; "Unknown freshly browsed";
   "Bükk all shoots"; "Kocsánytalan tölgy freshly browsed"].

Definition header_with_stranger : list string :=
  ["Bükk all shoots"; "Nyír all shoots"; "Gyertyán all shoots"].


(** *** The forecast notebook *)

(** The species of the sheet that the notebook loads, in its order. *)
Definition forecast_species : list string :=
  ["Unknown species"; "Quercus petraea"; "Quercus cerris"; "Fraxinus excelsior";
   "Fraxinus ornus"; "Carpinus betulus"; "Fagus sylvatica"; "Acer pseudoplatanus";
   "Acer platanoides"; "Acer campestre"; "Pinus sylvestris"; "Robinia pseudoacacia";
   "Ligustrum vulgare"; "Crataegus monogyna"; "Cornus mas"; "Cornus sanguinea";
   "Prunus spinosa"; "Rubus fruticosus"; "Rosa canina"; "Acer tataricum";
   "Prunus avium"; "Corylus avellana"; "Ulmus minor"; "Sorbus aucuparia";
   "Pyrus pyraster"; "Euonymus verrucosus"; "Quercus pubescens"].

(** A sampling point with [u] shoots of unknown species, [q] shoots of
    Quercus petraea and none of the 25 other species. *)
Definition point (u q : Q) : list Q := u :: q :: repeat 0%Q 25.

(** Ten points, two sections: 3 and then 5 shoots of unknown species, and 2
    shoots of Quercus petraea at the second point. *)
Definition ten_points : table string Q :=
  mkTable forecast_species
          [point 1 0; point 1 2; point 1 0; point 0 0; point 0 0;
           point 1 0; point 1 0; point 1 0; point 1 0; point 1 0]%Q.

(** Five points, one section with 3 shoots of unknown species. *)
Definition five_points : table string Q :=
  mkTable forecast_species
          [point 1 0; point 1 0; point 1 0; point 0 0; point 0 0]%Q.

(** The same ten points as the data preparation sees them, for the two
    species that are offered: three columns for each species, under a
    header row. *)
Definition ten_points_prepared : count_table :=
  mkTable ["Unknown all shoots"; "Unknown freshly browsed"; "Unknown old browsed";
           "Kocsánytalan tölgy all shoots"; "Kocsánytalan tölgy freshly browsed";
           "Kocsánytalan tölgy old browsed"]
          [[1; 0; 0; 0; 0; 0]; [1; 0; 0; 2; 0; 0]; [1; 0; 0; 0; 0; 0];
           [0; 0; 0; 0; 0; 0]; [0; 0; 0; 0; 0; 0]; [1; 0; 0; 0; 0; 0];
           [1; 0; 0; 0; 0; 0]; [1; 0; 0; 0; 0; 0]; [1; 0; 0; 0; 0; 0];
           [1; 0; 0; 0; 0; 0]]%Z.

End Samples.

(** * Further cells of the data preparation *)

Module Reading.

Import DataPreparation.

(** ** [read_forest_data]

    The function works on the data frame [df] that [pd.read_excel] returns for
    the sheet, read here as the list of its rows; a cell is a text or a
    number, and every row has the same width.  The result is the array
    [data], as the list of its rows. *)

Definition marker : string := "Kínált hajtások száma az egyes pontokban".

Definition SAMPLING_POINTS : nat := 100.

(** [row.tolist().index(s)]: only a text equals a text. *)
Fixpoint index_of (s : string) (row : list cell) : result nat :=
  match row with
  | [] => Raise ValueError
  | Str x :: row' =>
      if String.eqb x s then Ok 0 else rbind (index_of s row') (fun k => Ok (S k))
  | Num _ :: row' => rbind (index_of s row') (fun k => Ok (S k))
  end.

(** [l[a:b] = v]: the positions from [a] up to [b], as far as [l] has them. *)
Fixpoint assign_slice {A} (a b : nat) (v : A) (l : list A) : list A :=
  match l with
  | [] => []
  | x :: l' =>
      (if (a =? 0) && (0 <? b) then v else x) :: assign_slice (a - 1) (b - 1) v l'
  end.

(** The values that [name_index] takes in the [while] loop of row 0: 1, 10,
    19, ... as long as [name_index < last_column], where
    [last_column = num_cols - 1]. *)
Definition name_indices (num_cols : nat) : list nat :=
  filter (fun name_index => name_index + 1 <? num_cols)
         (map (fun block => block * 9 + 1) (seq 0 num_cols)).

(** Row 0: the name found at [name_index] is written over the block around
    it. *)
Definition names_row (df0 : list cell) (num_cols : nat) : result (list cell) :=
  rfold_left
    (fun row name_index =>
       rbind (index df0 name_index) (fun name =>
         Ok (assign_slice (name_index - 1) (name_index + 8) name row)))
    (name_indices num_cols)
    (repeat (Num 0) num_cols).

(** The values that [iteration] takes in the [while] loop of row 1: 0, 1, ...
    as long as [iteration < num_cols / 9], a division of real numbers. *)
Definition iterations (num_cols : nat) : list nat :=
  filter (fun iteration => iteration * 9 <? num_cols) (seq 0 num_cols).

(** Row 1: the labels of the nine columns of each block; the last one is
    written at a single index, which raises beyond the last column. *)
Definition labels_row (num_cols : nat) : result (list cell) :=
  rfold_left
    (fun row iteration =>
       let start_point := iteration * 9 in
       let row := assign_slice start_point (start_point + 4)
                               (Str "Összes hajtásvég") row in
       let row := assign_slice (start_point + 4) (start_point + 8)
                               (Str "Friss rágott hajtásvég") row in
       if start_point + 8 <? num_cols
       then Ok (assign_slice (start_point + 8) (start_point + 9)
                             (Str "Régi rágott hajtásvég") row)
       else Raise IndexError)
    (iterations num_cols)
    (repeat (Num 0) num_cols).

Definition read_forest_data (df : list (list cell)) : result (list (list cell)) :=
  rbind (index df 1) (fun df1 =>
  rbind (index_of marker df1) (fun marker_column =>
  (* [last_column + 1] *)
  let num_cols := marker_column in
  let num_rows := SAMPLING_POINTS + 3 in
  rbind (names_row (nth 0 df []) num_cols) (fun names =>
  rbind (labels_row num_cols) (fun labels =>
  rbind (rmapM (fun i => rbind (index df i) (fun row => Ok (firstn num_cols row)))
               (seq 2 (num_rows - 2))) (fun rest =>
    Ok (names :: labels :: rest)))))).

(** ** [check_data]

    What the function prints, line after line, and the exception that ends
    it, if any. *)

Fixpoint print_each {A P} (f : A -> result (list P)) (l : list A)
  : list P * option exn :=
  match l with
  | [] => ([], None)
  | x :: l' =>
      match f x with
      | Ok printed => let (more, e) := print_each f l' in (printed ++ more, e)
      | Raise e => ([], Some e)
      end
  end.

Definition check_cell {H} (data : table H Z) (file_name : string)
  (property_count : nat) (irj : nat * list Z * nat)
  : result (list (string * H * nat)) :=
  let '(i, row, j) := irj in
  rbind (index row (j * property_count)) (fun all =>
  rbind (index row (j * property_count + 1)) (fun fresh =>
    if (all <? fresh)%Z
    then rbind (index (header data) (j * property_count)) (fun name =>
           Ok [(file_name, name, i)])
    else Ok [])).

Definition check_data {H} (data : table H Z) (file_name : string)
  (property_count : nat) : list (string * H * nat) * option exn :=
  if property_count =? 0 then ([], Some ZeroDivisionError)
  else
    let nr_species := ncols data / property_count in
    print_each (check_cell data file_name property_count)
               (flat_map (fun ir => map (fun j => (fst ir, snd ir, j)) (seq 0 nr_species))
                         (enumerate_from 1 (body data))).

End Reading.

Module Enriching.

Import DataPreparation.

(** ** Aggregating unknown species *)

(** [s.lower()] on the letters A to Z.  The two tests below look for letters
    a to z only, and [lower] turns no other character into one that they could
    match, so they see what they see on the bytes of the name. *)
Definition lower_ascii (c : ascii) : ascii :=
  let n := nat_of_ascii c in
  if (65 <=? n) && (n <=? 90) then ascii_of_nat (n + 32) else c.

Fixpoint lower (s : string) : string :=
  match s with
  | EmptyString => EmptyString
  | String c s' => String (lower_ascii c) (lower s')
  end.

(** The test on the name of a species. *)
Definition is_unknown (name : string) : bool :=
  let species := lower name in
  prefix "faj" species || contains "ismeretlen" species.

Definition unknown_cols (data : count_table) : list nat :=
  flat_map (fun i => if is_unknown (nth (i * 3) (header data) EmptyString)
                     then [i * 3; i * 3 + 1; i * 3 + 2] else [])
           (seq 0 (ncols data / 3)).

(** [row[cols]]: the entries at the listed positions. *)
Definition pick (cols : list nat) (row : list Z) : list Z :=
  map (fun col => nth col row 0%Z) cols.

(** [np.delete(l, cols)]: [l] without the entries at the listed positions;
    [k] is the position of the head of [l]. *)
Fixpoint delete_from {A} (k : nat) (cols : list nat) (l : list A) : list A :=
  match l with
  | [] => []
  | x :: l' =>
      if existsb (Nat.eqb k) cols then delete_from (S k) cols l'
      else x :: delete_from (S k) cols l'
  end.

Definition delete {A} (cols : list nat) (l : list A) : list A := delete_from 0 cols l.

(** The three values of the Unknown species at one sampling point. *)
Definition unknown_values (cols : list nat) (row : list Z) : list Z :=
  [np_sum (pick (filter (fun col => col mod 3 =? 0) cols) row);
   np_sum (pick (filter (fun col => col mod 3 =? 1) cols) row);
   np_sum (pick (filter (fun col => col mod 3 =? 2) cols) row)].

(** The body of the loop over the forests: the columns of the unknown species
    are deleted and the three columns of their sums are inserted in front. *)
Definition aggregate_unknown (data : count_table) : count_table :=
  let cols := unknown_cols data in
  mkTable (["Unknown all shoots"; "Unknown freshly browsed"; "Unknown old browsed"]
           ++ delete cols (header data))
          (map (fun row => unknown_values cols row ++ delete cols row) (body data)).

(** ** Adding distribution properties to dataset *)

(** [np.insert(data, [k], column, axis=1)] for a column with the name [h] in
    row 0 and the value [v] in every other row. *)
Definition insert_column (k : nat) (h : string) (v : Q) (data : value_table)
  : result value_table :=
  if k <=? ncols data
  then Ok (mkTable (firstn k (header data) ++ h :: skipn k (header data))
                   (map (fun row => firstn k row ++ v :: skipn k row) (body data)))
  else Raise IndexError.

(** The counts of a forest as numbers of the dataset. *)
Definition as_values (data : count_table) : value_table :=
  mkTable (header data) (map (map inject_Z) (body data)).

(** The body of the loop over the forests, given [distributions[forest]]. *)
Definition add_distributions (data : count_table) (d : distribution)
  : result value_table :=
  rfold_left
    (fun updated_data i =>
       let index_coverage := i * 3 + 3 + i * 2 in
       let index_supplyPerc := i * 3 + 4 + i * 2 in
       let species := nth i (dist_species d) EmptyString in
       rbind (insert_column index_coverage (species ++ " forest coverage")%string
                            (nth i (coverages d) 0%Q) updated_data) (fun updated_data =>
         insert_column index_supplyPerc (species ++ " supply percentage")%string
                       (nth i (supplyPerces d) 0%Q) updated_data))
    (seq 0 (length (dist_species d)))
    (as_values data).

End Enriching.

Module Finalizing.

Import DataPreparation.

(** ** Removing old browsed shoots *)

(** The positions of the columns whose name holds [sub]. *)
Definition columns_named (sub : string) (dataset0 : list string) : list nat :=
  map fst (filter (fun kh => contains sub (snd kh)) (enumerate_from 0 dataset0)).

Definition remove_old_browsed (dataset : value_table) : value_table :=
  let old_browsed_cols := columns_named "old browsed" (header dataset) in
  mkTable (Enriching.delete old_browsed_cols (header dataset))
          (map (Enriching.delete old_browsed_cols) (body dataset)).

(** ** Saving predictor and target values *)

Definition target_columns (dataset : value_table) : list nat :=
  columns_named "freshly browsed" (header dataset).

Definition predictor_columns (dataset : value_table) : list nat :=
  map fst (filter (fun kh => negb (contains "freshly browsed" (snd kh)))
                  (enumerate_from 0 (header dataset))).

(** [dataset[:, columns]]. *)
Definition select_columns (columns : list nat) (dataset : value_table) : value_table :=
  mkTable (map (fun c => nth c (header dataset) EmptyString) columns)
          (map (fun row => map (fun c => nth c row 0%Q) columns) (body dataset)).

Definition target_values (dataset : value_table) : value_table :=
  select_columns (target_columns dataset) dataset.

Definition predictor_values (dataset : value_table) : value_table :=
  select_columns (predictor_columns dataset) dataset.

Definition noSupply_value : Q := - (1 # 100000).

(** One row of [target_values_distinguished]: the value of column [j] is
    replaced when column [j * 4] of the same row of [dataset] is 0. *)
Definition distinguish_row (dataset_row target_row : list Q) : result (list Q) :=
  rmapM (fun jt : nat * Q =>
           let (j, t) := jt in
           rbind (index dataset_row (j * 4)) (fun supply =>
             Ok (if Qeq_bool supply 0 then noSupply_value else t)))
        (enumerate_from 0 target_row).

(** The loop starts at row 0, where a name is compared with 0 and never
    equals it; the index [j * 4] is read there as in every other row. *)
Definition target_values_distinguished (dataset : value_table) : result value_table :=
  let target := target_values dataset in
  rbind (rmapM (fun jt : nat * string => index (header dataset) (fst jt * 4))
               (enumerate_from 0 (header target))) (fun _ =>
  rbind (rmapM (fun rows : list Q * list Q => distinguish_row (fst rows) (snd rows))
               (combine (body dataset) (body target))) (fun distinguished =>
    Ok (mkTable (header target) distinguished))).

End Finalizing.

(** * Further notions and sample inputs *)

Module Cases.

Import DataPreparation.


(** Three paths of one forest with two columns each, and a fourth array with
    three columns. *)
Definition path_a : table string Z := mkTable ["all"; "fresh"] [[4; 1]%Z; [2; 0]%Z].
Definition path_b : table string Z := mkTable ["ALL"; "FRESH"] [[7; 7]%Z].
Definition path_c : table string Z := mkTable ["all"; "fresh"] [].
Definition path_wide : table string Z := mkTable ["all"; "fresh"; "old"] [[1; 1; 1]%Z].


(** The sum of a list of numbers, and the number of the rows where species [j],
    whose count is in column [j * stride], is offered. *)
Definition total (l : list Q) : Q := fold_right Qplus 0%Q l.

Definition offered_at (stride j : nat) (row : list Q) : bool :=
  negb (Qeq_bool (nth (j * stride) row 0%Q) 0).

Definition points_offered (stride j : nat) (rows : list (list Q)) : nat :=
  length (filter (offered_at stride j) rows).

(** A forest of two species on four sampling points, after the unknown species
    were aggregated. *)
Definition small_forest : count_table :=
  mkTable ["Unknown all shoots"; "Unknown freshly browsed"; "Unknown old browsed";
           "Bükk all shoots"; "Bükk freshly browsed"; "Bükk old browsed"]
          [[0; 0; 0; 6; 2; 1]; [3; 1; 0; 0; 0; 0];
           [0; 0; 0; 0; 0; 0]; [1; 0; 0; 2; 2; 0]]%Z.


(** The label that row 1 of a raw sheet has in position [r] of a block of
    nine columns. *)
Definition label_of (r : nat) : cell :=
  if r <? 4 then Str "Összes hajtásvég"
  else if r <? 8 then Str "Friss rágott hajtásvég"
  else Str "Régi rágott hajtásvég".

(** A data frame with one block of nine columns, named Bükk, before the
    marker column, and 101 rows below its two header rows. *)
Definition one_block_frame : list (list cell) :=
  [Num 0; Str "Bükk"; Num 0; Num 0; Num 0; Num 0; Num 0; Num 0; Num 0; Num 0]
  :: [Num 0; Num 0; Num 0; Num 0; Num 0; Num 0; Num 0; Num 0; Num 0;
      Str Reading.marker]
  :: repeat [Num 1; Num 0; Num 2; Num 0; Num 1; Num 0; Num 0; Num 0; Num 3; Num 7]
            101.


(** The array that [read_forest_data] returns, as [aggregate_data] uses it:
    the names of row 0 and the counts of the rows from 3 on.  There is no
    such view of an array with another entry in these places. *)
Definition cell_text (c : cell) : option string :=
  match c with
  | Str s => Some s
  | Num _ => None
  end.

Definition cell_count (c : cell) : option Z :=
  match c with
  | Num z => Some z
  | Str _ => None
  end.

Fixpoint all_some {A} (l : list (option A)) : option (list A) :=
  match l with
  | [] => Some []
  | Some x :: l' => option_map (cons x) (all_some l')
  | None :: _ => None
  end.

Definition as_raw_sheet (data : list (list cell)) : option raw_sheet :=
  match data with
  | names :: _ :: _ :: counts =>
      match all_some (map cell_text names),
            all_some (map (fun row => all_some (map cell_count row)) counts) with
      | Some names, Some counts => Some (mkRaw names counts)
      | _, _ => None
      end
  | _ => None
  end.


(** A row of counts is made of triples: all shoots, freshly browsed and old
    browsed shoots of one species.  [field_total r row] is the sum of the
    entries of kind [r] of the row, and [field_total_where U r s row] the sum
    of those of the species that [U] selects, the first triple of [row] being
    species [s]. *)
Fixpoint field_total (r : nat) (row : list Z) : Z :=
  match row with
  | a :: b :: c :: row' => (nth r [a; b; c] 0 + field_total r row')%Z
  | _ => 0%Z
  end.

Fixpoint field_total_where (U : nat -> bool) (r s : nat) (row : list Z) : Z :=
  match row with
  | a :: b :: c :: row' =>
      ((if U s then nth r [a; b; c] 0 else 0) + field_total_where U r (S s) row')%Z
  | _ => 0%Z
  end.

(** The species of a forest that the cell takes for unknown ones. *)
Definition unknown_at (data : count_table) (i : nat) : bool :=
  (i <? ncols data / 3)
  && Enriching.is_unknown (nth (i * 3) (header data) EmptyString).

(** No species has more freshly browsed shoots than shoots. *)
Fixpoint fresh_le_all (row : list Z) : Prop :=
  match row with
  | a :: b :: c :: row' => (b <= a)%Z /\ fresh_le_all row'
  | _ => True
  end.

(** A forest with two numbered species, which are unknown ones, around a
    named one. *)
Definition forest_with_unknown : count_table :=
  mkTable ["Faj 1 all shoots"; "Faj 1 freshly browsed"; "Faj 1 old browsed";
           "Bükk all shoots"; "Bükk freshly browsed"; "Bükk old browsed";
           "Ismeretlen faj all shoots"; "Ismeretlen faj freshly browsed";
           "Ismeretlen faj old browsed"]
          [[3; 1; 0; 6; 2; 1; 4; 4; 2]; [0; 0; 0; 5; 0; 0; 1; 0; 1]]%Z.


(** [np.insert(l, [k], x)] on one row, and the three names of a species in
    the array of a forest before the distribution properties are added. *)
Definition inserted {A} (k : nat) (x : A) (l : list A) : list A :=
  firstn k l ++ x :: skipn k l.

Definition count_names (sp : string) : list string :=
  [(sp ++ " all shoots")%string; (sp ++ " freshly browsed")%string;
   (sp ++ " old browsed")%string].


(** A dataset of two species at two sampling points, with five columns for
    each species, and the same dataset after the old browsed shoots are
    removed. *)
Definition two_species_dataset : value_table :=
  mkTable (dataset_header ["Quercus petraea"; "Fagus sylvatica"])
          [[4; 1 # 2; 1; 1 # 2; 2 # 3; 0; 0; 0; 1 # 2; 1 # 3];
           [0; 0; 0; 1 # 2; 2 # 3; 2; 1; 0; 1 # 2; 1 # 3]]%Q.

Definition two_species_final : value_table :=
  mkTable ["Quercus petraea all shoots"; "Quercus petraea freshly browsed";
           "Quercus petraea forest coverage"; "Quercus petraea supply percentage";
           "Fagus sylvatica all shoots"; "Fagus sylvatica freshly browsed";
           "Fagus sylvatica forest coverage"; "Fagus sylvatica supply percentage"]
          [[4; 1 # 2; 1 # 2; 2 # 3; 0; 0; 1 # 2; 1 # 3];
           [0; 0; 1 # 2; 2 # 3; 2; 1; 1 # 2; 1 # 3]]%Q.

End Cases.

(** * Properties *)

Import DataPreparation.

(** ** The monads *)

Lemma lbind_ok {A B} (c : logged A) (k : A -> logged B) lg b :
  lbind c k = (lg, Ok b) ->
  exists l1 a l2, c = (l1, Ok a) /\ k a = (l2, Ok b) /\ lg = l1 ++ l2.
Proof.
  unfold lbind. destruct c as [l1 [a | e]]; [| discriminate].
  destruct (k a) as [l2 r] eqn:Hk. intros H. inversion H; subst.
  exists l1, a, l2. auto.
Qed.

Lemma rbind_ok {A B} (c : result A) (k : A -> result B) b :
  rbind c k = Ok b -> exists a, c = Ok a /\ k a = Ok b.
Proof.
  destruct c as [a | e]; simpl; [| discriminate]. intros H. exists a. auto.
Qed.

Section Monads.

Context {A B : Type}.

Lemma lmapM_ok (f : A -> logged B) : forall l lg ys,
  lmapM f l = (lg, Ok ys) ->
  length ys = length l /\
  forall k x, nth_error l k = Some x ->
    exists lgx y, f x = (lgx, Ok y) /\ nth_error ys k = Some y /\ incl lgx lg.
Proof.
  induction l as [| x0 l IH]; simpl; intros lg ys H.
  - inversion H; subst. split; [reflexivity |].
    intros k x Hk. destruct k; discriminate.
  - apply lbind_ok in H. destruct H as (l1 & y0 & l2 & Hf & H & ->).
    apply lbind_ok in H. destruct H as (l3 & ys' & l4 & Hm & H & ->).
    inversion H; subst. destruct (IH _ _ Hm) as [Hlen Hnth].
    split; [simpl; congruence |].
    intros [| k] x Hk; simpl in Hk.
    + inversion Hk; subst. exists l1, y0. repeat split; auto.
      apply incl_appl, incl_refl.
    + destruct (Hnth _ _ Hk) as (lgx & y & Hx & Hy & Hin).
      exists lgx, y. repeat split; auto.
      apply incl_appr. rewrite app_nil_r. exact Hin.
Qed.

Lemma lmapM_log (f : A -> logged B) : forall l lg ys e,
  lmapM f l = (lg, Ok ys) -> In e lg ->
  exists k x lgx y, nth_error l k = Some x /\ f x = (lgx, Ok y) /\ In e lgx.
Proof.
  induction l as [| x0 l IH]; simpl; intros lg ys e H Hin.
  - inversion H; subst. contradiction.
  - apply lbind_ok in H. destruct H as (l1 & y0 & l2 & Hf & H & ->).
    apply lbind_ok in H. destruct H as (l3 & ys' & l4 & Hm & H & ->).
    inversion H; subst. rewrite app_nil_r in Hin.
    apply in_app_or in Hin. destruct Hin as [Hin | Hin].
    + exists 0, x0, l1, y0. auto.
    + destruct (IH _ _ _ Hm Hin) as (k & x & lgx & y & Hk & Hx & He).
      exists (S k), x, lgx, y. auto.
Qed.

Lemma rmapM_ok (f : A -> result B) : forall l ys,
  rmapM f l = Ok ys ->
  length ys = length l /\
  forall k x, nth_error l k = Some x ->
    exists y, f x = Ok y /\ nth_error ys k = Some y.
Proof.
  induction l as [| x0 l IH]; simpl; intros ys H.
  - inversion H; subst. split; [reflexivity |].
    intros k x Hk. destruct k; discriminate.
  - apply rbind_ok in H. destruct H as (y0 & Hf & H).
    apply rbind_ok in H. destruct H as (ys' & Hm & H).
    inversion H; subst. destruct (IH _ Hm) as [Hlen Hnth].
    split; [simpl; congruence |].
    intros [| k] x Hk; simpl in Hk.
    + inversion Hk; subst. exists y0. auto.
    + apply (Hnth _ _ Hk).
Qed.

Lemma rmapM_total (f : A -> result B) : forall l,
  (forall x, In x l -> exists y, f x = Ok y) ->
  exists ys, rmapM f l = Ok ys.
Proof.
  induction l as [| x0 l IH]; simpl; intros H.
  - eauto.
  - destruct (H x0 (or_introl eq_refl)) as [y0 Hy0]. rewrite Hy0. simpl.
    destruct IH as [ys Hys]; [intros; apply H; auto |].
    rewrite Hys. simpl. eauto.
Qed.

End Monads.

(** ** Lists *)

Lemma nth_error_enumerate_from {A} (l : list A) start k x :
  nth_error l k = Some x ->
  nth_error (enumerate_from start l) k = Some (start + k, x).
Proof.
  unfold enumerate_from. revert start k.
  induction l as [| a l IH]; intros start [| k] H; simpl in *; try discriminate.
  - inversion H; subst. f_equal. f_equal. lia.
  - rewrite (IH (S start) k H). f_equal. f_equal. lia.
Qed.

Lemma nth_error_enumerate_from_inv {A} (l : list A) start k i x :
  nth_error (enumerate_from start l) k = Some (i, x) ->
  i = start + k /\ nth_error l k = Some x.
Proof.
  unfold enumerate_from. revert start k.
  induction l as [| a l IH]; intros start [| k] H; simpl in *; try discriminate.
  - inversion H; subst. split; [lia | reflexivity].
  - destruct (IH _ _ H) as [-> Hx]. split; [lia | assumption].
Qed.

Lemma length_enumerate_from {A} (l : list A) start :
  length (enumerate_from start l) = length l.
Proof.
  unfold enumerate_from. rewrite length_combine, length_seq. lia.
Qed.

(** Entry [w * j + k] of a concatenation of blocks of [w] entries. *)
Lemma nth_error_concat_blocks {A} (w : nat) : forall (ls : list (list A)) j k blk,
  Forall (fun b => length b = w) ls ->
  nth_error ls j = Some blk -> k < w ->
  nth_error (concat ls) (j * w + k) = nth_error blk k.
Proof.
  induction ls as [| b ls IH]; intros j k blk Hall Hj Hk.
  - destruct j; discriminate.
  - inversion Hall; subst. destruct j as [| j]; simpl in *.
    + inversion Hj; subst. rewrite nth_error_app1 by lia. reflexivity.
    + rewrite nth_error_app2 by lia.
      replace (length b + j * length b + k - length b) with (j * length b + k) by lia.
      apply IH; auto.
Qed.

(** ** [aggregate_data] *)

(** The two sums of a species block in a raw row. *)
Lemma aggregate_species_ok species i row j lg cells :
  aggregate_species species i row j = (lg, Ok cells) ->
  let shoots := np_sum (slice (j * 9) (j * 9 + 4) row) in
  let browsed := np_sum (slice (j * 9 + 4) (j * 9 + 8) row) in
  exists old,
    nth_error row (j * 9 + 8) = Some old /\
    cells = [if (shoots <? browsed)%Z then (shoots + browsed)%Z else shoots;
             browsed; old] /\
    ((shoots < browsed)%Z ->
       exists sp, nth_error species j = Some sp /\
                  lg = [LogCorrection sp i shoots browsed]) /\
    ((browsed <= shoots)%Z -> lg = []).
Proof.
  unfold aggregate_species. cbv zeta.
  set (shoots := np_sum (slice (j * 9) (j * 9 + 4) row)).
  set (browsed := np_sum (slice (j * 9 + 4) (j * 9 + 8) row)).
  rewrite Z.gtb_ltb. unfold lift, index, log_append, lret.
  destruct (nth_error row (j * 9 + 8)) as [old |] eqn:Hold.
  - destruct (shoots <? browsed)%Z eqn:Hlt.
    + destruct (nth_error species j) as [sp |] eqn:Hsp; simpl.
      * intros H. inversion H; subst. exists old.
        repeat split; auto.
        -- intros _. exists sp. auto.
        -- intros Hle. apply Z.ltb_lt in Hlt. lia.
      * discriminate.
    + simpl. intros H. inversion H; subst. exists old.
      repeat split; auto.
      intros Hc. apply Z.ltb_ge in Hlt. lia.
  - destruct (shoots <? browsed)%Z; [destruct (nth_error species j) |]; simpl; discriminate.
Qed.

Lemma aggregate_row_ok species nr_species i row lg out :
  aggregate_row species nr_species (i, row) = (lg, Ok out) ->
  forall j, j < nr_species ->
    exists lgj cells,
      aggregate_species species i row j = (lgj, Ok cells) /\ incl lgj lg /\
      forall k, k < 3 -> nth_error out (j * 3 + k) = nth_error cells k.
Proof.
  unfold aggregate_row. intros H j Hj.
  apply lbind_ok in H. destruct H as (l1 & blocks & l2 & Hm & H & ->).
  inversion H; subst. rewrite app_nil_r.
  destruct (lmapM_ok _ _ _ _ Hm) as [Hlen Hnth].
  assert (Hseq : nth_error (seq 0 nr_species) j = Some j).
  { rewrite nth_error_seq. apply Nat.ltb_lt in Hj. rewrite Hj. reflexivity. }
  destruct (Hnth _ _ Hseq) as (lgj & cells & Hf & Hcells & Hincl).
  exists lgj, cells. repeat split; auto.
  intros k Hk. apply nth_error_concat_blocks; auto.
  apply Forall_forall. intros blk Hin.
  apply In_nth_error in Hin. destruct Hin as [n Hn].
  assert (Hn' : n < length (seq 0 nr_species)).
  { rewrite <- Hlen. apply nth_error_Some. congruence. }
  destruct (nth_error (seq 0 nr_species) n) as [x |] eqn:Hx;
    [| apply nth_error_None in Hx; lia].
  destruct (Hnth _ _ Hx) as (lgx & y & Hfx & Hy & _).
  rewrite Hn in Hy. inversion Hy; subst.
  apply aggregate_species_ok in Hfx. destruct Hfx as (old & _ & -> & _).
  reflexivity.
Qed.

Lemma aggregate_row_log species nr_species i row lg out e :
  aggregate_row species nr_species (i, row) = (lg, Ok out) -> In e lg ->
  exists j lgj cells,
    j < nr_species /\ aggregate_species species i row j = (lgj, Ok cells) /\ In e lgj.
Proof.
  unfold aggregate_row. intros H Hin.
  apply lbind_ok in H. destruct H as (l1 & blocks & l2 & Hm & H & ->).
  inversion H; subst. rewrite app_nil_r in Hin.
  destruct (lmapM_log _ _ _ _ _ Hm Hin) as (k & x & lgx & y & Hk & Hx & He).
  assert (x = k /\ k < nr_species) as [-> Hlt].
  { assert (Hl : k < length (seq 0 nr_species)) by (apply nth_error_Some; congruence).
    rewrite length_seq in Hl. rewrite nth_error_seq in Hk.
    assert (Hb : (k <? nr_species) = true) by (apply Nat.ltb_lt; exact Hl).
    rewrite Hb in Hk. injection Hk as <-. simpl. auto. }
  exists k, lgx, y. auto.
Qed.

Lemma aggregate_data_ok data lg agg :
  aggregate_data data = (lg, Ok agg) ->
  exists lgr,
    incl lgr lg /\ (forall e, In e lg -> In e lgr) /\
    lmapM (aggregate_row (unique_in_order (sheet_names data)) (raw_ncols data / 9))
          (enumerate_from 1 (sheet_counts data)) = (lgr, Ok (body agg)).
Proof.
  unfold aggregate_data. intros H.
  apply lbind_ok in H. destruct H as (l1 & hd & l2 & Hh & H & ->).
  apply lbind_ok in H. destruct H as (l3 & rows & l4 & Hm & H & ->).
  inversion H; subst. simpl.
  unfold lift in Hh. inversion Hh; subst. simpl.
  exists l3. rewrite app_nil_r. repeat split; auto. apply incl_refl.
Qed.

(** What [aggregate_data] writes and logs, whenever it returns. *)
Lemma aggregate_data_values data lg agg :
  aggregate_data data = (lg, Ok agg) ->
  let species := unique_in_order (sheet_names data) in
  let shoots row j := np_sum (slice (j * 9) (j * 9 + 4) row) in
  let browsed row j := np_sum (slice (j * 9 + 4) (j * 9 + 8) row) in
  length (body agg) = length (sheet_counts data) /\
  (forall i row j,
     nth_error (sheet_counts data) i = Some row -> j < raw_ncols data / 9 ->
     exists out,
       nth_error (body agg) i = Some out /\
       nth_error out (j * 3 + 1) = Some (browsed row j) /\
       nth_error out (j * 3 + 2) = nth_error row (j * 9 + 8) /\
       nth_error out (j * 3)
       = Some (if (shoots row j <? browsed row j)%Z
               then (shoots row j + browsed row j)%Z else shoots row j) /\
       ((shoots row j < browsed row j)%Z ->
          exists sp, nth_error species j = Some sp /\
                     In (LogCorrection sp (S i) (shoots row j) (browsed row j)) lg)) /\
  (forall e, In e lg ->
     exists i row j sp,
       nth_error (sheet_counts data) i = Some row /\ j < raw_ncols data / 9 /\
       nth_error species j = Some sp /\ (shoots row j < browsed row j)%Z /\
       e = LogCorrection sp (S i) (shoots row j) (browsed row j)).
Proof.
  intros H species shoots browsed.
  destruct (aggregate_data_ok _ _ _ H) as (lgr & Hincl & Hback & Hm).
  destruct (lmapM_ok _ _ _ _ Hm) as [Hlen Hnth].
  rewrite length_enumerate_from in Hlen.
  split; [exact Hlen |]. split.
  - intros i row j Hrow Hj.
    pose proof (nth_error_enumerate_from _ 1 _ _ Hrow) as Hen.
    destruct (Hnth _ _ Hen) as (lgi & out & Hr & Hout & Hlgi).
    destruct (aggregate_row_ok _ _ _ _ _ _ Hr j Hj) as (lgj & cells & Hs & Hlgj & Hcells).
    apply aggregate_species_ok in Hs. cbv zeta in Hs.
    destruct Hs as (old & Hold & -> & Hlog & _).
    exists out. split; [exact Hout |].
    split; [rewrite (Hcells 1) by lia; reflexivity |].
    split; [rewrite (Hcells 2) by lia; rewrite Hold; reflexivity |].
    split; [rewrite <- (Nat.add_0_r (j * 3)); rewrite (Hcells 0) by lia; reflexivity |].
    intros Hlt. destruct (Hlog Hlt) as (sp & Hsp & ->).
    exists sp. split; [exact Hsp |].
    apply Hincl, Hlgi, Hlgj. left. reflexivity.
  - intros e He. apply Hback in He.
    destruct (lmapM_log _ _ _ _ _ Hm He) as (k & [i row] & lgx & out & Hk & Hr & Hin).
    apply nth_error_enumerate_from_inv in Hk. destruct Hk as [-> Hrow].
    destruct (aggregate_row_log _ _ _ _ _ _ _ Hr Hin) as (j & lgj & cells & Hj & Hs & Hej).
    apply aggregate_species_ok in Hs. cbv zeta in Hs.
    destruct Hs as (old & Hold & -> & Hlog & Hnolog).
    destruct (Z_lt_le_dec (shoots row j) (browsed row j)) as [Hlt | Hle].
    + destruct (Hlog Hlt) as (sp & Hsp & ->).
      destruct Hej as [<- | []].
      exists k, row, j, sp. repeat split; auto.
    + rewrite (Hnolog Hle) in Hej. contradiction.
Qed.

Lemma np_sum_nonneg (l : list Z) :
  Forall (fun z => 0 <= z)%Z l -> (0 <= np_sum l)%Z.
Proof.
  induction 1 as [| z l Hz _ IH]; simpl; lia.
Qed.

Lemma Forall_slice {A} (P : A -> Prop) a b (l : list A) :
  Forall P l -> Forall P (slice a b l).
Proof.
  intros H. unfold slice. apply Forall_forall. intros x Hx.
  eapply Forall_forall; [exact H |].
  rewrite <- (firstn_skipn a l). apply in_or_app. right.
  rewrite <- (firstn_skipn (b - a) (skipn a l)). apply in_or_app. left. exact Hx.
Qed.

(** The first two cells that [aggregate_data] writes for a species. *)
Lemma aggregate_data_cell data lg agg :
  aggregate_data data = (lg, Ok agg) ->
  forall i row j,
    nth_error (sheet_counts data) i = Some row -> j < raw_ncols data / 9 ->
    let shoots := np_sum (slice (j * 9) (j * 9 + 4) row) in
    let browsed := np_sum (slice (j * 9 + 4) (j * 9 + 8) row) in
    exists out,
      nth_error (body agg) i = Some out /\
      nth_error out (j * 3)
      = Some (if (shoots <? browsed)%Z then (shoots + browsed)%Z else shoots) /\
      nth_error out (j * 3 + 1) = Some browsed.
Proof.
  intros H i row j Hrow Hj shoots browsed.
  destruct (aggregate_data_ok _ _ _ H) as (lgr & _ & _ & Hm).
  destruct (lmapM_ok _ _ _ _ Hm) as [_ Hnth].
  pose proof (nth_error_enumerate_from _ 1 _ _ Hrow) as Hen.
  destruct (Hnth _ _ Hen) as (lgi & out & Hr & Hout & _).
  destruct (aggregate_row_ok _ _ _ _ _ _ Hr j Hj) as (lgj & cells & Hs & _ & Hcells).
  apply aggregate_species_ok in Hs. cbv zeta in Hs.
  destruct Hs as (old & _ & -> & _).
  exists out. split; [exact Hout |]. split.
  - rewrite <- (Nat.add_0_r (j * 3)). rewrite (Hcells 0) by lia. reflexivity.
  - rewrite (Hcells 1) by lia. reflexivity.
Qed.

Lemma aggregate_data_length data lg agg :
  aggregate_data data = (lg, Ok agg) ->
  length (body agg) = length (sheet_counts data).
Proof.
  intros H. destruct (aggregate_data_ok _ _ _ H) as (lgr & _ & _ & Hm).
  destruct (lmapM_ok _ _ _ _ Hm) as [Hlen _].
  rewrite length_enumerate_from in Hlen. exact Hlen.
Qed.

Lemma lmapM_total {A B} (f : A -> logged B) : forall l,
  (forall x, In x l -> exists lg y, f x = (lg, Ok y)) ->
  exists lg ys, lmapM f l = (lg, Ok ys).
Proof.
  induction l as [| x0 l IH]; simpl; intros H.
  - exists [], []. reflexivity.
  - destruct (H x0 (or_introl eq_refl)) as (lg0 & y0 & Hy0). rewrite Hy0.
    destruct IH as (lg1 & ys & Hys); [intros; apply H; auto |].
    unfold lbind. rewrite Hys. simpl. eauto.
Qed.

(** [aggregate_data] returns on every sheet with as many different names as it
    has blocks of 9 columns and with complete rows. *)
Lemma aggregate_data_total data :
  length (unique_in_order (sheet_names data)) = raw_ncols data / 9 ->
  Forall (fun row => length row = raw_ncols data) (sheet_counts data) ->
  exists lg agg, aggregate_data data = (lg, Ok agg).
Proof.
  intros Hsp Hrows. unfold aggregate_data, aggregated_header.
  rewrite Hsp, Nat.leb_refl. unfold lift.
  destruct (lmapM_total
              (aggregate_row (unique_in_order (sheet_names data)) (raw_ncols data / 9))
              (enumerate_from 1 (sheet_counts data))) as (lg & rows & Hm).
  - intros [i row] Hin. unfold aggregate_row.
    assert (Hrow : length row = raw_ncols data).
    { apply In_nth_error in Hin. destruct Hin as [k Hk].
      apply nth_error_enumerate_from_inv in Hk. destruct Hk as [_ Hk].
      apply nth_error_In in Hk. eapply Forall_forall in Hrows; eauto. }
    destruct (lmapM_total
                (aggregate_species (unique_in_order (sheet_names data)) i row)
                (seq 0 (raw_ncols data / 9))) as (lg & cells & Hc).
    + intros j Hj. apply in_seq in Hj. unfold aggregate_species, lift, index.
      assert (Hdiv : raw_ncols data / 9 * 9 <= raw_ncols data).
      { rewrite Nat.mul_comm. apply Nat.Div0.mul_div_le. }
      destruct (nth_error row (j * 9 + 8)) as [old |] eqn:Hold;
        [| apply nth_error_None in Hold; lia].
      destruct (nth_error (unique_in_order (sheet_names data)) j) as [sp |] eqn:Hspj;
        [| apply nth_error_None in Hspj; lia].
      destruct (_ >? _)%Z; simpl; eauto.
    + rewrite Hc. simpl. eauto.
  - rewrite Hm. simpl. eauto.
Qed.

(** *** Sheets as [read_forest_data] builds them

    Row 0 repeats the name of each species over its block of 9 columns. *)

Lemma filter_other_notin (s : string) : forall l,
  ~ In s l -> filter (fun y => negb (String.eqb s y)) l = l.
Proof.
  induction l as [| x l IH]; simpl; intros H; [reflexivity |].
  destruct (String.eqb_spec s x) as [-> | Hne]; simpl.
  - exfalso. apply H. left. reflexivity.
  - rewrite IH; [reflexivity |]. intros Hin. apply H. right. exact Hin.
Qed.

Lemma filter_other_twice (s : string) : forall l,
  filter (fun y => negb (String.eqb s y)) (filter (fun y => negb (String.eqb s y)) l)
  = filter (fun y => negb (String.eqb s y)) l.
Proof.
  induction l as [| x l IH]; simpl; [reflexivity |].
  destruct (negb (String.eqb s x)) eqn:Hx; simpl; [rewrite Hx, IH |]; auto.
Qed.

Lemma unique_in_order_repeat (s : string) (l : list string) : forall n,
  unique_in_order (repeat s (S n) ++ l)
  = s :: filter (fun y => negb (String.eqb s y)) (unique_in_order l).
Proof.
  induction n as [| n IH]; [reflexivity |].
  change (repeat s (S (S n)) ++ l) with (s :: (repeat s (S n) ++ l)).
  cbn [unique_in_order]. rewrite IH. cbn [filter].
  rewrite String.eqb_refl. cbn [negb]. now rewrite filter_other_twice.
Qed.

Lemma unique_in_order_blocks : forall species,
  NoDup species ->
  unique_in_order (flat_map (fun s => repeat s 9) species) = species.
Proof.
  induction 1 as [| s species Hs Hnd IH]; [reflexivity |].
  cbn [flat_map]. rewrite unique_in_order_repeat, IH.
  now rewrite filter_other_notin.
Qed.

(** A sheet of blocks of different species with complete rows is one that
    [aggregate_data] accepts, and its list of species is the one of the
    blocks. *)
Lemma block_sheet_accepted (species : list string) (counts : list (list Z)) :
  NoDup species ->
  Forall (fun row => length row = 9 * length species) counts ->
  let data := mkRaw (flat_map (fun s => repeat s 9) species) counts in
  unique_in_order (sheet_names data) = species /\
  length (unique_in_order (sheet_names data)) = raw_ncols data / 9 /\
  Forall (fun row => length row = raw_ncols data) (sheet_counts data).
Proof.
  intros Hnd Hrows data.
  assert (Hlen : raw_ncols data = 9 * length species).
  { unfold raw_ncols, data. cbn [sheet_names]. clear.
    induction species as [| s l IH]; [reflexivity |].
    cbn [flat_map]. rewrite length_app, IH. simpl. lia. }
  split; [apply unique_in_order_blocks, Hnd |].
  split.
  - simpl sheet_names. rewrite unique_in_order_blocks by exact Hnd.
    rewrite Hlen, Nat.mul_comm, Nat.div_mul; [reflexivity | discriminate].
  - rewrite Hlen. exact Hrows.
Qed.

(** C2. For every raw sheet with as many species names as blocks of 9 columns
    and with complete rows, [aggregate_data] returns a matrix where, at every
    data row and for every species block: freshly browsed is the sum of
    sub-columns 5 to 8, old browsed is the 9th sub-column unchanged, and all
    shoots is the sum of sub-columns 1 to 4, or that sum plus freshly browsed
    when the sum is smaller than freshly browsed; in that case the log has an
    entry with the species, the row index and both counts, and the log has no
    other entries.  The sub-columns [2,0,0,0, 3,0,0,0, 1] give all shoots 5,
    freshly browsed 3 and old browsed 1. *)
Theorem C2_aggregate_data_values :
  (forall data,
     length (unique_in_order (sheet_names data)) = raw_ncols data / 9 ->
     Forall (fun row => length row = raw_ncols data) (sheet_counts data) ->
     let species := unique_in_order (sheet_names data) in
     let shoots row j := np_sum (slice (j * 9) (j * 9 + 4) row) in
     let browsed row j := np_sum (slice (j * 9 + 4) (j * 9 + 8) row) in
     exists lg agg,
       aggregate_data data = (lg, Ok agg) /\
       length (body agg) = length (sheet_counts data) /\
       (forall i row j,
          nth_error (sheet_counts data) i = Some row -> j < raw_ncols data / 9 ->
          exists out,
            nth_error (body agg) i = Some out /\
            nth_error out (j * 3 + 1) = Some (browsed row j) /\
            nth_error out (j * 3 + 2) = nth_error row (j * 9 + 8) /\
            nth_error out (j * 3)
            = Some (if (shoots row j <? browsed row j)%Z
                    then (shoots row j + browsed row j)%Z else shoots row j) /\
            ((shoots row j < browsed row j)%Z ->
               exists sp, nth_error species j = Some sp /\
                          In (LogCorrection sp (S i) (shoots row j) (browsed row j)) lg)) /\
       (forall e, In e lg ->
          exists i row j sp,
            nth_error (sheet_counts data) i = Some row /\ j < raw_ncols data / 9 /\
            nth_error species j = Some sp /\ (shoots row j < browsed row j)%Z /\
            e = LogCorrection sp (S i) (shoots row j) (browsed row j))) /\
  aggregate_data Samples.one_point_sheet
  = ([LogCorrection "Bükk" 1 2 3],
     Ok (mkTable [Str "Bükk all shoots"; Str "Bükk freshly browsed";
                  Str "Bükk old browsed"]
                 [[5; 3; 1]%Z])).
Proof.
  split; [| reflexivity].
  intros data Hsp Hrows species shoots browsed.
  destruct (aggregate_data_total data Hsp Hrows) as (lg & agg & H).
  exists lg, agg. split; [exact H |].
  exact (aggregate_data_values data lg agg H).
Qed.

(** C2 on a sheet with two species and two points. *)
Lemma C2_aggregate_data_values_witness :
  exists lg agg,
    aggregate_data Samples.two_species_sheet = (lg, Ok agg) /\
    length (body agg) = 2 /\
    (forall i row j,
       nth_error (sheet_counts Samples.two_species_sheet) i = Some row -> j < 2 ->
       exists out,
         nth_error (body agg) i = Some out /\
         nth_error out (j * 3 + 1) = Some (np_sum (slice (j * 9 + 4) (j * 9 + 8) row)) /\
         nth_error out (j * 3 + 2) = nth_error row (j * 9 + 8) /\
         nth_error out (j * 3)
         = Some (if (np_sum (slice (j * 9) (j * 9 + 4) row)
                     <? np_sum (slice (j * 9 + 4) (j * 9 + 8) row))%Z
                 then (np_sum (slice (j * 9) (j * 9 + 4) row)
                       + np_sum (slice (j * 9 + 4) (j * 9 + 8) row))%Z
                 else np_sum (slice (j * 9) (j * 9 + 4) row)) /\
         ((np_sum (slice (j * 9) (j * 9 + 4) row)
           < np_sum (slice (j * 9 + 4) (j * 9 + 8) row))%Z ->
          exists sp, nth_error ["Bükk"; "Gyertyán"] j = Some sp /\
                     In (LogCorrection sp (S i) (np_sum (slice (j * 9) (j * 9 + 4) row))
                                       (np_sum (slice (j * 9 + 4) (j * 9 + 8) row))) lg)) /\
    (forall e, In e lg ->
       exists i row j sp,
         nth_error (sheet_counts Samples.two_species_sheet) i = Some row /\ j < 2 /\
         nth_error ["Bükk"; "Gyertyán"] j = Some sp /\
         (np_sum (slice (j * 9) (j * 9 + 4) row)
          < np_sum (slice (j * 9 + 4) (j * 9 + 8) row))%Z /\
         e = LogCorrection sp (S i) (np_sum (slice (j * 9) (j * 9 + 4) row))
                           (np_sum (slice (j * 9 + 4) (j * 9 + 8) row))).
Proof.
  apply (proj1 C2_aggregate_data_values Samples.two_species_sheet).
  - reflexivity.
  - repeat constructor.
Defined.

(** C1. In every matrix that [aggregate_data] produces from a sheet of counts
    (numbers that are not negative), at every data row and for every species,
    all shoots is at least freshly browsed. *)
Theorem C1_all_shoots_ge_freshly_browsed :
  forall data lg agg,
    aggregate_data data = (lg, Ok agg) ->
    Forall (Forall (fun z => 0 <= z)%Z) (sheet_counts data) ->
    forall i out j,
      nth_error (body agg) i = Some out -> j < raw_ncols data / 9 ->
      exists all_shoots freshly_browsed,
        nth_error out (j * 3) = Some all_shoots /\
        nth_error out (j * 3 + 1) = Some freshly_browsed /\
        (all_shoots >= freshly_browsed)%Z.
Proof.
  intros data lg agg H Hpos i out j Hout Hj.
  assert (Hi : i < length (sheet_counts data)).
  { rewrite <- (aggregate_data_length _ _ _ H). apply nth_error_Some. congruence. }
  destruct (nth_error (sheet_counts data) i) as [row |] eqn:Hrow;
    [| apply nth_error_None in Hrow; lia].
  destruct (aggregate_data_cell _ _ _ H _ _ _ Hrow Hj) as (out' & Hout' & Hall & Hfresh).
  rewrite Hout in Hout'. inversion Hout'; subst out'.
  eexists _, _. split; [exact Hall |]. split; [exact Hfresh |].
  assert (Hrowpos : Forall (fun z => 0 <= z)%Z row).
  { apply nth_error_In in Hrow. eapply Forall_forall in Hpos; eauto. }
  pose proof (np_sum_nonneg _ (Forall_slice _ (j * 9) (j * 9 + 4) _ Hrowpos)) as Hs.
  destruct (_ <? _)%Z eqn:Hlt.
  - lia.
  - apply Z.ltb_ge in Hlt. lia.
Qed.

(** C1 on the sheet with two species: the corrected first point of the first
    species. *)
Lemma C1_all_shoots_ge_freshly_browsed_witness :
  exists all_shoots freshly_browsed,
    nth_error [5; 3; 1; 5; 2; 2]%Z (0 * 3) = Some all_shoots /\
    nth_error [5; 3; 1; 5; 2; 2]%Z (0 * 3 + 1) = Some freshly_browsed /\
    (all_shoots >= freshly_browsed)%Z.
Proof.
  apply (C1_all_shoots_ge_freshly_browsed
           Samples.two_species_sheet
           [LogCorrection "Bükk" 1 2 3]
           (mkTable (aggregated_names "Bükk" ++ aggregated_names "Gyertyán")
                    [[5; 3; 1; 5; 2; 2]%Z; [4; 2; 0; 0; 0; 0]%Z])
           eq_refl) with (i := 0).
  - repeat constructor; vm_compute; discriminate.
  - reflexivity.
  - vm_compute. lia.
Defined.

(** ** The cell that reads the forests *)

Lemma try_files_paths_filter (fs : list sheet_file) :
  snd (try_files fs) = snd (try_files (filter Spec.loads fs)).
Proof.
  induction fs as [| f fs IH]; [reflexivity |].
  simpl. unfold Spec.loads at 1.
  destruct (try_file f) as [[lg1 w1] p1] eqn:Hf.
  destruct (try_files fs) as [[lg2 w2] p2].
  simpl in *. destruct p1 as [| t p1].
  - simpl. exact IH.
  - simpl. rewrite Hf.
    destruct (try_files (filter Spec.loads fs)) as [[lg3 w3] p3].
    simpl in *. congruence.
Qed.

(** The sheets that fail change neither [forests] nor the exception that ends
    the cell, if any: the cell runs as it does on the folders without them. *)
Lemma read_forests_from_isolated : forall root st st',
  forests st = forests st' -> raised st = raised st' ->
  forests (read_forests_from st root)
  = forests (read_forests_from st' (map Spec.without_failing root)) /\
  raised (read_forests_from st root)
  = raised (read_forests_from st' (map Spec.without_failing root)).
Proof.
  induction root as [| d root IH]; intros st st' Hf Hr; simpl.
  - auto.
  - destruct (is_dir d) eqn:Hd; [| apply IH; auto].
    pose proof (try_files_paths_filter (folder_files d)) as Hp.
    destruct (try_files (folder_files d)) as [[lg w] paths].
    destruct (try_files (filter Spec.loads (folder_files d))) as [[lg' w'] paths'].
    simpl in Hp. subst paths'.
    destruct (combine_forest paths) as [combined | e].
    + apply IH; simpl; [rewrite Hf |]; reflexivity.
    + simpl. auto.
Qed.

Lemma read_forests_isolated (root : list dir_entry) :
  forests (read_forests root) = forests (read_forests (map Spec.without_failing root)) /\
  raised (read_forests root) = raised (read_forests (map Spec.without_failing root)).
Proof.
  apply read_forests_from_isolated; reflexivity.
Qed.

(** C7, at a corpus whose first forest has one sheet, which cannot be read:
    the file is logged and warned about, but [combine_forest] then raises on
    the empty list of paths and the cell stops before the second forest, which
    is read when the first folder is not there. *)
Theorem C7_forest_without_paths_aborts :
  read_forests Samples.corpus_with_failing_forest
  = mkReading [] [LogFile "Recsk 1 vonal.xlsx"]
              ["Problem with loading Recsk 1 vonal.xlsx."] (Some IndexError) /\
  read_forests Samples.corpus_of_readable_forest
  = mkReading [("Bükk-alja",
                mkTable [Str "Bükk all shoots"; Str "Bükk freshly browsed";
                         Str "Bükk old browsed"] [[5; 3; 1]%Z])]
              [LogFile "Bükk-alja 1 vonal.xlsx"; LogCorrection "Bükk" 1 2 3]
              [] None.
Proof.
  split; reflexivity.
Qed.

(** ** Species distribution within a forest *)

Lemma length_update_nth {A} (f : A -> A) : forall l j,
  length (update_nth j f l) = length l.
Proof.
  induction l as [| x l IH]; intros [| j]; simpl; auto.
Qed.

Lemma tally_species_length stride row t j t' :
  tally_species stride row t j = Ok t' ->
  length (points_with_supply t') = length (points_with_supply t) /\
  length (shoots_offered t') = length (shoots_offered t).
Proof.
  unfold tally_species. intros H.
  apply rbind_ok in H. destruct H as (x & _ & H).
  destruct (negb (Qeq_bool x 0)); inversion H; subst; simpl.
  - rewrite !length_update_nth. auto.
  - auto.
Qed.

Lemma rfold_left_invariant {A B} (P : A -> Prop) (f : A -> B -> result A) :
  (forall a b a', P a -> f a b = Ok a' -> P a') ->
  forall l a a', P a -> rfold_left f l a = Ok a' -> P a'.
Proof.
  intros Hstep. induction l as [| b l IH]; simpl; intros a a' Ha H.
  - inversion H; subst. exact Ha.
  - apply rbind_ok in H. destruct H as (a1 & H1 & H2). eauto.
Qed.

Lemma tally_rows_length stride n rows t :
  tally_rows stride n rows = Ok t ->
  length (points_with_supply t) = n /\ length (shoots_offered t) = n.
Proof.
  unfold tally_rows.
  apply (rfold_left_invariant
           (fun t => length (points_with_supply t) = n /\ length (shoots_offered t) = n)).
  - intros a row a' Ha.
    apply (rfold_left_invariant
             (fun t => length (points_with_supply t) = n /\ length (shoots_offered t) = n));
      [| exact Ha].
    intros t1 j t2 [H1 H2] Hs. apply tally_species_length in Hs. lia.
  - simpl. rewrite !repeat_length. auto.
Qed.

(** Whenever the total of the offered shoots of a forest is 0, the division
    by [all_shoots] raises: no table of distributions is stored. *)
Lemma distribution_of_zero_total (data : count_table) t :
  header data <> [] ->
  tally_rows 3 (length (unique_in_order (map species_of (header data))))
             (map (map inject_Z) (body data)) = Ok t ->
  all_shoots t == 0 ->
  distribution_of data = Raise ZeroDivisionError.
Proof.
  intros Hne Ht Hzero. unfold distribution_of. rewrite Ht. simpl.
  apply tally_rows_length in Ht. destruct Ht as [Hc Hs].
  assert (Hpos : 0 < length (shoots_offered t)).
  { rewrite Hs. destruct (header data) as [| h hs]; [contradiction |]. simpl. lia. }
  assert (Hraise : forall l, 0 < length l ->
            rmapM (fun x => py_div x (all_shoots t)) l = Raise ZeroDivisionError).
  { intros [| x l] Hl; [simpl in Hl; lia |]. simpl. unfold py_div.
    apply Qeq_bool_iff in Hzero. rewrite Hzero. reflexivity. }
  destruct (rmapM _ (points_with_supply t)) as [cov | e] eqn:Hcov; simpl.
  - rewrite (Hraise _ Hpos). reflexivity.
  - assert (He : e = ZeroDivisionError); [| subst; reflexivity].
    clear -Hcov. revert Hcov. generalize (points_with_supply t).
    induction l as [| x l IH]; simpl; [discriminate |].
    unfold py_div at 1. destruct (Qeq_bool _ 0); simpl; [congruence |].
    destruct (rmapM _ l); simpl; [discriminate |]. intros H. apply IH. congruence.
Qed.

(** C3, at a forest where no shoot is offered: the table of distributions is
    not built, the division by the total raises, and no supply share (0 or
    other) is assigned to any species; the loop over the forests stops there. *)
Theorem C3_zero_total_raises :
  distribution_of Samples.forest_without_shoots = Raise ZeroDivisionError /\
  distributions [("Recsk", Samples.forest_without_shoots)] = Raise ZeroDivisionError.
Proof.
  split; reflexivity.
Qed.

(** ** Column names *)

Lemma list_ascii_of_string_app (s1 s2 : string) :
  list_ascii_of_string (s1 ++ s2)%string
  = list_ascii_of_string s1 ++ list_ascii_of_string s2.
Proof.
  induction s1 as [| c s1 IH]; simpl; [reflexivity | now rewrite IH].
Qed.

Lemma list_ascii_of_string_inj (s1 s2 : string) :
  list_ascii_of_string s1 = list_ascii_of_string s2 -> s1 = s2.
Proof.
  intros H. rewrite <- (string_of_list_ascii_of_string s1),
    <- (string_of_list_ascii_of_string s2). now rewrite H.
Qed.

Lemma append_inv_tail (s1 s2 a : string) :
  (s1 ++ a)%string = (s2 ++ a)%string -> s1 = s2.
Proof.
  intros H. apply (f_equal list_ascii_of_string) in H.
  rewrite !list_ascii_of_string_app in H.
  apply app_inv_tail in H. now apply list_ascii_of_string_inj.
Qed.

(** Two strings that are equal end with the same [n] characters. *)
Lemma append_same_end (s1 s2 a b : string) (n : nat) :
  (s1 ++ a)%string = (s2 ++ b)%string ->
  n <= String.length a -> n <= String.length b ->
  firstn n (rev (list_ascii_of_string a)) = firstn n (rev (list_ascii_of_string b)).
Proof.
  intros H Ha Hb. apply (f_equal list_ascii_of_string) in H.
  rewrite !list_ascii_of_string_app in H.
  apply (f_equal (fun l => firstn n (rev l))) in H.
  rewrite !rev_app_distr in H.
  assert (Hlen : forall s, length (rev (list_ascii_of_string s)) = String.length s).
  { intros s. rewrite length_rev. induction s; simpl; auto. }
  rewrite !firstn_app in H.
  replace (n - length (rev (list_ascii_of_string a))) with 0 in H
    by (rewrite Hlen; lia).
  replace (n - length (rev (list_ascii_of_string b))) with 0 in H
    by (rewrite Hlen; lia).
  simpl in H. now rewrite !app_nil_r in H.
Qed.

(** A column name of the dataset determines its species. *)
Lemma dataset_names_inj (sp1 sp2 h : string) :
  In h (dataset_names sp1) -> In h (dataset_names sp2) -> sp1 = sp2.
Proof.
  unfold dataset_names. simpl.
  intros H1 H2.
  repeat (destruct H1 as [H1 | H1]; [| try contradiction]);
    subst h;
    repeat (destruct H2 as [H2 | H2]; [| try contradiction]);
    first [ now apply append_inv_tail in H2
          | exfalso; apply (append_same_end _ _ _ _ 11) in H2;
            [vm_compute in H2; discriminate | vm_compute; lia | vm_compute; lia] ].
Qed.

(** ** Combining the forests into one dataset *)

Lemma in_unique_in_order (x : string) : forall l,
  In x (unique_in_order l) <-> In x l.
Proof.
  induction l as [| y l IH]; simpl; [tauto |].
  rewrite filter_In, IH.
  destruct (String.eqb_spec y x) as [-> | Hne]; simpl.
  - tauto.
  - split; [tauto |]. intros [H | H]; [tauto | auto].
Qed.

Lemma where_first_ok (h : string) : forall row k,
  where_first row h = Ok k -> nth_error row k = Some h.
Proof.
  induction row as [| x row IH]; simpl; intros k H; [discriminate |].
  destruct (String.eqb_spec x h) as [-> | Hne].
  - inversion H; subst. reflexivity.
  - apply rbind_ok in H. destruct H as (k' & Hk' & H). inversion H; subst.
    simpl. auto.
Qed.

Lemma where_first_total (h : string) : forall row,
  In h row -> exists k, where_first row h = Ok k.
Proof.
  induction row as [| x row IH]; simpl; intros H; [contradiction |].
  destruct (String.eqb_spec x h) as [-> | Hne]; [eauto |].
  destruct H as [H | H]; [contradiction |].
  destruct (IH H) as [k Hk]. rewrite Hk. simpl. eauto.
Qed.

Lemma nth_error_update_nth_other {A} (f : A -> A) : forall l k c,
  k <> c -> nth_error (update_nth k f l) c = nth_error l c.
Proof.
  induction l as [| x l IH]; intros [| k] [| c] H; simpl; auto;
    try contradiction; apply IH; lia.
Qed.

Section DatasetRow.

Variables (dataset0 forest0 : list string) (row : list Q).
Hypothesis Hknown : forall h, In h forest0 -> In h dataset0.

(** What the loop over the columns keeps true of the row that it fills. *)
Let filled (acc : list Q) : Prop :=
  length acc = length dataset0 /\
  forall col hs, nth_error dataset0 col = Some hs -> ~ In hs forest0 ->
                 nth_error acc col = Some 0%Q.

Let step (acc : list Q) (j : nat) : result (list Q) :=
  rbind (where_first dataset0 (nth j forest0 EmptyString)) (fun dataset_col =>
    Ok (update_nth dataset_col (fun _ => nth j row 0%Q) acc)).

Lemma dataset_row_step : forall js acc,
  (forall j, In j js -> j < length forest0) -> filled acc ->
  exists out, rfold_left step js acc = Ok out /\ filled out.
Proof.
  induction js as [| j js IH]; simpl; intros acc Hjs Hacc; [eauto |].
  assert (Hin : In (nth j forest0 EmptyString) forest0)
    by (apply nth_In, Hjs; auto).
  destruct (where_first_total _ _ (Hknown _ Hin)) as [k Hk].
  unfold step at 1. rewrite Hk. simpl.
  apply IH; [intros; apply Hjs; auto |].
  destruct Hacc as [Hlen Hzero]. split.
  - now rewrite length_update_nth.
  - intros col hs Hcol Hout.
    rewrite nth_error_update_nth_other; [eauto |].
    intros ->. apply where_first_ok in Hk. congruence.
Qed.

Lemma dataset_row_spec :
  exists out, dataset_row dataset0 forest0 row = Ok out /\
    length out = length dataset0 /\
    forall col hs, nth_error dataset0 col = Some hs -> ~ In hs forest0 ->
                   nth_error out col = Some 0%Q.
Proof.
  destruct (dataset_row_step (seq 0 (length forest0)) (repeat 0%Q (length dataset0)))
    as (out & Hout & Hf).
  - intros j Hj. apply in_seq in Hj. lia.
  - split; [apply repeat_length |].
    intros col hs Hcol _. apply nth_error_repeat.
    apply nth_error_Some. congruence.
  - exists out. split; [exact Hout | exact Hf].
Qed.

End DatasetRow.

(** The rows of a concatenation of blocks, counted from the start of their
    block. *)
Lemma rmapM_concat_nth {A B} (f : A -> result (list B)) (len : A -> nat) :
  (forall x ys, f x = Ok ys -> length ys = len x) ->
  forall l blocks, rmapM f l = Ok blocks ->
    length (concat blocks) = list_sum (map len l) /\
    forall k x ys r y,
      nth_error l k = Some x -> f x = Ok ys -> nth_error ys r = Some y ->
      nth_error (concat blocks) (list_sum (map len (firstn k l)) + r) = Some y.
Proof.
  intros Hlen. induction l as [| x0 l IH]; simpl; intros blocks H.
  - inversion H; subst. split; [reflexivity |].
    intros [| k]; discriminate.
  - apply rbind_ok in H. destruct H as (ys0 & Hf & H).
    apply rbind_ok in H. destruct H as (blocks' & Hm & H).
    inversion H; subst. destruct (IH _ Hm) as [Hl Hn]. simpl. split.
    + rewrite length_app, Hl, (Hlen _ _ Hf). reflexivity.
    + intros [| k] x ys r y Hk Hx Hr; simpl in *.
      * inversion Hk; subst. rewrite Hf in Hx. inversion Hx; subst.
        rewrite nth_error_app1; [exact Hr |]. apply nth_error_Some. congruence.
      * rewrite nth_error_app2 by (rewrite (Hlen _ _ Hf); lia).
        rewrite (Hlen _ _ Hf).
        replace (len x0 + list_sum (map len (firstn k l)) + r - len x0)
          with (list_sum (map len (firstn k l)) + r) by lia.
        eauto.
Qed.

Lemma nr_rows_sum (forests : list (string * value_table)) :
  nr_rows forests = list_sum (map (fun fd => Spec.sampling_points (snd fd)) forests).
Proof.
  unfold nr_rows.
  assert (H : forall l n,
             fold_left (fun n (fd : string * value_table) => n + (nrows (snd fd) - 1)) l n
             = n + list_sum (map (fun fd => Spec.sampling_points (snd fd)) l)).
  { induction l as [| fd l IH]; intros n; simpl; [lia |].
    rewrite IH. unfold nrows, Spec.sampling_points. lia. }
  apply H.
Qed.

Lemma dataset_header_blocks (species : list string) c s f :
  nth_error species c = Some s -> f < 5 ->
  exists hs, nth_error (dataset_header species) (c * 5 + f) = Some hs /\
             In hs (dataset_names s).
Proof.
  intros Hc Hf. unfold dataset_header. rewrite flat_map_concat_map.
  rewrite (nth_error_concat_blocks 5 _ c f (dataset_names s)); auto.
  - destruct (nth_error (dataset_names s) f) as [hs |] eqn:Hhs.
    + exists hs. split; [reflexivity |]. eapply nth_error_In; eauto.
    + apply nth_error_None in Hhs. simpl in Hhs. lia.
  - apply Forall_forall. intros b Hb. apply in_map_iff in Hb.
    destruct Hb as (x & <- & _). reflexivity.
  - rewrite nth_error_map, Hc. reflexivity.
Qed.

Lemma length_dataset_header (species : list string) :
  length (dataset_header species) = 5 * length species.
Proof.
  unfold dataset_header. induction species as [| s l IH]; simpl; [reflexivity |].
  simpl in IH. rewrite IH. lia.
Qed.

Lemma rmapM_ok_inv {A B} (f : A -> result B) : forall l ys,
  rmapM f l = Ok ys -> forall y, In y ys -> exists x, In x l /\ f x = Ok y.
Proof.
  induction l as [| x0 l IH]; simpl; intros ys H y Hy.
  - inversion H; subst. contradiction.
  - apply rbind_ok in H. destruct H as (y0 & Hf & H).
    apply rbind_ok in H. destruct H as (ys' & Hm & H).
    inversion H; subst. destruct Hy as [<- | Hy]; [eauto |].
    destruct (IH _ Hm _ Hy) as (x & Hx & Hfx). eauto.
Qed.

Section Merge.

Variable forests : list (string * value_table).
Hypothesis Hfive : forall fd, In fd forests -> Spec.five_per_species (snd fd).

Let dataset0 := dataset_header (all_species forests).

Lemma forest_header_known fd h :
  In fd forests -> In h (header (snd fd)) -> In h dataset0.
Proof.
  intros Hfd Hh. rewrite (Hfive _ Hfd) in Hh.
  unfold dataset_header in Hh. apply in_flat_map in Hh.
  destruct Hh as (sp & Hsp & Hh).
  unfold dataset0, dataset_header. apply in_flat_map. exists sp. split; [| exact Hh].
  unfold all_species. apply in_unique_in_order, in_flat_map. eauto.
Qed.

Lemma forest_rows_spec fd :
  In fd forests ->
  exists rows, forest_rows dataset0 (snd fd) = Ok rows /\
    length rows = Spec.sampling_points (snd fd) /\
    forall r out, nth_error rows r = Some out ->
      length out = length dataset0 /\
      forall col hs, nth_error dataset0 col = Some hs -> ~ In hs (header (snd fd)) ->
                     nth_error out col = Some 0%Q.
Proof.
  intros Hfd. unfold forest_rows.
  destruct (rmapM_total (dataset_row dataset0 (header (snd fd))) (body (snd fd)))
    as [rows Hrows].
  - intros row _.
    destruct (dataset_row_spec dataset0 (header (snd fd)) row
                (fun h => forest_header_known fd h Hfd)) as (out & Hout & _).
    eauto.
  - exists rows. split; [exact Hrows |].
    destruct (rmapM_ok _ _ _ Hrows) as [Hlen Hnth].
    split; [exact Hlen |].
    intros r out Hr.
    assert (Hin : In out rows) by (eapply nth_error_In; eauto).
    destruct (rmapM_ok_inv _ _ _ Hrows _ Hin) as (row & _ & Hrow).
    destruct (dataset_row_spec dataset0 (header (snd fd)) row
                (fun h => forest_header_known fd h Hfd)) as (out' & Hout' & Hspec).
    rewrite Hrow in Hout'. inversion Hout'; subst out'. exact Hspec.
Qed.

Lemma absent_species_unnamed fd c s f hs :
  In fd forests ->
  nth_error (all_species forests) c = Some s -> f < 5 ->
  nth_error dataset0 (c * 5 + f) = Some hs ->
  ~ In s (forest_species (snd fd)) ->
  ~ In hs (header (snd fd)).
Proof.
  intros Hfd Hc Hf Hhs Habsent Hin.
  destruct (dataset_header_blocks _ _ _ _ Hc Hf) as (hs' & Hhs' & Hnames).
  unfold dataset0 in Hhs. rewrite Hhs in Hhs'. inversion Hhs'; subst hs'.
  rewrite (Hfive _ Hfd) in Hin. unfold dataset_header in Hin.
  apply in_flat_map in Hin. destruct Hin as (sp & Hsp & Hin).
  rewrite (dataset_names_inj _ _ _ Hnames Hin) in Habsent. contradiction.
Qed.

Lemma dataset_spec :
  exists ds, dataset forests = Ok ds /\
    header ds = dataset0 /\
    length (body ds) = nr_rows forests /\
    Forall (fun row => length row = length dataset0) (body ds) /\
    forall k name data,
      nth_error forests k = Some (name, data) ->
      forall r, r < Spec.sampling_points data ->
      forall c s, nth_error (all_species forests) c = Some s ->
                  ~ In s (forest_species data) ->
      forall f, f < 5 ->
        exists out,
          nth_error (body ds) (Spec.first_point forests k + r) = Some out /\
          nth_error out (c * 5 + f) = Some 0%Q.
Proof.
  unfold dataset. fold dataset0.
  destruct (rmapM_total (fun fd => forest_rows dataset0 (snd fd)) forests)
    as [blocks Hblocks].
  { intros fd Hfd. destruct (forest_rows_spec fd Hfd) as (rows & Hrows & _). eauto. }
  rewrite Hblocks. simpl. eexists. split; [reflexivity |]. simpl.
  destruct (rmapM_concat_nth
              (fun fd : string * value_table => forest_rows dataset0 (snd fd))
              (fun fd : string * value_table => Spec.sampling_points (snd fd)))
    with (l := forests) (blocks := blocks) as [Hlen Hnth]; auto.
  { intros fd ys Hys. unfold forest_rows in Hys.
    apply rmapM_ok in Hys. apply Hys. }
  split; [reflexivity |].
  split; [rewrite nr_rows_sum; exact Hlen |].
  split.
  - apply Forall_forall. intros row Hrow.
    apply in_concat in Hrow. destruct Hrow as (blk & Hblk & Hrow).
    destruct (rmapM_ok_inv _ _ _ Hblocks _ Hblk) as (fd & Hfd & Hrows).
    destruct (forest_rows_spec fd Hfd) as (rows & Hrows' & _ & Hspec).
    rewrite Hrows in Hrows'. inversion Hrows'; subst rows.
    apply In_nth_error in Hrow. destruct Hrow as [r Hr].
    apply (Hspec _ _ Hr).
  - intros k name data Hk r Hr c s Hc Habsent f Hf.
    assert (Hfd : In (name, data) forests) by (eapply nth_error_In; eauto).
    destruct (forest_rows_spec _ Hfd) as (rows & Hrows & Hl & Hspec). simpl in *.
    destruct (nth_error rows r) as [out |] eqn:Hout;
      [| apply nth_error_None in Hout; lia].
    exists out. split.
    + apply (Hnth k (name, data) rows r out Hk Hrows Hout).
    + destruct (Hspec _ _ Hout) as [Hlo Hzero].
      destruct (dataset_header_blocks _ _ _ _ Hc Hf) as (hs & Hhs & _).
      apply (Hzero _ hs Hhs).
      apply (absent_species_unnamed (name, data) c s f hs Hfd Hc Hf Hhs Habsent).
Qed.

End Merge.

(** C4. On forests with five named columns for each species, the merge
    returns a dataset whose number of data rows is the sum of the sampling
    points of the forests and whose number of columns is 5 times the number of
    species of the whole corpus; in every row that comes from a forest, the 5
    fields of every species that the forest does not have are 0. *)
Theorem C4_dataset_shape_and_zero_fill :
  forall forests,
    (forall fd, In fd forests -> Spec.five_per_species (snd fd)) ->
    exists ds,
      dataset forests = Ok ds /\
      length (body ds)
      = list_sum (map (fun fd => Spec.sampling_points (snd fd)) forests) /\
      ncols ds = 5 * length (all_species forests) /\
      Forall (fun row => length row = ncols ds) (body ds) /\
      forall k name data,
        nth_error forests k = Some (name, data) ->
        forall r, r < Spec.sampling_points data ->
        forall c s, nth_error (all_species forests) c = Some s ->
                    ~ In s (forest_species data) ->
        forall f, f < 5 ->
          exists out,
            nth_error (body ds) (Spec.first_point forests k + r) = Some out /\
            nth_error out (c * 5 + f) = Some 0%Q.
Proof.
  intros forests Hfive.
  destruct (dataset_spec forests Hfive) as (ds & Hds & Hhd & Hlen & Hrows & Hzero).
  exists ds. split; [exact Hds |].
  split; [rewrite Hlen; apply nr_rows_sum |].
  unfold ncols. rewrite Hhd, length_dataset_header.
  split; [reflexivity |].
  split; [| exact Hzero].
  rewrite <- length_dataset_header. exact Hrows.
Qed.

(** C4 on two forests: the merge of a forest with Unknown and Bükk and one
    with Unknown and Gyertyán. *)
Lemma C4_dataset_shape_and_zero_fill_witness :
  exists ds,
    dataset Samples.two_forests = Ok ds /\
    length (body ds) = 3 /\
    ncols ds = 15 /\
    Forall (fun row => length row = ncols ds) (body ds) /\
    forall k name data,
      nth_error Samples.two_forests k = Some (name, data) ->
      forall r, r < Spec.sampling_points data ->
      forall c s, nth_error ["Unknown"; "Bükk"; "Gyertyán"] c = Some s ->
                  ~ In s (forest_species data) ->
      forall f, f < 5 ->
        exists out,
          nth_error (body ds) (Spec.first_point Samples.two_forests k + r) = Some out /\
          nth_error out (c * 5 + f) = Some 0%Q.
Proof.
  apply (C4_dataset_shape_and_zero_fill Samples.two_forests).
  intros fd [<- | [<- | []]]; reflexivity.
Defined.

(** ** Normalizing the freshly browsed shoots *)

Section NormalizeRow.

Variable dataset0 : list string.

(** The effect on one row of the pass over column [c]. *)
Let pass (row : list Q) (c : nat) : list Q :=
  if contains "freshly browsed" (nth c dataset0 EmptyString)
  then normalize_cell (length dataset0) c row
  else row.

Lemma normalize_columns_rows : forall cs rows,
  fold_left (normalize_column dataset0) cs rows
  = map (fun row => fold_left pass cs row) rows.
Proof.
  induction cs as [| c cs IH]; intros rows; simpl.
  - now rewrite map_id.
  - rewrite IH. unfold normalize_column. unfold pass at 3.
    destruct (contains _ _); [| reflexivity].
    rewrite map_map. reflexivity.
Qed.

Lemma nth_update_nth_other {A} (f : A -> A) (d : A) : forall l k c,
  k <> c -> nth c (update_nth k f l) d = nth c l d.
Proof.
  induction l as [| x l IH]; intros [| k] [| c] H; simpl; auto;
    try contradiction; apply IH; lia.
Qed.

Lemma nth_update_nth_same {A} (f : A -> A) (d : A) : forall l k,
  k < length l -> nth k (update_nth k f l) d = f (nth k l d).
Proof.
  induction l as [| x l IH]; intros [| k] H; simpl in *; try lia; auto.
  apply IH. lia.
Qed.

Lemma normalize_cell_other cols c row j :
  c <> j -> nth j (normalize_cell cols c row) 0%Q = nth j row 0%Q.
Proof.
  intros H. unfold normalize_cell.
  destruct (negb _); [now apply nth_update_nth_other |].
  destruct (negb _); [now apply nth_update_nth_other | reflexivity].
Qed.

Lemma length_normalize_cell cols c row :
  length (normalize_cell cols c row) = length row.
Proof.
  unfold normalize_cell.
  destruct (negb _); [apply length_update_nth |].
  destruct (negb _); [apply length_update_nth | reflexivity].
Qed.

Lemma length_passes : forall cs row, length (fold_left pass cs row) = length row.
Proof.
  induction cs as [| c cs IH]; intros row; simpl; [reflexivity |].
  rewrite IH. unfold pass. destruct (contains _ _); [| reflexivity].
  apply length_normalize_cell.
Qed.

(** A column keeps its value through the passes over the other columns. *)
Lemma passes_elsewhere j : forall cs row,
  ~ In j cs -> nth j (fold_left pass cs row) 0%Q = nth j row 0%Q.
Proof.
  induction cs as [| c cs IH]; intros row Hj; simpl; [reflexivity |].
  rewrite IH by (intros H; apply Hj; right; exact H).
  unfold pass. destruct (contains _ _); [| reflexivity].
  apply normalize_cell_other. intros ->. apply Hj. left. reflexivity.
Qed.

(** A column whose name does not hold "freshly browsed" keeps its value. *)
Lemma passes_unnamed j :
  contains "freshly browsed" (nth j dataset0 EmptyString) = false ->
  forall cs row, nth j (fold_left pass cs row) 0%Q = nth j row 0%Q.
Proof.
  intros Hj. induction cs as [| c cs IH]; intros row; simpl; [reflexivity |].
  rewrite IH. unfold pass.
  destruct (contains _ (nth c dataset0 EmptyString)) eqn:Hc; [| reflexivity].
  apply normalize_cell_other. intros ->. congruence.
Qed.

Lemma passes_freshly_browsed j row :
  S j < length dataset0 -> length row = length dataset0 ->
  contains "freshly browsed" (nth (S j) dataset0 EmptyString) = true ->
  contains "freshly browsed" (nth j dataset0 EmptyString) = false ->
  let out := fold_left pass (seq 0 (length dataset0)) row in
  nth j out 0%Q = nth j row 0%Q /\
  nth (S j) out 0%Q
  = nth (S j) (normalize_cell (length dataset0) (S j)
                 (fold_left pass (seq 0 (S j)) row)) 0%Q /\
  nth j (fold_left pass (seq 0 (S j)) row) 0%Q = nth j row 0%Q /\
  nth (S j) (fold_left pass (seq 0 (S j)) row) 0%Q = nth (S j) row 0%Q.
Proof.
  intros Hlt Hlen Hfb Hall out. subst out.
  split; [now apply passes_unnamed |].
  split.
  - replace (length dataset0) with (S j + (1 + (length dataset0 - S j - 1))) at 1 by lia.
    rewrite seq_app, fold_left_app. rewrite seq_app, fold_left_app.
    rewrite passes_elsewhere by (intros H; apply in_seq in H; lia).
    simpl fold_left at 1. unfold pass at 1. rewrite Hfb. reflexivity.
  - split; [now apply passes_unnamed |].
    apply passes_elsewhere. intros H. apply in_seq in H. lia.
Qed.

End NormalizeRow.

(** C5. For every column named "freshly browsed" that comes right after a
    column not so named (its all shoots), and every data row: the all shoots
    value is kept; when it is not 0 the value becomes freshly browsed / all
    shoots, and this proportion times all shoots is the recorded freshly
    browsed count; when it is 0 the value becomes 0, whatever was recorded. *)
Theorem C5_normalized_freshly_browsed :
  forall (dataset : value_table) j h h0,
    nth_error (header dataset) (S j) = Some h ->
    contains "freshly browsed" h = true ->
    nth_error (header dataset) j = Some h0 ->
    contains "freshly browsed" h0 = false ->
    forall i row,
      nth_error (body dataset) i = Some row -> length row = ncols dataset ->
      exists out,
        nth_error (body (normalize_freshly_browsed dataset)) i = Some out /\
        let all_shoots := nth j row 0%Q in
        let freshly_browsed := nth (S j) row 0%Q in
        nth j out 0%Q = all_shoots /\
        (~ all_shoots == 0 ->
           nth (S j) out 0%Q = (freshly_browsed / all_shoots)%Q /\
           nth (S j) out 0%Q * all_shoots == freshly_browsed) /\
        (all_shoots == 0 -> nth (S j) out 0%Q == 0).
Proof.
  intros dataset j h h0 Hh Hfb Hh0 Hall i row Hrow Hlen.
  unfold normalize_freshly_browsed. simpl. rewrite normalize_columns_rows.
  rewrite nth_error_map, Hrow. simpl. eexists. split; [reflexivity |].
  assert (Hlt : S j < length (header dataset)) by (apply nth_error_Some; congruence).
  assert (Hn : nth (S j) (header dataset) EmptyString = h) by (now apply nth_error_nth).
  assert (Hn0 : nth j (header dataset) EmptyString = h0) by (now apply nth_error_nth).
  destruct (passes_freshly_browsed (header dataset) j row Hlt Hlen)
    as (Hkeep & Hout & Hj & HSj); try congruence.
  unfold ncols. cbv zeta. rewrite Hout. split; [exact Hkeep |].
  set (r1 := fold_left _ (seq 0 (S j)) row) in *.
  assert (Hr1 : S j < length r1).
  { unfold r1. rewrite length_passes. unfold ncols in Hlen. lia. }
  unfold normalize_cell. simpl column_before. rewrite Hj.
  destruct (Qeq_bool (nth j row 0%Q) 0) eqn:Hz; cbn [negb].
  - apply Qeq_bool_iff in Hz. split; [intros Hne; contradiction |].
    intros _. destruct (Qeq_bool (nth (S j) r1 0%Q) 0) eqn:Hf; cbn [negb].
    + now apply Qeq_bool_iff in Hf.
    + rewrite nth_update_nth_same by exact Hr1. reflexivity.
  - apply Qeq_bool_neq in Hz. split; [| intros Hc; contradiction].
    intros _. rewrite nth_update_nth_same by exact Hr1. rewrite HSj.
    split; [reflexivity |]. field. exact Hz.
Qed.

(** C5 on the forest with Unknown and Bükk: 1 of 4 shoots of Bükk browsed at
    the first point. *)
Lemma C5_normalized_freshly_browsed_witness :
  exists out,
    nth_error (body (normalize_freshly_browsed Samples.forest_a)) 0 = Some out /\
    nth 5 out 0%Q = 4%Q /\
    (~ 4 == 0 -> nth 6 out 0%Q = (1 / 4)%Q /\ nth 6 out 0%Q * 4 == 1) /\
    (4 == 0 -> nth 6 out 0%Q == 0).
Proof.
  apply (C5_normalized_freshly_browsed Samples.forest_a 5
           "Bükk freshly browsed" "Bükk all shoots"
           eq_refl eq_refl eq_refl eq_refl
           0 [0; 0; 0; 0; 0; 4; 1; 0; 1; 1]%Q eq_refl eq_refl).
Defined.

(** ** Splitting and joining column names *)

Lemma split_space_nonempty (s : string) : split_space s <> [].
Proof.
  destruct s as [| c s]; simpl; [discriminate |].
  destruct (Ascii.eqb c " "); [discriminate |].
  destruct (split_space s); discriminate.
Qed.

Lemma split_space_app (s t : string) :
  split_space (s ++ String " " t) = split_space s ++ split_space t.
Proof.
  induction s as [| c s IH]; simpl; [reflexivity |].
  destruct (Ascii.eqb c " "); rewrite IH; [reflexivity |].
  pose proof (split_space_nonempty s) as Hne.
  destruct (split_space s); [contradiction | reflexivity].
Qed.

Lemma concat_split_space (s : string) :
  String.concat " " (split_space s) = s.
Proof.
  induction s as [| c s IH]; simpl; [reflexivity |].
  pose proof (split_space_nonempty s) as Hne.
  destruct (Ascii.eqb_spec c " ") as [-> | Hc].
  - destruct (split_space s) as [| w ws]; [contradiction |].
    simpl in *. now rewrite IH.
  - destruct (split_space s) as [| w ws]; [contradiction |].
    simpl in *. destruct ws; simpl in *; now rewrite <- IH.
Qed.

(** A name followed by a field of two words splits into the name and the
    field. *)
Lemma species_and_feature (sp field w1 w2 : string) :
  split_space field = [w1; w2] ->
  species_of (sp ++ String " " field) = sp /\
  feature_of (sp ++ String " " field) = field.
Proof.
  intros Hf. unfold species_of, feature_of.
  rewrite split_space_app, Hf, length_app. simpl length.
  replace (length (split_space sp) + 2 - 2) with (length (split_space sp) + 0) by lia.
  rewrite firstn_app_2, skipn_app, Nat.add_0_r, skipn_all.
  replace (length (split_space sp) - length (split_space sp)) with 0 by lia.
  simpl firstn. simpl skipn. rewrite app_nil_r. simpl app.
  split; [apply concat_split_space |].
  rewrite <- Hf. apply concat_split_space.
Qed.

(** A header made of five names for each species gives back its species. *)
Lemma forest_species_dataset_header (species : list string) (rows : list (list Q)) :
  forest_species (mkTable (dataset_header species) rows) = species.
Proof.
  unfold forest_species, ncols. simpl header.
  rewrite length_dataset_header, Nat.mul_comm, Nat.div_mul by discriminate.
  apply nth_error_ext. intros c.
  rewrite nth_error_map, nth_error_seq.
  destruct (nth_error species c) as [s |] eqn:Hs.
  - assert (Hlt : c < length species) by (apply nth_error_Some; congruence).
    apply Nat.ltb_lt in Hlt. rewrite Hlt. simpl. f_equal.
    destruct (dataset_header_blocks _ _ _ 0 Hs) as (hs & Hhs & _); [lia |].
    rewrite Nat.add_0_r in Hhs. rewrite (nth_error_nth _ _ _ Hhs).
    unfold dataset_header in Hhs. rewrite flat_map_concat_map in Hhs.
    rewrite <- (Nat.add_0_r (c * 5)) in Hhs.
    rewrite (nth_error_concat_blocks 5 _ c 0 (dataset_names s)) in Hhs.
    + inversion Hhs; subst hs.
      apply (species_and_feature s "all shoots" "all" "shoots" eq_refl).
    + apply Forall_forall. intros b Hb. apply in_map_iff in Hb.
      destruct Hb as (x & <- & _). reflexivity.
    + rewrite nth_error_map, Hs. reflexivity.
    + lia.
  - apply nth_error_None in Hs. apply Nat.ltb_ge in Hs. rewrite Hs. reflexivity.
Qed.

(** Every matrix whose header is made of five names for each species of a list
    is accepted by the merge. *)
Lemma five_per_species_dataset_header (species : list string) (rows : list (list Q)) :
  Spec.five_per_species (mkTable (dataset_header species) rows).
Proof.
  unfold Spec.five_per_species. now rewrite forest_species_dataset_header.
Qed.

(** ** Hungarian to Latin names *)

Lemma dict_get_cases {V} (d : list (string * V)) (k : string) :
  (exists v, dict_get d k = Ok v) \/ dict_get d k = Raise (KeyError k).
Proof.
  induction d as [| [k' v] d IH]; simpl; [auto |].
  destruct (String.eqb k' k); eauto.
Qed.

Lemma rename_headers_renamed : forall dataset0,
  (forall h, In h dataset0 -> exists h', rename_header h = Ok h') ->
  exists renamed,
    rename_headers dataset0 = (renamed, None) /\
    Forall2 (fun h h' => rename_header h = Ok h') dataset0 renamed.
Proof.
  induction dataset0 as [| h rest IH]; simpl; intros Hall.
  - exists []. auto.
  - destruct (Hall h (or_introl eq_refl)) as [h' Hh']. rewrite Hh'.
    destruct IH as (renamed & Hr & Hf); [intros; apply Hall; auto |].
    rewrite Hr. exists (h' :: renamed). auto.
Qed.

Lemma rename_headers_raises : forall dataset0 h e,
  In h dataset0 -> rename_header h = Raise e ->
  exists h0 e0, In h0 dataset0 /\ rename_header h0 = Raise e0 /\
                snd (rename_headers dataset0) = Some e0.
Proof.
  induction dataset0 as [| h1 rest IH]; simpl; intros h e Hin Hh; [contradiction |].
  destruct (rename_header h1) as [h1' | e1] eqn:H1.
  - destruct Hin as [-> | Hin]; [congruence |].
    destruct (IH _ _ Hin Hh) as (h0 & e0 & Hin0 & Hh0 & Hs).
    exists h0, e0. destruct (rename_headers rest). simpl in *. auto.
  - exists h1, e1. simpl. auto.
Qed.

Lemma rename_header_raise_inv h e :
  rename_header h = Raise e ->
  e = KeyError (species_of h) /\ species_of h <> "Unknown" /\
  forall latin, dict_get names_dict (species_of h) <> Ok latin.
Proof.
  unfold rename_header.
  destruct (String.eqb_spec (species_of h) "Unknown") as [Heq | Hne]; cbn [negb];
    [discriminate |].
  destruct (dict_get_cases names_dict (species_of h)) as [[v Hv] | Hr];
    [rewrite Hv; discriminate |].
  rewrite Hr. cbn [rbind]. intros H. inversion H; subst.
  repeat split; auto. congruence.
Qed.

(** C6. A header with a species name that is not 'Unknown' and has no entry in
    [names_dict] makes the renaming raise the [KeyError] of such a name, which
    ends the cell.  When every name is 'Unknown' or has an entry, the renaming
    ends without an exception: the columns of 'Unknown' keep their name and
    the others get the Latin name, a space and the field they had; a column
    named by a species and a field of two words keeps exactly that field. *)
Theorem C6_renaming_to_latin :
  (forall dataset0 h,
     In h dataset0 -> species_of h <> "Unknown" ->
     (forall latin, dict_get names_dict (species_of h) <> Ok latin) ->
     exists sp,
       snd (rename_headers dataset0) = Some (KeyError sp) /\
       sp <> "Unknown" /\
       forall latin, dict_get names_dict sp <> Ok latin) /\
  (forall dataset0,
     (forall h, In h dataset0 ->
        species_of h = "Unknown" \/
        exists latin, dict_get names_dict (species_of h) = Ok latin) ->
     exists renamed,
       rename_headers dataset0 = (renamed, None) /\
       length renamed = length dataset0 /\
       forall j h, nth_error dataset0 j = Some h ->
         (species_of h = "Unknown" -> nth_error renamed j = Some h) /\
         (forall latin,
            species_of h <> "Unknown" ->
            dict_get names_dict (species_of h) = Ok latin ->
            nth_error renamed j = Some (latin ++ " " ++ feature_of h)%string)) /\
  (forall sp field w1 w2 latin,
     split_space field = [w1; w2] -> sp <> "Unknown" ->
     dict_get names_dict sp = Ok latin ->
     rename_header (sp ++ " " ++ field) = Ok (latin ++ " " ++ field)%string).
Proof.
  split; [| split].
  - intros dataset0 h Hin Hne Hmissing.
    assert (Hr : rename_header h = Raise (KeyError (species_of h))).
    { unfold rename_header.
      destruct (String.eqb_spec (species_of h) "Unknown"); [contradiction |].
      cbn [negb].
      destruct (dict_get_cases names_dict (species_of h)) as [[v Hv] | Hr].
      - exfalso. apply (Hmissing v Hv).
      - rewrite Hr. reflexivity. }
    destruct (rename_headers_raises _ _ _ Hin Hr) as (h0 & e0 & _ & Hh0 & Hs).
    apply rename_header_raise_inv in Hh0. destruct Hh0 as (-> & Hne0 & Hm0).
    exists (species_of h0). auto.
  - intros dataset0 Hall.
    destruct (rename_headers_renamed dataset0) as (renamed & Hr & Hf).
    { intros h Hin. unfold rename_header.
      destruct (Hall h Hin) as [Hu | [latin Hl]].
      - rewrite Hu. cbn. eauto.
      - rewrite Hl. destruct (negb _); cbn [rbind]; eauto. }
    exists renamed. split; [exact Hr |].
    split; [symmetry; eapply Forall2_length; eauto |].
    intros j h Hj.
    assert (Hj' : exists h', nth_error renamed j = Some h' /\ rename_header h = Ok h').
    { clear -Hf Hj. revert j Hj.
      induction Hf as [| x y l l' Hxy Hf IH]; intros [| j] Hj; simpl in *;
        try discriminate.
      - inversion Hj; subst. eauto.
      - eauto. }
    destruct Hj' as (h' & Hh' & Hren). unfold rename_header in Hren. split.
    + intros Hu. rewrite Hu in Hren. cbn in Hren. congruence.
    + intros latin Hne Hl.
      destruct (String.eqb_spec (species_of h) "Unknown"); [contradiction |].
      rewrite Hl in Hren. cbn [negb rbind] in Hren. congruence.
  - intros sp field w1 w2 latin Hfield Hne Hl. unfold rename_header.
    destruct (species_and_feature sp field w1 w2 Hfield) as [Hs Hf].
    change (sp ++ " " ++ field)%string with (sp ++ String " " field)%string.
    rewrite Hs, Hf, Hl.
    destruct (String.eqb_spec sp "Unknown"); [contradiction | reflexivity].
Qed.

(** C6 on three headers: one with a name that [names_dict] lacks, one with
    names that it has, and one column of a species and a field. *)
Lemma C6_renaming_to_latin_witness :
  (exists sp,
     snd (rename_headers Samples.header_with_stranger) = Some (KeyError sp) /\
     sp <> "Unknown" /\
     forall latin, dict_get names_dict sp <> Ok latin) /\
  (exists renamed,
     rename_headers Samples.hungarian_header = (renamed, None) /\
     length renamed = 4 /\
     forall j h, nth_error Samples.hungarian_header j = Some h ->
       (species_of h = "Unknown" -> nth_error renamed j = Some h) /\
       (forall latin,
          species_of h <> "Unknown" ->
          dict_get names_dict (species_of h) = Ok latin ->
          nth_error renamed j = Some (latin ++ " " ++ feature_of h)%string)) /\
  rename_header "Bükk supply percentage" = Ok "Fagus sylvatica supply percentage".
Proof.
  split; [| split].
  - apply (proj1 C6_renaming_to_latin Samples.header_with_stranger "Nyír all shoots").
    + right. left. reflexivity.
    + vm_compute. discriminate.
    + intros latin. vm_compute. discriminate.
  - apply (proj1 (proj2 C6_renaming_to_latin) Samples.hungarian_header).
    intros h [<- | [<- | [<- | [<- | []]]]];
      first [left; reflexivity | right; eexists; reflexivity].
  - apply (proj2 (proj2 C6_renaming_to_latin)
             "Bükk" "supply percentage" "supply" "percentage" "Fagus sylvatica").
    + reflexivity.
    + vm_compute. discriminate.
    + reflexivity.
Defined.

(** ** The forecast notebook *)

Import BrowsingForecast.

Section ForecastNotebook.

Open Scope Q_scope.

(** C8, at ten sampling points where unknown species are offered at eight
    points, the first one included: the loop starts at the second point, so
    the notebook computes the frequency 7/10 and the relative proportion of
    supply 7/9, where the share of the points with supply is 8/10 and the
    share of the shoots is 8/10, the values that the data preparation computes
    on the same points. *)
Theorem C8_first_point_not_counted :
  exists f_values rps_values,
    properties_table (body Samples.ten_points) 27 = Ok (f_values, rps_values) /\
    Qred (nth 0 f_values 0) = 7 # 10 /\
    Qred (Spec.frequency_as_specified (body Samples.ten_points) 0) = 4 # 5 /\
    Qred (nth 0 rps_values 0) = 7 # 9 /\
    Qred (Spec.rps_as_specified (body Samples.ten_points) 0) = 4 # 5 /\
    exists d,
      distribution_of Samples.ten_points_prepared = Ok d /\
      map Qred (coverages d) = [4 # 5; 1 # 10] /\
      map Qred (supplyPerces d) = [4 # 5; 1 # 5].
Proof.
  eexists. eexists. split; [vm_compute; reflexivity |].
  repeat (split; [vm_compute; reflexivity |]).
  eexists. split; [vm_compute; reflexivity |].
  split; vm_compute; reflexivity.
Qed.

(** What [adjust_predictions] does on one row, given the predictors [X]. *)
Lemma adjust_row_ok noSupply y_row X_row out :
  adjust_row noSupply y_row X_row = Ok out ->
  forall j y, nth_error y_row j = Some y ->
    exists x, nth_error X_row (j * 3) = Some x /\
      nth_error out j
      = Some (if Qeq_bool x 0 then noSupply
              else if negb (Qle_bool 0 y) then 0%Q else y).
Proof.
  unfold adjust_row. intros H j y Hy.
  destruct (rmapM_ok _ _ _ H) as [_ Hnth].
  destruct (Hnth j ((0 + j)%nat, y) (nth_error_enumerate_from _ 0%nat _ _ Hy))
    as (o & Ho & Hout).
  simpl in Ho. unfold index in Ho.
  destruct (nth_error X_row (j * 3)) as [x |]; simpl in Ho; [| discriminate].
  inversion Ho; subst. eauto.
Qed.

(** With two sections, a section whose value in the TS column is 0 has no
    weight: the forest estimate is the estimate of the other section. *)
Lemma forest_estimate_two_sections (r0 r1 e0 e1 : list Q) (sp : nat) :
  nth (sp * 3) r0 0 == 0 -> ~ nth (sp * 3) r1 0 == 0 ->
  forest_estimate [r0; r1] [e0; e1] sp == nth sp e1 0.
Proof.
  intros H0 H1. unfold forest_estimate, section_contributions, column, q_sum, enumerate_from.
  cbn [map fold_left length seq combine nth].
  set (x0 := nth (sp * 3) r0 0) in *. set (x1 := nth (sp * 3) r1 0) in *.
  assert (Ht : 0 + x0 + x1 == x1) by (rewrite H0; ring).
  destruct (Qeq_bool (0 + x0 + x1) 0) eqn:Hz; cbn [negb].
  - apply Qeq_bool_iff in Hz. rewrite Ht in Hz. contradiction.
  - rewrite Ht, H0. field. exact H1.
Qed.

Ltac run_forecast :=
  unfold browsing_forecast;
  match goal with
  | |- context [load_dataset ?t] =>
      let Hload := fresh "Hload" in
      destruct (load_dataset t) as [[data0 data] | e] eqn:Hload;
      vm_compute in Hload; [| discriminate Hload];
      injection Hload as <- <-
  end;
  cbn [rbind fst snd];
  match goal with
  | |- context [adjust_predictions ?y ?X ?v] =>
      let Hest := fresh "Hest" in
      destruct (adjust_predictions y X v) as [est | e] eqn:Hest;
      vm_compute in Hest; [| discriminate Hest];
      injection Hest as <-
  end;
  cbn [rbind]; eexists; split; [reflexivity |];
  cbn [fc_sections fc_data fc_section_estimates fc_forest_estimates].

(** C9, at ten sampling points in two sections with 3 and 5 shoots of unknown
    species: the adjustment reads the TS column after [normalize_TS], where the
    section with the fewest shoots is 0, so the estimate of the first section
    is the no-supply value whatever the regressors predict, although 3 shoots
    are offered there. *)
Theorem C9_supplied_section_gets_no_supply_value :
  forall models : regressors,
    exists fc,
      browsing_forecast models Samples.ten_points = Ok fc /\
      Qred (nth 0 (nth 0 (fc_sections fc) []) 0) = 3 /\
      Qred (nth 0 (nth 0 (fc_data fc) []) 0) = 0 /\
      nth 0 (nth 0 (fc_section_estimates fc) []) 0 = noSupply_value.
Proof.
  intros models. run_forecast.
  repeat split; vm_compute; reflexivity.
Qed.

(** C10, at the same ten points: the weights of the two sections are 0 and 1,
    taken from the normalized TS column, where the shoots of the sections over
    the shoots of the forest are 3/8 and 5/8; the forecast is the estimate of
    the second section alone.  At five points in one section with 3 shoots,
    the normalized TS is 0, so every section estimate and the forecast of
    every species are the no-supply value and no weight is 1. *)
Theorem C10_weights_from_normalized_shoots :
  (forall models : regressors,
     exists fc,
       browsing_forecast models Samples.ten_points = Ok fc /\
       map Qred (column 0 (fc_sections fc)) = [3; 5] /\
       map Qred (section_contributions (fc_data fc) 0 (q_sum (column 0 (fc_data fc))))
       = [0; 1] /\
       map Qred (Spec.contributions_as_specified (fc_sections fc) 0)
       = [3 # 8; 5 # 8] /\
       nth 0 (fc_forest_estimates fc) 0
       == nth 0 (nth 1 (fc_section_estimates fc) []) 0) /\
  (forall models : regressors,
     exists fc,
       browsing_forecast models Samples.five_points = Ok fc /\
       map Qred (column 0 (fc_sections fc)) = [3] /\
       map Qred (Spec.contributions_as_specified (fc_sections fc) 0) = [1] /\
       map Qred (column 0 (fc_data fc)) = [0] /\
       fc_section_estimates fc = [repeat noSupply_value 27] /\
       fc_forest_estimates fc = repeat noSupply_value 27).
Proof.
  split; intros models; run_forecast.
  - split; [vm_compute; reflexivity |].
    split; [vm_compute; reflexivity |].
    split; [vm_compute; reflexivity |].
    cbn [forest_estimates seq map nth].
    apply forest_estimate_two_sections; vm_compute; [reflexivity | discriminate].
  - repeat split; vm_compute; reflexivity.
Qed.

End ForecastNotebook.

(** * Further properties *)

Import Reading Enriching Finalizing.

(** ** [aggregate_data]: shape, and what [check_data] finds in it *)

Lemma aggregate_row_length species nr_species ir lg out :
  aggregate_row species nr_species ir = (lg, Ok out) ->
  length out = 3 * nr_species.
Proof.
  destruct ir as [i row]. unfold aggregate_row. intros H.
  apply lbind_ok in H. destruct H as (l1 & blocks & l2 & Hm & H & ->).
  inversion H; subst.
  destruct (lmapM_ok _ _ _ _ Hm) as [Hlen Hnth].
  rewrite length_seq in Hlen. rewrite <- Hlen. clear Hlen.
  assert (Hall : Forall (fun b => length b = 3) blocks).
  { apply Forall_forall. intros blk Hin.
    apply In_nth_error in Hin. destruct Hin as [n Hn].
    assert (Hn' : n < length (seq 0 nr_species)).
    { destruct (lmapM_ok _ _ _ _ Hm) as [Hl _]. rewrite <- Hl.
      apply nth_error_Some. congruence. }
    destruct (nth_error (seq 0 nr_species) n) as [x |] eqn:Hx;
      [| apply nth_error_None in Hx; lia].
    destruct (Hnth _ _ Hx) as (lgx & y & Hfx & Hy & _).
    rewrite Hn in Hy. inversion Hy; subst.
    apply aggregate_species_ok in Hfx. destruct Hfx as (old & _ & -> & _).
    reflexivity. }
  clear -Hall. induction Hall as [| b l Hb _ IH]; simpl; [reflexivity |].
  rewrite length_app, IH, Hb. lia.
Qed.

Lemma aggregated_header_length species nr_species hd :
  aggregated_header species nr_species = Ok hd -> length hd = 3 * nr_species.
Proof.
  unfold aggregated_header.
  destruct (length species <=? nr_species) eqn:Hle; [| discriminate].
  apply Nat.leb_le in Hle. intros H. inversion H; subst.
  rewrite length_app, repeat_length.
  assert (Hf : length (flat_map aggregated_names species) = 3 * length species).
  { clear. induction species as [| s l IH]; simpl; [reflexivity |].
    simpl in IH. rewrite IH. lia. }
  rewrite Hf. lia.
Qed.

Lemma aggregate_data_widths data lg agg :
  aggregate_data data = (lg, Ok agg) ->
  ncols agg = 3 * (raw_ncols data / 9) /\
  Forall (fun row => length row = 3 * (raw_ncols data / 9)) (body agg).
Proof.
  intros H. unfold aggregate_data in H.
  apply lbind_ok in H. destruct H as (l1 & hd & l2 & Hh & H & ->).
  apply lbind_ok in H. destruct H as (l3 & rows & l4 & Hm & H & ->).
  inversion H; subst. unfold lift in Hh. inversion Hh; subst.
  split.
  - unfold ncols. simpl. eapply aggregated_header_length; eauto.
  - simpl. apply Forall_forall. intros out Hin.
    apply In_nth_error in Hin. destruct Hin as [k Hk].
    destruct (lmapM_ok _ _ _ _ Hm) as [Hlen Hnth].
    assert (Hk' : k < length (enumerate_from 1 (sheet_counts data))).
    { rewrite <- Hlen. apply nth_error_Some. congruence. }
    destruct (nth_error (enumerate_from 1 (sheet_counts data)) k) as [ir |] eqn:Hir;
      [| apply nth_error_None in Hir; lia].
    destruct (Hnth _ _ Hir) as (lgx & y & Hfx & Hy & _).
    rewrite Hk in Hy. inversion Hy; subst.
    eapply aggregate_row_length; eauto.
Qed.

(** X1. The matrix that [aggregate_data] returns has two rows less than the
    raw array and three columns for each block of nine columns, in row 0 and
    in every data row. *)
Theorem X1_aggregate_data_shape :
  forall data lg agg,
    aggregate_data data = (lg, Ok agg) ->
    nrows agg = raw_nrows data - 2 /\
    ncols agg = 3 * (raw_ncols data / 9) /\
    Forall (fun row => length row = 3 * (raw_ncols data / 9)) (body agg).
Proof.
  intros data lg agg H. split.
  - unfold nrows, raw_nrows. rewrite (aggregate_data_length _ _ _ H). lia.
  - exact (aggregate_data_widths data lg agg H).
Qed.

Lemma X1_aggregate_data_shape_witness :
  nrows (mkTable (aggregated_names "Bükk" ++ aggregated_names "Gyertyán")
                 [[5; 3; 1; 5; 2; 2]%Z; [4; 2; 0; 0; 0; 0]%Z]) = 5 - 2 /\
  ncols (mkTable (aggregated_names "Bükk" ++ aggregated_names "Gyertyán")
                 [[5; 3; 1; 5; 2; 2]%Z; [4; 2; 0; 0; 0; 0]%Z]) = 3 * 2 /\
  Forall (fun row => length row = 3 * 2) [[5; 3; 1; 5; 2; 2]%Z; [4; 2; 0; 0; 0; 0]%Z].
Proof.
  apply (X1_aggregate_data_shape Samples.two_species_sheet [LogCorrection "Bükk" 1 2 3]).
  reflexivity.
Defined.

(** In a matrix made from counts, all shoots is at least freshly browsed in
    every row. *)
Lemma aggregated_rows_ordered data lg agg :
  aggregate_data data = (lg, Ok agg) ->
  Forall (Forall (fun z => 0 <= z)%Z) (sheet_counts data) ->
  forall out j,
    In out (body agg) -> j < raw_ncols data / 9 ->
    exists a f,
      nth_error out (j * 3) = Some a /\ nth_error out (j * 3 + 1) = Some f /\
      (f <= a)%Z.
Proof.
  intros H Hpos out j Hin Hj.
  apply In_nth_error in Hin. destruct Hin as [i Hout].
  assert (Hi : i < length (sheet_counts data)).
  { rewrite <- (aggregate_data_length _ _ _ H). apply nth_error_Some. congruence. }
  destruct (nth_error (sheet_counts data) i) as [row |] eqn:Hrow;
    [| apply nth_error_None in Hrow; lia].
  destruct (aggregate_data_cell _ _ _ H _ _ _ Hrow Hj) as (out' & Hout' & Hall & Hfresh).
  rewrite Hout in Hout'. inversion Hout'; subst out'.
  eexists _, _. split; [exact Hall |]. split; [exact Hfresh |].
  assert (Hrowpos : Forall (fun z => 0 <= z)%Z row).
  { apply nth_error_In in Hrow. eapply Forall_forall in Hpos; eauto. }
  pose proof (np_sum_nonneg _ (Forall_slice _ (j * 9) (j * 9 + 4) _ Hrowpos)) as Hs.
  destruct (_ <? _)%Z eqn:Hlt.
  - lia.
  - apply Z.ltb_ge in Hlt. lia.
Qed.

Lemma print_each_nothing {A P} (f : A -> result (list P)) : forall l,
  (forall x, In x l -> f x = Ok []) -> print_each f l = ([], None).
Proof.
  induction l as [| x l IH]; simpl; intros H; [reflexivity |].
  rewrite (H x (or_introl eq_refl)).
  rewrite IH by (intros; apply H; auto). reflexivity.
Qed.

(** X2. [check_data], called with 3 properties for each species on a matrix
    that [aggregate_data] made from counts, prints nothing and does not
    raise: the correction leaves no record for it to report. *)
Theorem X2_check_data_after_aggregate_data :
  forall data lg agg file_name,
    aggregate_data data = (lg, Ok agg) ->
    Forall (Forall (fun z => 0 <= z)%Z) (sheet_counts data) ->
    check_data agg file_name 3 = ([], None).
Proof.
  intros data lg agg file_name H Hpos.
  destruct (aggregate_data_widths data lg agg H) as (Hcols & Hrows).
  unfold check_data. simpl (3 =? 0).
  apply print_each_nothing. intros [[i out] j] Hin.
  apply in_flat_map in Hin. destruct Hin as ([i' out'] & Hir & Hin).
  apply in_map_iff in Hin. destruct Hin as (j' & Heq & Hj').
  simpl in Heq. inversion Heq; subst. apply in_seq in Hj'.
  rewrite Hcols, Nat.mul_comm, Nat.div_mul in Hj' by discriminate.
  assert (Hout : In out (body agg)).
  { apply In_nth_error in Hir. destruct Hir as [k Hk].
    apply nth_error_enumerate_from_inv in Hk. destruct Hk as [_ Hk].
    eapply nth_error_In; eauto. }
  destruct (aggregated_rows_ordered _ _ _ H Hpos out j Hout) as (a & f & Ha & Hf & Hle);
    [lia |].
  unfold check_cell, index. rewrite Ha, Hf. simpl.
  destruct (a <? f)%Z eqn:Hlt; [apply Z.ltb_lt in Hlt; lia | reflexivity].
Qed.

Lemma X2_check_data_after_aggregate_data_witness :
  check_data (mkTable (aggregated_names "Bükk" ++ aggregated_names "Gyertyán")
                      [[5; 3; 1; 5; 2; 2]%Z; [4; 2; 0; 0; 0; 0]%Z])
             "Recsk 1 vonal.xlsx" 3 = ([], None).
Proof.
  apply (X2_check_data_after_aggregate_data
           Samples.two_species_sheet [LogCorrection "Bükk" 1 2 3]).
  - reflexivity.
  - repeat constructor; vm_compute; discriminate.
Defined.

(** ** [combine_forest] *)

Lemma combine_loop {H V} : forall (ps : list (table H V)) (c : table H V),
  Forall (fun a => ncols a = ncols c) ps ->
  rfold_left (fun combined array =>
                if ncols array =? ncols combined
                then Ok (mkTable (header combined) (body combined ++ body array))
                else Raise ValueError)
             ps c
  = Ok (mkTable (header c) (body c ++ flat_map body ps)).
Proof.
  induction ps as [| a ps IH]; intros c Hall; simpl.
  - rewrite app_nil_r. destruct c; reflexivity.
  - inversion Hall as [| ? ? Ha Hps]; subst.
    rewrite Ha, Nat.eqb_refl. simpl. rewrite IH by exact Hps.
    simpl. now rewrite app_assoc.
Qed.

Lemma combine_loop_raises {H V} : forall (ps : list (table H V)) (c : table H V),
  Exists (fun a => ncols a <> ncols c) ps ->
  rfold_left (fun combined array =>
                if ncols array =? ncols combined
                then Ok (mkTable (header combined) (body combined ++ body array))
                else Raise ValueError)
             ps c
  = Raise ValueError.
Proof.
  induction ps as [| a ps IH]; intros c Hex; simpl.
  - inversion Hex.
  - destruct (Nat.eqb_spec (ncols a) (ncols c)) as [Heq | Hne]; [| reflexivity].
    simpl. apply IH. inversion Hex as [? ? Hbad | ? ? Hbad]; subst.
    + contradiction.
    + exact Hbad.
Qed.

(** X3. [combine_forest] raises [IndexError] on an empty list of paths and
    [ValueError] when a path differs from the first one in its number of
    columns.  In every other case it returns the header of the first path over
    the data rows of all the paths in their order; the headers of the other
    paths are not read, so paths that name different species are combined all
    the same. *)
Theorem X3_combine_forest :
  forall (H V : Type),
    @combine_forest H V [] = Raise IndexError /\
    (forall (p : table H V) ps,
       Forall (fun a => ncols a = ncols p) ps ->
       combine_forest (p :: ps) = Ok (mkTable (header p) (body p ++ flat_map body ps))) /\
    (forall (p : table H V) ps,
       Exists (fun a => ncols a <> ncols p) ps ->
       combine_forest (p :: ps) = Raise ValueError).
Proof.
  intros H V. split; [reflexivity |]. split; intros p ps Hps.
  - unfold combine_forest. simpl. now apply combine_loop.
  - unfold combine_forest. simpl. now apply combine_loop_raises.
Qed.

Lemma X3_combine_forest_witness :
  combine_forest [Cases.path_a; Cases.path_b; Cases.path_c]
  = Ok (mkTable ["all"; "fresh"] [[4; 1]%Z; [2; 0]%Z; [7; 7]%Z]) /\
  combine_forest [Cases.path_a; Cases.path_b; Cases.path_wide] = Raise ValueError.
Proof.
  split.
  - apply (proj1 (proj2 (X3_combine_forest string Z)) Cases.path_a
                 [Cases.path_b; Cases.path_c]).
    repeat constructor.
  - apply (proj2 (proj2 (X3_combine_forest string Z)) Cases.path_a
                 [Cases.path_b; Cases.path_wide]).
    right. left. vm_compute. discriminate.
Defined.

(** ** The cell that reads the forests *)

Lemma try_file_loads_quiet (f : sheet_file) :
  Spec.loads f = true -> snd (fst (try_file f)) = [].
Proof.
  unfold Spec.loads, try_file.
  destruct (endswith (file_name f) "xlsx"); [| discriminate].
  destruct ((log_append (LogFile (file_name f));;;
             data <- lift (file_read f);; aggregate_data data)%logged) as [lg [t | e]];
    simpl; [reflexivity | discriminate].
Qed.

Lemma try_files_loads_quiet : forall fs,
  snd (fst (try_files (filter Spec.loads fs))) = [].
Proof.
  induction fs as [| f fs IH]; [reflexivity |].
  simpl. destruct (Spec.loads f) eqn:Hf; [| exact IH].
  simpl. pose proof (try_file_loads_quiet f Hf) as Hq.
  destruct (try_file f) as [[lg1 w1] p1].
  destruct (try_files (filter Spec.loads fs)) as [[lg2 w2] p2].
  simpl in *. subst. reflexivity.
Qed.

Lemma read_forests_from_quiet : forall root st,
  warnings (read_forests_from st (map Spec.without_failing root)) = warnings st.
Proof.
  induction root as [| d root IH]; intros st; simpl; [reflexivity |].
  destruct (is_dir d); [| apply IH].
  pose proof (try_files_loads_quiet (folder_files d)) as Hq.
  destruct (try_files (filter Spec.loads (folder_files d))) as [[lg w] paths].
  simpl in Hq. subst w.
  destruct (combine_forest paths) as [combined | e].
  - rewrite IH. simpl. apply app_nil_r.
  - simpl. apply app_nil_r.
Qed.

(** X4. The sheets that fail to load are isolated from the rest of the run:
    the dictionary [forests] and the exception that ends the cell, if any, are
    those of the run on the folders without these sheets, and that run issues
    no warning. *)
Theorem X4_failing_sheets_isolated :
  forall root : list dir_entry,
    forests (read_forests root)
    = forests (read_forests (map Spec.without_failing root)) /\
    raised (read_forests root)
    = raised (read_forests (map Spec.without_failing root)) /\
    warnings (read_forests (map Spec.without_failing root)) = [].
Proof.
  intros root.
  destruct (read_forests_from_isolated root (mkReading [] [] [] None)
              (mkReading [] [] [] None) eq_refl eq_refl) as [Hf Hr].
  split; [exact Hf |]. split; [exact Hr |].
  apply read_forests_from_quiet.
Qed.

(** ** Column names, split and joined *)

Lemma string_append_assoc (a b c : string) :
  ((a ++ b) ++ c)%string = (a ++ (b ++ c))%string.
Proof.
  induction a as [| x a IH]; simpl; [reflexivity | now rewrite IH].
Qed.

Lemma concat_app (sep : string) : forall l1 l2 : list string,
  l1 <> [] -> l2 <> [] ->
  String.concat sep (l1 ++ l2)
  = (String.concat sep l1 ++ sep ++ String.concat sep l2)%string.
Proof.
  induction l1 as [| x l1 IH]; intros l2 H1 H2; [contradiction |].
  destruct l1 as [| y l1].
  - simpl. destruct l2; [contradiction | reflexivity].
  - change ((x :: y :: l1) ++ l2) with (x :: ((y :: l1) ++ l2)).
    change (String.concat sep (x :: (y :: l1) ++ l2))
      with (x ++ sep ++ String.concat sep ((y :: l1) ++ l2))%string.
    rewrite IH by (auto; discriminate).
    change (String.concat sep (x :: y :: l1))
      with (x ++ sep ++ String.concat sep (y :: l1))%string.
    now rewrite !string_append_assoc.
Qed.

(** X5. The name of a column decodes to what it was made from: a name of at
    least three words is its species, a space and its field; and each of the
    five names that the cells give to the columns of a species, whatever
    spaces the species has in its name, has that species as its species. *)
Theorem X5_column_names_decode :
  (forall h,
     3 <= length (split_space h) ->
     (species_of h ++ " " ++ feature_of h)%string = h) /\
  (forall sp h, In h (dataset_names sp) -> species_of h = sp).
Proof.
  split.
  - intros h Hlen. unfold species_of, feature_of.
    set (parts := split_space h) in *.
    rewrite <- concat_app.
    + rewrite firstn_skipn. apply concat_split_space.
    + intros Hnil. apply (f_equal (@length string)) in Hnil.
      rewrite length_firstn in Hnil. simpl in Hnil. lia.
    + intros Hnil. apply (f_equal (@length string)) in Hnil.
      rewrite length_skipn in Hnil. simpl in Hnil. lia.
  - intros sp h Hin. unfold dataset_names in Hin. simpl in Hin.
    destruct Hin as [<- | [<- | [<- | [<- | [<- | []]]]]].
    + apply (species_and_feature sp "all shoots" "all" "shoots" eq_refl).
    + apply (species_and_feature sp "freshly browsed" "freshly" "browsed" eq_refl).
    + apply (species_and_feature sp "old browsed" "old" "browsed" eq_refl).
    + apply (species_and_feature sp "forest coverage" "forest" "coverage" eq_refl).
    + apply (species_and_feature sp "supply percentage" "supply" "percentage" eq_refl).
Qed.

Lemma X5_column_names_decode_witness :
  (species_of "Kocsánytalan tölgy freshly browsed" ++ " "
   ++ feature_of "Kocsánytalan tölgy freshly browsed")%string
  = "Kocsánytalan tölgy freshly browsed" /\
  species_of "Kocsánytalan tölgy forest coverage" = "Kocsánytalan tölgy".
Proof.
  split.
  - apply (proj1 X5_column_names_decode). vm_compute. lia.
  - apply (proj2 X5_column_names_decode "Kocsánytalan tölgy").
    right. right. right. left. reflexivity.
Defined.

(** ** The species of the whole dataset *)

Lemma NoDup_unique_in_order : forall l, NoDup (unique_in_order l).
Proof.
  induction l as [| x l IH]; simpl; constructor.
  - intros Hin. apply filter_In in Hin. destruct Hin as [_ Hx].
    rewrite String.eqb_refl in Hx. discriminate.
  - now apply NoDup_filter.
Qed.

Lemma unique_in_order_app : forall l1 l2,
  exists more, unique_in_order (l1 ++ l2) = unique_in_order l1 ++ more.
Proof.
  induction l1 as [| x l1 IH]; intros l2; simpl.
  - eauto.
  - destruct (IH l2) as [more Hmore]. rewrite Hmore, filter_app. eauto.
Qed.

(** X6. The list of the species of the dataset has no repetition, holds
    exactly the species of the forests, and starts with the species of the
    first forest in their order. *)
Theorem X6_all_species :
  forall forests : list (string * value_table),
    NoDup (all_species forests) /\
    (forall s, In s (all_species forests) <->
               exists fd, In fd forests /\ In s (forest_species (snd fd))) /\
    (forall fd rest,
       forests = fd :: rest ->
       exists more,
         all_species forests = unique_in_order (forest_species (snd fd)) ++ more).
Proof.
  intros forests. unfold all_species. split; [apply NoDup_unique_in_order |]. split.
  - intros s. rewrite in_unique_in_order, in_flat_map. reflexivity.
  - intros fd rest ->. simpl. apply unique_in_order_app.
Qed.

Lemma X6_all_species_witness :
  exists more,
    all_species Samples.two_forests
    = unique_in_order (forest_species Samples.forest_a) ++ more.
Proof.
  apply (proj2 (proj2 (X6_all_species Samples.two_forests))
           ("Recsk", Samples.forest_a) [("Mátra-Észak", Samples.forest_b)]).
  reflexivity.
Defined.

(** ** The values that the merge copies *)

Lemma nth_error_update_nth_same {A} (f : A -> A) : forall l k x,
  nth_error l k = Some x -> nth_error (update_nth k f l) k = Some (f x).
Proof.
  induction l as [| y l IH]; intros [| k] x H; simpl in *; try discriminate.
  - inversion H; subst. reflexivity.
  - now apply IH.
Qed.

Section DatasetRowCopies.


Variables (dataset0 forest0 : list string) (row : list Q).
Hypothesis Hknown : forall h, In h forest0 -> In h dataset0.
Hypothesis Hdistinct : NoDup forest0.

Let step (acc : list Q) (j : nat) : result (list Q) :=
  rbind (where_first dataset0 (nth j forest0 EmptyString)) (fun dataset_col =>
    Ok (update_nth dataset_col (fun _ => nth j row 0%Q) acc)).

Lemma dataset_row_copies_step : forall js acc,
  NoDup js -> (forall j, In j js -> j < length forest0) ->
  length acc = length dataset0 ->
  exists out,
    rfold_left step js acc = Ok out /\
    length out = length dataset0 /\
    (forall j, In j js ->
       exists c, where_first dataset0 (nth j forest0 EmptyString) = Ok c /\
                 nth_error out c = Some (nth j row 0%Q)) /\
    (forall c, (forall j, In j js ->
                  where_first dataset0 (nth j forest0 EmptyString) <> Ok c) ->
               nth_error out c = nth_error acc c).
Proof.
  induction js as [| j js IH]; intros acc Hnd Hjs Hlen; simpl.
  - exists acc. repeat split; auto. intros j [].
  - inversion Hnd as [| ? ? Hj Hnd']; subst.
    assert (Hin : In (nth j forest0 EmptyString) forest0)
      by (apply nth_In, Hjs; left; reflexivity).
    destruct (where_first_total _ _ (Hknown _ Hin)) as [k Hk].
    unfold step at 1. rewrite Hk. simpl.
    destruct (IH (update_nth k (fun _ => nth j row 0%Q) acc) Hnd')
      as (out & Hout & Hlo & Hcopied & Hkept).
    { intros j' Hj'. apply Hjs. right. exact Hj'. }
    { now rewrite length_update_nth. }
    exists out. split; [exact Hout |]. split; [exact Hlo |]. split.
    + intros j' [<- | Hj'].
      * exists k. split; [exact Hk |].
        rewrite Hkept.
        -- assert (Hkl : k < length acc).
           { rewrite Hlen. apply nth_error_Some.
             rewrite (where_first_ok _ _ _ Hk). discriminate. }
           destruct (nth_error acc k) as [x |] eqn:Hx;
             [| apply nth_error_None in Hx; lia].
           apply (nth_error_update_nth_same _ _ _ _ Hx).
        -- intros j' Hj' Hk'.
           apply where_first_ok in Hk. apply where_first_ok in Hk'.
           rewrite Hk in Hk'. inversion Hk' as [Heq].
           assert (Hlt : j < length forest0) by (apply Hjs; left; reflexivity).
           assert (Hlt' : j' < length forest0) by (apply Hjs; right; exact Hj').
           apply (proj1 (NoDup_nth forest0 EmptyString) Hdistinct j j' Hlt Hlt') in Heq.
           subst j'. contradiction.
      * apply Hcopied. exact Hj'.
    + intros c Hc. rewrite Hkept.
      * apply nth_error_update_nth_other. intros ->.
        apply (Hc j (or_introl eq_refl)). exact Hk.
      * intros j' Hj'. apply Hc. right. exact Hj'.
Qed.

Lemma dataset_row_copies :
  exists out,
    dataset_row dataset0 forest0 row = Ok out /\
    forall j h, nth_error forest0 j = Some h ->
      exists c, where_first dataset0 h = Ok c /\
                nth_error out c = Some (nth j row 0%Q).
Proof.
  destruct (dataset_row_copies_step (seq 0 (length forest0))
              (repeat 0%Q (length dataset0)))
    as (out & Hout & _ & Hcopied & _).
  - apply seq_NoDup.
  - intros j Hj. apply in_seq in Hj. lia.
  - apply repeat_length.
  - exists out. split; [exact Hout |].
    intros j h Hj.
    assert (Hlt : j < length forest0) by (apply nth_error_Some; congruence).
    destruct (Hcopied j) as (c & Hc & Hv); [apply in_seq; lia |].
    rewrite (nth_error_nth _ _ EmptyString Hj) in Hc. eauto.
Qed.

End DatasetRowCopies.

(** X7. The merge copies: on forests with five named columns for each
    species, every value of a forest whose column names differ from one
    another is found in the dataset, in the row of its sampling point and in
    the first column that has the name of its column. *)
Theorem X7_dataset_copies_values :
  forall forests,
    (forall fd, In fd forests -> Spec.five_per_species (snd fd)) ->
    exists ds,
      dataset forests = Ok ds /\
      forall k name data,
        nth_error forests k = Some (name, data) -> NoDup (header data) ->
        forall r row, nth_error (body data) r = Some row ->
        forall j h, nth_error (header data) j = Some h ->
          exists out c,
            nth_error (body ds) (Spec.first_point forests k + r) = Some out /\
            where_first (header ds) h = Ok c /\
            nth_error out c = Some (nth j row 0%Q).
Proof.
  intros forests Hfive.
  destruct (dataset_spec forests Hfive) as (ds & Hds & Hhd & _).
  exists ds. split; [exact Hds |].
  intros k name data Hk Hnd r row Hr j h Hj.
  assert (Hfd : In (name, data) forests) by (eapply nth_error_In; eauto).
  unfold dataset in Hds.
  apply rbind_ok in Hds. destruct Hds as (blocks & Hblocks & Hds).
  inversion Hds; subst ds. simpl in *. clear Hds Hhd.
  set (dataset0 := dataset_header (all_species forests)) in *.
  destruct (forest_rows_spec forests Hfive (name, data) Hfd) as (rows & Hrows & _).
  fold dataset0 in Hrows. simpl in Hrows.
  destruct (rmapM_ok _ _ _ Hrows) as [_ Hnth].
  destruct (Hnth _ _ Hr) as (out & Hout & Hro).
  destruct (dataset_row_copies dataset0 (header data) row
              (fun h' => forest_header_known forests Hfive (name, data) h' Hfd) Hnd)
    as (out' & Hout' & Hcopies).
  rewrite Hout in Hout'. inversion Hout'; subst out'.
  destruct (Hcopies j h Hj) as (c & Hc & Hv).
  exists out, c. split; [| split; [exact Hc | exact Hv]].
  destruct (rmapM_concat_nth
              (fun fd : string * value_table => forest_rows dataset0 (snd fd))
              (fun fd : string * value_table => Spec.sampling_points (snd fd)))
    with (l := forests) (blocks := blocks) as [_ Hcat]; auto.
  { intros fd ys Hys. unfold forest_rows in Hys. apply rmapM_ok in Hys. apply Hys. }
  apply (Hcat k (name, data) rows r out Hk Hrows Hro).
Qed.

Lemma X7_dataset_copies_values_witness :
  exists ds,
    dataset Samples.two_forests = Ok ds /\
    forall k name data,
      nth_error Samples.two_forests k = Some (name, data) -> NoDup (header data) ->
      forall r row, nth_error (body data) r = Some row ->
      forall j h, nth_error (header data) j = Some h ->
        exists out c,
          nth_error (body ds) (Spec.first_point Samples.two_forests k + r) = Some out /\
          where_first (header ds) h = Ok c /\
          nth_error out c = Some (nth j row 0%Q).
Proof.
  apply (X7_dataset_copies_values Samples.two_forests).
  intros fd [<- | [<- | []]]; reflexivity.
Defined.

(** ** What the normalization leaves alone, and the range of its values *)

(** X8. The normalization changes no value of a column whose name does not
    hold "freshly browsed": in every row such a column keeps its value, and
    the header, the number of rows and the length of every row are kept. *)
Theorem X8_normalization_keeps_other_columns :
  forall (dataset : value_table) j,
    contains "freshly browsed" (nth j (header dataset) EmptyString) = false ->
    header (normalize_freshly_browsed dataset) = header dataset /\
    length (body (normalize_freshly_browsed dataset)) = length (body dataset) /\
    forall i row,
      nth_error (body dataset) i = Some row ->
      exists out,
        nth_error (body (normalize_freshly_browsed dataset)) i = Some out /\
        length out = length row /\
        nth j out 0%Q = nth j row 0%Q.
Proof.
  intros dataset j Hj. unfold normalize_freshly_browsed. simpl.
  rewrite normalize_columns_rows. split; [reflexivity |].
  split; [apply length_map |].
  intros i row Hrow. rewrite nth_error_map, Hrow. simpl.
  eexists. split; [reflexivity |]. split.
  - apply length_passes.
  - now apply passes_unnamed.
Qed.

Lemma X8_normalization_keeps_other_columns_witness :
  header (normalize_freshly_browsed Samples.forest_a) = header Samples.forest_a /\
  length (body (normalize_freshly_browsed Samples.forest_a)) = 2 /\
  forall i row,
    nth_error (body Samples.forest_a) i = Some row ->
    exists out,
      nth_error (body (normalize_freshly_browsed Samples.forest_a)) i = Some out /\
      length out = length row /\
      nth 8 out 0%Q = nth 8 row 0%Q.
Proof.
  apply (X8_normalization_keeps_other_columns Samples.forest_a 8). reflexivity.
Defined.

(** X9. Where freshly browsed is between 0 and all shoots, as it is after the
    correction of [aggregate_data], the normalized value is a proportion: it
    lies between 0 and 1. *)
Theorem X9_normalized_value_is_a_proportion :
  forall (dataset : value_table) j h h0,
    nth_error (header dataset) (S j) = Some h ->
    contains "freshly browsed" h = true ->
    nth_error (header dataset) j = Some h0 ->
    contains "freshly browsed" h0 = false ->
    forall i row,
      nth_error (body dataset) i = Some row -> length row = ncols dataset ->
      (0 <= nth (S j) row 0)%Q -> (nth (S j) row 0 <= nth j row 0)%Q ->
      exists out,
        nth_error (body (normalize_freshly_browsed dataset)) i = Some out /\
        (0 <= nth (S j) out 0)%Q /\ (nth (S j) out 0 <= 1)%Q.
Proof.
  intros dataset j h h0 Hh Hfb Hh0 Hall i row Hrow Hlen Hpos Hle.
  unfold normalize_freshly_browsed. simpl. rewrite normalize_columns_rows.
  rewrite nth_error_map, Hrow. simpl. eexists. split; [reflexivity |].
  assert (Hlt : S j < length (header dataset)) by (apply nth_error_Some; congruence).
  assert (Hn : nth (S j) (header dataset) EmptyString = h) by (now apply nth_error_nth).
  assert (Hn0 : nth j (header dataset) EmptyString = h0) by (now apply nth_error_nth).
  destruct (passes_freshly_browsed (header dataset) j row Hlt Hlen)
    as (Hkeep & Hout & Hj & HSj); try congruence.
  unfold ncols. rewrite Hout.
  set (r1 := fold_left _ (seq 0 (S j)) row) in *.
  assert (Hr1 : S j < length r1).
  { unfold r1. rewrite length_passes. unfold ncols in Hlen. lia. }
  unfold normalize_cell. simpl column_before. rewrite Hj.
  destruct (Qeq_bool (nth j row 0%Q) 0) eqn:Hz; cbn [negb].
  - destruct (Qeq_bool (nth (S j) r1 0%Q) 0) eqn:Hf; cbn [negb].
    + apply Qeq_bool_iff in Hf. rewrite Hf. split; [apply Qle_refl | discriminate].
    + rewrite nth_update_nth_same by exact Hr1. split; [apply Qle_refl | discriminate].
  - apply Qeq_bool_neq in Hz.
    rewrite nth_update_nth_same by exact Hr1. rewrite HSj.
    assert (Hpos' : (0 < nth j row 0)%Q).
    { pose proof (Qle_trans _ _ _ Hpos Hle) as H0.
      apply Qle_lteq in H0. destruct H0 as [H0 | H0]; [exact H0 |].
      exfalso. apply Hz. symmetry. exact H0. }
    split.
    + apply Qle_shift_div_l; [exact Hpos' |]. now rewrite Qmult_0_l.
    + apply Qle_shift_div_r; [exact Hpos' |]. now rewrite Qmult_1_l.
Qed.

Lemma X9_normalized_value_is_a_proportion_witness :
  exists out,
    nth_error (body (normalize_freshly_browsed Samples.forest_a)) 0 = Some out /\
    (0 <= nth 6 out 0)%Q /\ (nth 6 out 0 <= 1)%Q.
Proof.
  apply (X9_normalized_value_is_a_proportion Samples.forest_a 5
           "Bükk freshly browsed" "Bükk all shoots"
           eq_refl eq_refl eq_refl eq_refl
           0 [0; 0; 0; 0; 0; 4; 1; 0; 1; 1]%Q eq_refl eq_refl).
  - vm_compute. discriminate.
  - vm_compute. discriminate.
Defined.

(** ** Renaming in place *)

(** X10. When the renaming raises, the header is left half renamed: the
    columns before the first name that cannot be renamed have their new name,
    that column and the ones after it keep their old name, and the exception
    is the one of that column. *)
Theorem X10_renaming_stops_at_first_missing_name :
  forall dataset0 out e,
    rename_headers dataset0 = (out, Some e) ->
    exists before renamed h rest,
      dataset0 = before ++ h :: rest /\
      Forall2 (fun old new => rename_header old = Ok new) before renamed /\
      rename_header h = Raise e /\
      out = renamed ++ h :: rest.
Proof.
  induction dataset0 as [| h0 rest0 IH]; simpl; intros out e H; [discriminate |].
  destruct (rename_header h0) as [h0' | e0] eqn:Hh0.
  - destruct (rename_headers rest0) as [rest' e'] eqn:Hrest.
    inversion H; subst.
    destruct (IH _ _ eq_refl) as (before & renamed & h & rest & -> & Hf & Hh & ->).
    exists (h0 :: before), (h0' :: renamed), h, rest. repeat split; auto.
  - inversion H; subst. exists [], [], h0, rest0. repeat split; auto.
Qed.

Lemma X10_renaming_stops_at_first_missing_name_witness :
  exists before renamed h rest,
    Samples.header_with_stranger = before ++ h :: rest /\
    Forall2 (fun old new => rename_header old = Ok new) before renamed /\
    rename_header h = Raise (KeyError "Nyír") /\
    ["Fagus sylvatica all shoots"; "Nyír all shoots"; "Gyertyán all shoots"]
    = renamed ++ h :: rest.
Proof.
  apply (X10_renaming_stops_at_first_missing_name Samples.header_with_stranger).
  reflexivity.
Defined.

(** ** The double loop that counts supply *)









(** The counter of species [j] after the loop over one row. *)
Lemma tally_row_points stride row : forall js t t',
  NoDup js -> (forall j, In j js -> j < length (points_with_supply t)) ->
  rfold_left (tally_species stride row) js t = Ok t' ->
  forall j,
    nth j (points_with_supply t') 0%Q
    = if existsb (Nat.eqb j) js && Cases.offered_at stride j row
      then (nth j (points_with_supply t) 0 + 1)%Q
      else nth j (points_with_supply t) 0%Q.
Proof.
  induction js as [| j0 js IH]; simpl; intros t t' Hnd Hjs H j.
  - inversion H; subst. reflexivity.
  - apply rbind_ok in H. destruct H as (t1 & H1 & H).
    inversion Hnd as [| ? ? Hj0 Hnd']; subst.
    assert (Hlen1 : length (points_with_supply t1) = length (points_with_supply t)).
    { apply tally_species_length in H1. apply H1. }
    assert (Hjs1 : forall j', In j' js -> j' < length (points_with_supply t1)).
    { intros j' Hj'. rewrite Hlen1. apply Hjs. right. exact Hj'. }
    rewrite (IH t1 t' Hnd' Hjs1 H).
    unfold tally_species in H1.
    apply rbind_ok in H1. destruct H1 as (x & Hx & H1).
    assert (Hx' : x = nth (j0 * stride) row 0%Q).
    { unfold index in Hx. destruct (nth_error row (j0 * stride)) eqn:He; [| discriminate].
      inversion Hx; subst. symmetry. now apply nth_error_nth. }
    destruct (Nat.eqb_spec j j0) as [-> | Hne]; simpl.
    + assert (Hex : existsb (Nat.eqb j0) js = false).
      { destruct (existsb (Nat.eqb j0) js) eqn:He; [| reflexivity].
        apply existsb_exists in He. destruct He as (y & Hy & Hey).
        apply Nat.eqb_eq in Hey. subst y. contradiction. }
      rewrite Hex. simpl. unfold Cases.offered_at. rewrite <- Hx'.
      destruct (negb (Qeq_bool x 0)); inversion H1; subst; simpl; [| reflexivity].
      rewrite nth_update_nth_same by (apply Hjs; left; reflexivity). reflexivity.
    + destruct (negb (Qeq_bool x 0)); inversion H1; subst; simpl; [| reflexivity].
      rewrite nth_update_nth_other by auto. reflexivity.
Qed.

Lemma tally_rows_points stride n : forall rows t0 t,
  length (points_with_supply t0) = n ->
  rfold_left (fun t row => rfold_left (tally_species stride row) (seq 0 n) t) rows t0
  = Ok t ->
  forall j, j < n ->
    nth j (points_with_supply t) 0%Q
    = fold_left (fun acc row => if Cases.offered_at stride j row then (acc + 1)%Q else acc)
                rows (nth j (points_with_supply t0) 0%Q).
Proof.
  induction rows as [| row rows IH]; simpl; intros t0 t Hl H j Hj.
  - inversion H; subst. reflexivity.
  - apply rbind_ok in H. destruct H as (t1 & H1 & H).
    assert (Hl1 : length (points_with_supply t1) = n).
    { refine (rfold_left_invariant
                (fun t => length (points_with_supply t) = n) _ _ _ _ _ Hl H1).
      intros a b a' Ha Hs. apply tally_species_length in Hs. lia. }
    rewrite (IH t1 t Hl1 H j Hj).
    assert (Hjs : forall j', In j' (seq 0 n) -> j' < length (points_with_supply t0)).
    { intros j' Hj'. apply in_seq in Hj'. lia. }
    rewrite (tally_row_points stride row (seq 0 n) t0 t1 (seq_NoDup n 0) Hjs H1).
    assert (Hex : existsb (Nat.eqb j) (seq 0 n) = true).
    { apply existsb_exists. exists j. split; [apply in_seq; lia | apply Nat.eqb_refl]. }
    rewrite Hex. reflexivity.
Qed.

Lemma count_offered stride j : forall rows (init : Q),
  (fold_left (fun acc row => if Cases.offered_at stride j row then acc + 1 else acc)
             rows init
   == init + inject_Z (Z.of_nat (Cases.points_offered stride j rows)))%Q.
Proof.
  unfold Cases.points_offered.
  induction rows as [| row rows IH]; intros init; simpl.
  - unfold inject_Z. simpl. ring.
  - rewrite IH. destruct (Cases.offered_at stride j row); simpl length.
    + rewrite Nat2Z.inj_succ, <- Z.add_1_r, inject_Z_plus. ring.
    + reflexivity.
Qed.

Lemma tally_rows_count stride n rows t j :
  tally_rows stride n rows = Ok t -> j < n ->
  (nth j (points_with_supply t) 0
   == inject_Z (Z.of_nat (Cases.points_offered stride j rows)))%Q.
Proof.
  unfold tally_rows. intros H Hj.
  assert (Hl : length (points_with_supply
                         (mkTally (repeat 0%Q n) (repeat 0%Q n) 0%Q)) = n)
    by (simpl; apply repeat_length).
  rewrite (tally_rows_points stride n rows _ t Hl H j Hj).
  rewrite count_offered. simpl points_with_supply.
  rewrite nth_repeat. ring.
Qed.

Lemma py_div_nth (t : Q) : forall l shares j c,
  rmapM (fun x => py_div x t) l = Ok shares ->
  nth_error shares j = Some c ->
  ~ (t == 0)%Q /\ j < length l /\ (c * t == nth j l 0)%Q.
Proof.
  intros l shares j c H Hc.
  destruct (rmapM_ok _ _ _ H) as [Hlen Hnth].
  assert (Hj : j < length l) by (rewrite <- Hlen; apply nth_error_Some; congruence).
  destruct (nth_error l j) as [x |] eqn:Hx; [| apply nth_error_None in Hx; lia].
  destruct (Hnth _ _ Hx) as (y & Hy & Hs).
  rewrite Hc in Hs. inversion Hs; subst y. unfold py_div in Hy.
  destruct (Qeq_bool t 0) eqn:Ht; [discriminate |].
  apply Qeq_bool_neq in Ht. inversion Hy; subst.
  split; [exact Ht |]. split; [exact Hj |].
  rewrite (nth_error_nth _ _ _ Hx). field. exact Ht.
Qed.

Lemma points_offered_le stride j rows :
  Cases.points_offered stride j rows <= length rows.
Proof.
  unfold Cases.points_offered. apply filter_length_le.
Qed.

(** A share [c] with [c * n == k] for whole numbers [0 <= k <= n] is between 0
    and 1. *)
Lemma share_bounds (c : Q) (k n : nat) :
  k <= n -> ~ (inject_Z (Z.of_nat n) == 0)%Q ->
  (c * inject_Z (Z.of_nat n) == inject_Z (Z.of_nat k))%Q ->
  (0 <= c)%Q /\ (c <= 1)%Q.
Proof.
  intros Hkn Hn Hc.
  assert (Hpos : (0 < inject_Z (Z.of_nat n))%Q).
  { assert (Hle : (0 <= inject_Z (Z.of_nat n))%Q).
    { rewrite <- (Zle_Qle 0). apply Nat2Z.is_nonneg. }
    apply Qle_lteq in Hle. destruct Hle as [Hlt | Heq]; [exact Hlt |].
    exfalso. apply Hn. symmetry. exact Heq. }
  assert (Hceq : (c == inject_Z (Z.of_nat k) / inject_Z (Z.of_nat n))%Q).
  { rewrite <- Hc. field. exact Hn. }
  rewrite Hceq. split.
  - apply Qle_shift_div_l; [exact Hpos |]. rewrite Qmult_0_l.
    rewrite <- (Zle_Qle 0). apply Nat2Z.is_nonneg.
  - apply Qle_shift_div_r; [exact Hpos |]. rewrite Qmult_1_l.
    rewrite <- Zle_Qle. apply Nat2Z.inj_le. exact Hkn.
Qed.

(** X12. The coverage of a species is the share of the sampling points of the
    forest where it is offered: the coverage times the number of points is the
    number of the rows with a count other than 0 in the column of its shoots,
    and the coverage lies between 0 and 1. *)
Theorem X12_coverage_counts_points :
  forall (data : count_table) d,
    distribution_of data = Ok d ->
    forall j c,
      nth_error (coverages d) j = Some c ->
      (c * inject_Z (Z.of_nat (length (body data)))
       == inject_Z (Z.of_nat (Cases.points_offered 3 j (map (map inject_Z) (body data)))))%Q /\
      (0 <= c)%Q /\ (c <= 1)%Q.
Proof.
  intros data d H j c Hc. unfold distribution_of in H.
  apply rbind_ok in H. destruct H as (t & Ht & H).
  apply rbind_ok in H. destruct H as (cov & Hcov & H).
  apply rbind_ok in H. destruct H as (sup & Hsup & H).
  inversion H; subst. simpl in Hc.
  replace (nrows data - 1) with (length (body data)) in Hcov
    by (unfold nrows; lia).
  destruct (py_div_nth _ _ _ _ _ Hcov Hc) as (Hnz & Hj & Heq).
  pose proof (tally_rows_length _ _ _ _ Ht) as [Hl _]. rewrite Hl in Hj.
  rewrite (tally_rows_count _ _ _ _ _ Ht Hj) in Heq.
  split; [exact Heq |].
  apply (share_bounds c (Cases.points_offered 3 j (map (map inject_Z) (body data)))
                      (length (body data))); [| exact Hnz | exact Heq].
  rewrite <- (length_map (map inject_Z) (body data)).
  apply points_offered_le.
Qed.

Lemma X12_coverage_counts_points_witness :
  ((2 # 4) * inject_Z (Z.of_nat 4)
   == inject_Z (Z.of_nat
        (Cases.points_offered 3 1 (map (map inject_Z) (body Cases.small_forest)))))%Q /\
  (0 <= 2 # 4)%Q /\ (2 # 4 <= 1)%Q.
Proof.
  apply (X12_coverage_counts_points Cases.small_forest
           (mkDistribution ["Unknown"; "Bükk"] [2 # 4; 2 # 4] [4 # 12; 8 # 12])
           eq_refl 1).
  reflexivity.
Defined.



(** ** Adjusting the predictions *)

Lemma adjust_predictions_rows y_pred X ns out :
  adjust_predictions y_pred X ns = Ok out ->
  length out = length y_pred /\
  forall i orow, nth_error out i = Some orow ->
    exists yrow xrow,
      nth_error y_pred i = Some yrow /\ nth_error X i = Some xrow /\
      adjust_row ns yrow xrow = Ok orow.
Proof.
  unfold adjust_predictions. intros H.
  destruct (rmapM_ok _ _ _ H) as [Hlen Hnth].
  rewrite length_enumerate_from in Hlen. split; [exact Hlen |].
  intros i orow Ho.
  assert (Hi : i < length y_pred).
  { rewrite <- Hlen. apply nth_error_Some. congruence. }
  destruct (nth_error y_pred i) as [yrow |] eqn:Hy;
    [| apply nth_error_None in Hy; lia].
  destruct (Hnth i _ (nth_error_enumerate_from _ 0 _ _ Hy)) as (o & Hf & Ho').
  rewrite Ho in Ho'. inversion Ho'; subst o. simpl in Hf.
  apply rbind_ok in Hf. destruct Hf as (xrow & Hx & Hf).
  unfold index in Hx. destruct (nth_error X i) as [x |] eqn:HX; [| discriminate].
  inversion Hx; subst. exists yrow, xrow. auto.
Qed.

Lemma adjust_row_values ns yrow xrow orow :
  adjust_row ns yrow xrow = Ok orow ->
  length orow = length yrow /\
  forall j w, nth_error orow j = Some w ->
    exists y x, nth_error yrow j = Some y /\ nth_error xrow (j * 3) = Some x /\
      w = (if Qeq_bool x 0 then ns else if negb (Qle_bool 0 y) then 0%Q else y).
Proof.
  intros H.
  assert (Hlen : length orow = length yrow).
  { unfold adjust_row in H. destruct (rmapM_ok _ _ _ H) as [Hlen _].
    now rewrite length_enumerate_from in Hlen. }
  split; [exact Hlen |]. intros j w Hw.
  assert (Hj : j < length yrow).
  { rewrite <- Hlen. apply nth_error_Some. congruence. }
  destruct (nth_error yrow j) as [y |] eqn:Hy;
    [| apply nth_error_None in Hy; lia].
  destruct (adjust_row_ok _ _ _ _ H j y Hy) as (x & Hx & Ho).
  rewrite Hw in Ho. inversion Ho. exists y, x. auto.
Qed.

(** X14. [adjust_predictions] keeps the shape of the predictions.  Where the
    species has no supply the value is the no-supply value, elsewhere it is
    the prediction, or 0 when the prediction is negative. *)
Theorem X14_adjusted_predictions :
  forall y_pred X ns out,
    adjust_predictions y_pred X ns = Ok out ->
    length out = length y_pred /\
    forall i orow, nth_error out i = Some orow ->
      exists yrow xrow,
        nth_error y_pred i = Some yrow /\ nth_error X i = Some xrow /\
        length orow = length yrow /\
        forall j w, nth_error orow j = Some w ->
          exists y x,
            nth_error yrow j = Some y /\ nth_error xrow (j * 3) = Some x /\
            ((x == 0)%Q -> w = ns) /\
            (~ (x == 0)%Q -> (w == Qmax 0 y)%Q /\ (0 <= w)%Q).
Proof.
  intros y_pred X ns out H.
  destruct (adjust_predictions_rows _ _ _ _ H) as [Hlen Hrows].
  split; [exact Hlen |]. intros i orow Ho.
  destruct (Hrows i orow Ho) as (yrow & xrow & Hy & Hx & Hadj).
  exists yrow, xrow. destruct (adjust_row_values _ _ _ _ Hadj) as [Hl Hv].
  repeat split; auto. intros j w Hw.
  destruct (Hv j w Hw) as (y & x & Hyj & Hxj & ->).
  exists y, x. repeat split; auto.
  - intros Hz. apply Qeq_bool_iff in Hz. now rewrite Hz.
  - destruct (Qeq_bool x 0) eqn:Hz; [apply Qeq_bool_iff in Hz; contradiction |].
    destruct (Qle_bool 0 y) eqn:Hle; cbn [negb].
    + apply Qle_bool_iff in Hle. symmetry. now apply Q.max_r.
    + symmetry. apply Q.max_l. apply Qlt_le_weak. apply Qnot_le_lt.
      intros Hc. apply Qle_bool_iff in Hc. congruence.
  - destruct (Qeq_bool x 0) eqn:Hz; [apply Qeq_bool_iff in Hz; contradiction |].
    destruct (Qle_bool 0 y) eqn:Hle; cbn [negb].
    + now apply Qle_bool_iff in Hle.
    + apply Qle_refl.
Qed.

Lemma X14_adjusted_predictions_witness :
  length [[noSupply_value; 0%Q; 3 # 10]] = length [[1 # 2; - (1 # 4); 3 # 10]] /\
  forall i orow, nth_error [[noSupply_value; 0%Q; 3 # 10]] i = Some orow ->
    exists yrow xrow,
      nth_error [[1 # 2; - (1 # 4); 3 # 10]] i = Some yrow /\
      nth_error [[0%Q; 1%Q; 1%Q; 1 # 2; 1%Q; 1%Q; 1 # 3; 1%Q; 1%Q]] i = Some xrow /\
      length orow = length yrow /\
      forall j w, nth_error orow j = Some w ->
        exists y x,
          nth_error yrow j = Some y /\ nth_error xrow (j * 3) = Some x /\
          ((x == 0)%Q -> w = noSupply_value) /\
          (~ (x == 0)%Q -> (w == Qmax 0 y)%Q /\ (0 <= w)%Q).
Proof.
  apply (X14_adjusted_predictions
           [[1 # 2; - (1 # 4); 3 # 10]]
           [[0%Q; 1%Q; 1%Q; 1 # 2; 1%Q; 1%Q; 1 # 3; 1%Q; 1%Q]]
           noSupply_value).
  reflexivity.
Defined.

(** ** The estimate of a forest *)

Lemma fold_left_Qplus (l : list Q) : forall a,
  (fold_left Qplus l a == a + Cases.total l)%Q.
Proof.
  induction l as [| x l IH]; intros a; simpl.
  - ring.
  - rewrite IH. ring.
Qed.

Lemma q_sum_total (l : list Q) : (q_sum l == Cases.total l)%Q.
Proof.
  unfold q_sum. rewrite fold_left_Qplus. ring.
Qed.

Lemma total_nonneg (l : list Q) :
  (forall x, In x l -> 0 <= x)%Q -> (0 <= Cases.total l)%Q.
Proof.
  induction l as [| x l IH]; simpl; intros H.
  - apply Qle_refl.
  - assert (H1 : (0 <= x)%Q) by (apply H; auto).
    assert (H2 : (0 <= Cases.total l)%Q) by (apply IH; intros; apply H; auto).
    lra.
Qed.

Lemma total_map_div (t : Q) (l : list Q) :
  ~ (t == 0)%Q ->
  (Cases.total (map (fun x => x / t) l) == Cases.total l / t)%Q.
Proof.
  intros Ht. induction l as [| x l IH]; simpl.
  - field. exact Ht.
  - rewrite IH. field. exact Ht.
Qed.

(** The loop that adds the weighted estimates keeps the sum between the
    bounds of the estimates, scaled by the weights added so far. *)
Lemma weighted_sum_bounds (e : nat -> Q) (lo hi : Q) : forall ws s acc W,
  (forall w, In w ws -> 0 <= w)%Q ->
  (forall i, s <= i < s + length ws -> (lo <= e i <= hi)%Q) ->
  (lo * W <= acc <= hi * W)%Q ->
  (lo * (W + Cases.total ws)
   <= fold_left Qplus
        (map (fun ic : nat * Q => let (i, c) := ic in c * e i)
             (enumerate_from s ws)) acc
   <= hi * (W + Cases.total ws))%Q.
Proof.
  unfold enumerate_from.
  induction ws as [| w ws IH]; intros s acc W Hw He Hacc; simpl.
  - assert (E : (W + 0 == W)%Q) by ring. rewrite E. exact Hacc.
  - assert (E : (W + (w + Cases.total ws) == (W + w) + Cases.total ws)%Q) by ring.
    rewrite E. apply (IH (S s) (acc + w * e s)%Q (W + w)%Q).
    + intros w' Hw'. apply Hw. right. exact Hw'.
    + intros i Hi. apply He. simpl. lia.
    + assert (H0 : (0 <= w)%Q) by (apply Hw; left; reflexivity).
      destruct (He s) as [H1 H2]; [simpl; lia |].
      destruct Hacc as [H3 H4]. split; nra.
Qed.

Lemma forest_estimate_between data est sp lo hi :
  (forall row, In row data -> 0 <= nth (sp * 3) row 0)%Q ->
  (forall i, i < length data -> (lo <= nth sp (nth i est []) 0 <= hi)%Q) ->
  ~ (q_sum (column (sp * 3) data) == 0)%Q ->
  (lo <= forest_estimate data est sp <= hi)%Q.
Proof.
  intros Hdata Hest Hnz.
  unfold forest_estimate. set (t := q_sum (column (sp * 3) data)) in *.
  destruct (Qeq_bool t 0) eqn:Hz; [apply Qeq_bool_iff in Hz; contradiction |].
  cbn [negb]. unfold q_sum at 1.
  assert (Htot : (t == Cases.total (column (sp * 3) data))%Q)
    by apply q_sum_total.
  assert (Hpos : (0 < t)%Q).
  { assert (H0 : (0 <= t)%Q).
    { rewrite Htot. apply total_nonneg. unfold column. intros x Hx.
      apply in_map_iff in Hx. destruct Hx as (row & <- & Hrow). auto. }
    apply Qle_lteq in H0. destruct H0 as [H0 | H0]; [exact H0 |].
    symmetry in H0. contradiction. }
  assert (Hone : (Cases.total (section_contributions data sp t) == 1)%Q).
  { unfold section_contributions.
    assert (E : map (fun row => (nth (sp * 3) row 0 / t)%Q) data
                = map (fun x => (x / t)%Q) (column (sp * 3) data)).
    { unfold column. rewrite map_map. reflexivity. }
    rewrite E, total_map_div by exact Hnz. rewrite <- Htot. field. exact Hnz. }
  pose proof (weighted_sum_bounds
                (fun i => nth sp (nth i est []) 0%Q) lo hi
                (section_contributions data sp t) 0 0%Q 0%Q) as Hb.
  rewrite Hone in Hb.
  assert (E1 : (lo * (0 + 1) == lo)%Q) by ring.
  assert (E2 : (hi * (0 + 1) == hi)%Q) by ring.
  rewrite E1, E2 in Hb. apply Hb.
  - unfold section_contributions. intros w Hw.
    apply in_map_iff in Hw. destruct Hw as (row & <- & Hrow).
    apply Qle_shift_div_l; [exact Hpos |].
    assert (E : (0 * t == 0)%Q) by ring. rewrite E. auto.
  - intros i Hi. apply Hest. unfold section_contributions in Hi.
    rewrite length_map in Hi. lia.
  - split; lra.
Qed.

(** X15. When the species has shoots in the forest and no section has a
    negative count, the estimate of the forest is a weighted mean: it lies
    between any two bounds of the section estimates. *)
Theorem X15_forest_estimate_is_a_mean :
  forall data section_estimates sp lo hi,
    (forall row, In row data -> 0 <= nth (sp * 3) row 0)%Q ->
    (forall i, i < length data ->
       (lo <= nth sp (nth i section_estimates []) 0 <= hi)%Q) ->
    ~ (q_sum (column (sp * 3) data) == 0)%Q ->
    (lo <= forest_estimate data section_estimates sp <= hi)%Q.
Proof.
  intros data est sp lo hi. apply forest_estimate_between.
Qed.

Lemma X15_forest_estimate_is_a_mean_witness :
  ((1 # 5) <= forest_estimate [[1 # 4; 0%Q; 0%Q]; [3 # 4; 0%Q; 0%Q]]
                              [[1 # 5]; [3 # 5]] 0
   <= (3 # 5))%Q.
Proof.
  apply (X15_forest_estimate_is_a_mean
           [[1 # 4; 0%Q; 0%Q]; [3 # 4; 0%Q; 0%Q]] [[1 # 5]; [3 # 5]] 0).
  - intros row [<- | [<- | []]]; vm_compute; discriminate.
  - intros [| [| i]] Hi; simpl in Hi; try lia; split; vm_compute; discriminate.
  - vm_compute. discriminate.
Defined.

(** ** Normalizing the shoot counts of the sections *)

Lemma fold_min_spec : forall l x,
  (fold_left Qmin l x <= x)%Q /\
  (forall y, In y l -> fold_left Qmin l x <= y)%Q /\
  exists y, In y (x :: l) /\ (fold_left Qmin l x == y)%Q.
Proof.
  induction l as [| a l IH]; intros x; simpl.
  - split; [apply Qle_refl |]. split; [intros y [] |].
    exists x. split; [auto | reflexivity].
  - destruct (IH (Qmin x a)) as (H1 & H2 & y & Hy & Heq).
    split; [eapply Qle_trans; [exact H1 | apply Q.le_min_l] |].
    split.
    + intros z [<- | Hz]; [| auto].
      eapply Qle_trans; [exact H1 | apply Q.le_min_r].
    + destruct Hy as [<- | Hy]; [| exists y; auto].
      destruct (Q.min_dec x a) as [E | E].
      * exists x. split; [auto |]. exact (Qeq_trans _ _ _ Heq E).
      * exists a. split; [auto |]. exact (Qeq_trans _ _ _ Heq E).
Qed.

Lemma fold_max_spec : forall l x,
  (x <= fold_left Qmax l x)%Q /\
  (forall y, In y l -> y <= fold_left Qmax l x)%Q.
Proof.
  induction l as [| a l IH]; intros x; simpl.
  - split; [apply Qle_refl | intros y []].
  - destruct (IH (Qmax x a)) as (H1 & H2).
    split; [eapply Qle_trans; [apply Q.le_max_l | exact H1] |].
    intros z [<- | Hz]; [| auto].
    eapply Qle_trans; [apply Q.le_max_r | exact H1].
Qed.

(** A normalized column: every value is in [0, 1), and the minimum of the
    column goes to 0. *)
Lemma normalized_column_TS X c col :
  c mod 3 = 0 ->
  normalized_column X c = Ok col ->
  length col = length X /\
  (forall i, i < length X -> (0 <= nth i col 0 < 1)%Q) /\
  exists i, i < length X /\ (nth i col 0 == 0)%Q.
Proof.
  intros Hc. unfold normalized_column.
  apply Nat.eqb_eq in Hc. rewrite Hc.
  assert (Hlen : length (column c X) = length X)
    by (unfold column; apply length_map).
  revert Hlen. generalize (column c X) as xs. intros xs Hlen H.
  destruct xs as [| x0 xs]; [discriminate |]. cbn [np_min np_max rbind] in H.
  set (lo := fold_left Qmin xs x0) in *. set (hi := fold_left Qmax xs x0) in *.
  assert (Hcol : col = map (fun x => (x - lo) / (hi - lo + smoothing))%Q (x0 :: xs))
    by congruence.
  clear H. subst col.
  destruct (fold_min_spec xs x0) as (Hlo0 & Hlo & m & Hm & Hmeq).
  destruct (fold_max_spec xs x0) as (Hhi0 & Hhi).
  fold lo in Hlo0, Hlo, Hmeq. fold hi in Hhi0, Hhi.
  assert (Hin : forall x, In x (x0 :: xs) -> (lo <= x <= hi)%Q).
  { intros x [<- | Hx]; split; auto. }
  assert (Hs : (0 < smoothing)%Q) by reflexivity.
  assert (Hd : (0 < hi - lo + smoothing)%Q).
  { destruct (Hin x0 (or_introl eq_refl)). lra. }
  assert (Hnth : forall i, i < length (x0 :: xs) ->
            nth i (map (fun x => (x - lo) / (hi - lo + smoothing))%Q (x0 :: xs)) 0%Q
            = ((nth i (x0 :: xs) 0 - lo) / (hi - lo + smoothing))%Q).
  { intros i Hi.
    rewrite (nth_indep _ 0%Q ((0 - lo) / (hi - lo + smoothing))%Q)
      by (rewrite length_map; exact Hi).
    apply (map_nth (fun x => (x - lo) / (hi - lo + smoothing))%Q). }
  split; [rewrite length_map; exact Hlen |]. split.
  - intros i Hi. rewrite <- Hlen in Hi. rewrite (Hnth i Hi).
    destruct (Hin (nth i (x0 :: xs) 0%Q) (nth_In _ _ Hi)) as [H1 H2].
    split.
    + apply Qle_shift_div_l; [exact Hd |]. lra.
    + apply Qlt_shift_div_r; [exact Hd |]. lra.
  - destruct (In_nth _ _ 0%Q Hm) as (i & Hi & Hnm).
    exists i. split; [lia |]. rewrite (Hnth i Hi), Hnm, <- Hmeq.
    field. lra.
Qed.

Lemma normalized_column_other X c col :
  c mod 3 <> 0 ->
  normalized_column X c = Ok col -> col = column c X.
Proof.
  intros Hc. unfold normalized_column.
  apply Nat.eqb_neq in Hc. rewrite Hc. congruence.
Qed.

Lemma nth_rows_of_columns n cols i c :
  i < n ->
  nth c (nth i (rows_of_columns n cols) []) 0%Q = nth i (nth c cols []) 0%Q.
Proof.
  intros Hi. unfold rows_of_columns.
  rewrite (nth_indep _ [] (map (fun col => nth i col 0%Q) cols))
    by (rewrite length_map, length_seq; exact Hi).
  change (map (fun col => nth i col 0%Q) cols)
    with ((fun i => map (fun col => nth i col 0%Q) cols) i).
  rewrite map_nth, seq_nth by exact Hi. simpl.
  destruct (Nat.lt_ge_cases c (length cols)) as [Hc | Hc].
  - rewrite (nth_indep _ 0%Q (nth i [] 0%Q)) by (rewrite length_map; exact Hc).
    apply (map_nth (fun col => nth i col 0%Q)).
  - rewrite (nth_overflow (map _ cols)) by (rewrite length_map; exact Hc).
    rewrite (nth_overflow cols) by exact Hc.
    destruct i; reflexivity.
Qed.

Lemma nth_column c X i :
  nth i (column c X) 0%Q = nth c (nth i X []) 0%Q.
Proof.
  unfold column.
  destruct (Nat.lt_ge_cases i (length X)) as [Hi | Hi].
  - rewrite (nth_indep _ 0%Q (nth c [] 0%Q)) by (rewrite length_map; exact Hi).
    apply (map_nth (fun row => nth c row 0%Q)).
  - rewrite (nth_overflow (map _ X)) by (rewrite length_map; exact Hi).
    rewrite (nth_overflow X) by exact Hi.
    destruct c; reflexivity.
Qed.

Lemma normalize_TS_columns width X Y :
  normalize_TS width X = Ok Y ->
  length Y = length X /\
  forall c, c < width ->
    exists col, normalized_column X c = Ok col /\
      forall i, i < length X -> nth c (nth i Y []) 0%Q = nth i col 0%Q.
Proof.
  unfold normalize_TS. intros H.
  apply rbind_ok in H. destruct H as (cols & Hcols & H).
  inversion H; subst Y; clear H.
  split; [unfold rows_of_columns; now rewrite length_map, length_seq |].
  intros c Hc. destruct (rmapM_ok _ _ _ Hcols) as [Hlen Hnth].
  assert (Hseq : nth_error (seq 0 width) c = Some c).
  { rewrite nth_error_nth' with (d := 0) by (rewrite length_seq; exact Hc).
    now rewrite seq_nth. }
  destruct (Hnth c c Hseq) as (col & Hcol & Hcolc).
  exists col. split; [exact Hcol |]. intros i Hi.
  rewrite nth_rows_of_columns by exact Hi.
  now rewrite (nth_error_nth _ _ _ Hcolc).
Qed.

(** X16. [normalize_TS] keeps the number of rows and every column that is
    not a TS column.  In a TS column every normalized value is in [0, 1),
    and some section is normalized to 0. *)
Theorem X16_normalize_TS_range :
  forall width X Y,
    normalize_TS width X = Ok Y ->
    length Y = length X /\
    forall c, c < width ->
      (c mod 3 <> 0 ->
         forall i, i < length X ->
           nth c (nth i Y []) 0%Q = nth c (nth i X []) 0%Q) /\
      (c mod 3 = 0 ->
         (forall i, i < length X -> (0 <= nth c (nth i Y []) 0 < 1)%Q) /\
         exists i, i < length X /\ (nth c (nth i Y []) 0 == 0)%Q).
Proof.
  intros width X Y H.
  destruct (normalize_TS_columns _ _ _ H) as [Hlen Hcols].
  split; [exact Hlen |]. intros c Hc.
  destruct (Hcols c Hc) as (col & Hcol & Hnth). split.
  - intros Hm i Hi. rewrite (Hnth i Hi).
    rewrite (normalized_column_other _ _ _ Hm Hcol). apply nth_column.
  - intros Hm.
    destruct (normalized_column_TS _ _ _ Hm Hcol) as (_ & Hrange & i & Hi & Hz).
    split.
    + intros k Hk. rewrite (Hnth k Hk). auto.
    + exists i. split; [exact Hi |]. now rewrite (Hnth i Hi).
Qed.

Lemma X16_normalize_TS_range_witness :
  let X := [[4%Q; 1 # 2; 1 # 3]; [10%Q; 1 # 2; 1 # 3]] in
  exists Y, normalize_TS 3 X = Ok Y /\
    length Y = length X /\
    forall c, c < 3 ->
      (c mod 3 <> 0 ->
         forall i, i < length X ->
           nth c (nth i Y []) 0%Q = nth c (nth i X []) 0%Q) /\
      (c mod 3 = 0 ->
         (forall i, i < length X -> (0 <= nth c (nth i Y []) 0 < 1)%Q) /\
         exists i, i < length X /\ (nth c (nth i Y []) 0 == 0)%Q).
Proof.
  intros X. eexists. split; [reflexivity |].
  apply (X16_normalize_TS_range 3 X). reflexivity.
Defined.

(** ** The notebook as a whole *)

Lemma load_dataset_normalized ds data0 data :
  load_dataset ds = Ok (data0, data) ->
  normalize_TS (length (header ds) * 3) data0 = Ok data /\
  length data0 = length (body ds) / 5.
Proof.
  unfold load_dataset. intros H.
  apply rbind_ok in H. destruct H as (fr & _ & H).
  apply rbind_ok in H. destruct H as (d & Hn & H).
  inversion H; subst. split; [exact Hn |].
  unfold sections, unaggregated_data. now rewrite length_map, length_seq, length_map.
Qed.

Lemma normalized_TS_nonneg width X Y sp :
  normalize_TS width X = Ok Y -> sp * 3 < width ->
  forall row, In row Y -> (0 <= nth (sp * 3) row 0)%Q.
Proof.
  intros H Hsp row Hrow.
  destruct (normalize_TS_columns _ _ _ H) as [Hlen Hcols].
  destruct (Hcols _ Hsp) as (col & Hcol & Hnth).
  assert (Hm : (sp * 3) mod 3 = 0) by apply Nat.Div0.mod_mul.
  destruct (normalized_column_TS _ _ _ Hm Hcol) as (_ & Hrange & _).
  destruct (In_nth _ _ [] Hrow) as (i & Hi & <-).
  rewrite Hlen in Hi. rewrite (Hnth i Hi). apply Hrange. exact Hi.
Qed.

Lemma adjusted_not_below ns y x :
  (ns <= 0)%Q ->
  (ns <= (if Qeq_bool x 0 then ns else if negb (Qle_bool 0 y) then 0 else y))%Q.
Proof.
  intros Hns. destruct (Qeq_bool x 0); [apply Qle_refl |].
  destruct (Qle_bool 0 y) eqn:Hle; cbn [negb]; [| exact Hns].
  apply Qle_bool_iff in Hle. lra.
Qed.

(** X17. Whatever the regressors predict, no estimate of a section and no
    forecast of the notebook is below the no-supply value: an estimate of a
    section is that value or is not negative, and a forecast is that value
    or a weighted mean of the estimates of the sections. *)
Theorem X17_no_forecast_below_no_supply_value :
  forall (models : regressors) ds fc,
    browsing_forecast models ds = Ok fc ->
    (forall row v, In row (fc_section_estimates fc) -> In v row ->
       v = noSupply_value \/ (0 <= v)%Q) /\
    (forall v, In v (fc_forest_estimates fc) -> (noSupply_value <= v)%Q).
Proof.
  intros models ds fc H. unfold browsing_forecast in H.
  apply rbind_ok in H. destruct H as ([data0 data] & Hload & H).
  apply rbind_ok in H. destruct H as (est & Hest & H).
  inversion H; subst fc; clear H. cbn [snd fst] in *.
  cbn [fc_section_estimates fc_forest_estimates].
  set (nr := length (header ds)) in *.
  destruct (load_dataset_normalized _ _ _ Hload) as [Hnorm _]. fold nr in Hnorm.
  destruct (adjust_predictions_rows _ _ _ _ Hest) as [Hlen Hrows].
  unfold predicted_browsing in Hlen. rewrite length_map in Hlen.
  assert (Hns : (noSupply_value <= 0)%Q) by (vm_compute; discriminate).
  split.
  - intros row v Hrow Hv.
    destruct (In_nth_error _ _ Hrow) as [i Hi].
    destruct (Hrows i row Hi) as (yrow & xrow & _ & _ & Hadj).
    destruct (adjust_row_values _ _ _ _ Hadj) as [_ Hvals].
    destruct (In_nth_error _ _ Hv) as [j Hj].
    destruct (Hvals j v Hj) as (y & x & _ & _ & ->).
    destruct (Qeq_bool x 0); [left; reflexivity | right].
    destruct (Qle_bool 0 y) eqn:Hle; cbn [negb]; [| apply Qle_refl].
    now apply Qle_bool_iff in Hle.
  - intros v Hv. unfold forest_estimates in Hv.
    apply in_map_iff in Hv. destruct Hv as (sp & <- & Hsp).
    apply in_seq in Hsp.
    destruct (Qeq_bool (q_sum (column (sp * 3) data)) 0) eqn:Hz.
    + unfold forest_estimate. rewrite Hz. apply Qle_refl.
    + apply Qeq_bool_neq in Hz.
      assert (Hdata : forall row, In row data -> (0 <= nth (sp * 3) row 0)%Q).
      { apply (normalized_TS_nonneg _ _ _ _ Hnorm). lia. }
      (* every estimate of species [sp] is not below the no-supply value; an
         upper bound is the greatest of them *)
      assert (Hlow : forall i, i < length data ->
                (noSupply_value <= nth sp (nth i est []) 0)%Q).
      { intros i Hi.
        destruct (nth_error est i) as [orow |] eqn:Ho;
          [| apply nth_error_None in Ho; lia].
        rewrite (nth_error_nth _ _ _ Ho).
        destruct (Hrows i orow Ho) as (yrow & xrow & Hy & _ & Hadj).
        destruct (adjust_row_values _ _ _ _ Hadj) as [Hl Hvals].
        assert (Hyl : length yrow = nr).
        { unfold predicted_browsing in Hy.
          apply nth_error_In, in_map_iff in Hy. destruct Hy as (r & <- & _).
          now rewrite length_map, length_seq. }
        destruct (nth_error orow sp) as [w |] eqn:Hw;
          [| apply nth_error_None in Hw; lia].
        rewrite (nth_error_nth _ _ _ Hw).
        destruct (Hvals sp w Hw) as (y & x & _ & _ & ->).
        apply adjusted_not_below. exact Hns. }
      set (hi := fold_left Qmax (map (fun i => nth sp (nth i est []) 0%Q)
                                     (seq 0 (length data))) noSupply_value).
      apply (forest_estimate_between data est sp noSupply_value hi);
        [exact Hdata | | exact Hz].
      intros i Hi. split; [apply Hlow; exact Hi |].
      destruct (fold_max_spec (map (fun i => nth sp (nth i est []) 0%Q)
                                   (seq 0 (length data))) noSupply_value)
        as [_ Hmax].
      apply Hmax. apply in_map_iff. exists i. split; [reflexivity |].
      apply in_seq. lia.
Qed.

Lemma X17_no_forecast_below_no_supply_value_witness :
  exists fc,
    browsing_forecast (fun _ row => nth 0 row 0 - (1 # 2))%Q Samples.ten_points = Ok fc /\
    (forall row v, In row (fc_section_estimates fc) -> In v row ->
       v = noSupply_value \/ (0 <= v)%Q) /\
    (forall v, In v (fc_forest_estimates fc) -> (noSupply_value <= v)%Q).
Proof.
  eexists. split; [vm_compute; reflexivity |].
  apply (X17_no_forecast_below_no_supply_value
           (fun _ row => nth 0 row 0 - (1 # 2))%Q Samples.ten_points).
  vm_compute. reflexivity.
Defined.

(** X18. A sheet that names a species and has fewer than five sampling
    points gives no forecast: there is no section, and [normalize_TS] raises
    on the empty array, unless the table of properties has raised before. *)
Theorem X18_fewer_than_five_points :
  forall (models : regressors) ds,
    header ds <> [] -> length (body ds) < 5 ->
    browsing_forecast models ds = Raise ValueError \/
    exists e,
      properties_table (body ds) (length (header ds)) = Raise e /\
      browsing_forecast models ds = Raise e.
Proof.
  intros models ds Hh Hb. unfold browsing_forecast, load_dataset.
  destruct (properties_table (body ds) (length (header ds))) as [fr | e];
    cbn [rbind]; [left | right; eauto].
  assert (Hs : sections (unaggregated_data (body ds) (length (header ds))
                                           (fst fr) (snd fr))
                        (length (header ds)) = []).
  { unfold sections, unaggregated_data. rewrite length_map.
    rewrite (Nat.div_small _ 5 Hb). reflexivity. }
  rewrite Hs. destruct (header ds) as [| h hs]; [contradiction |].
  reflexivity.
Qed.

Lemma X18_fewer_than_five_points_witness :
  let ds := mkTable ["Quercus petraea"] [[1%Q]; [2%Q]; [0%Q]; [1%Q]] in
  browsing_forecast (fun _ _ => 0%Q) ds = Raise ValueError \/
  exists e,
    properties_table (body ds) (length (header ds)) = Raise e /\
    browsing_forecast (fun _ _ => 0%Q) ds = Raise e.
Proof.
  intros ds. apply (X18_fewer_than_five_points (fun _ _ => 0%Q) ds).
  - discriminate.
  - simpl. lia.
Defined.

(** ** The sections of five sampling points *)








(** ** Reading a sheet *)

Ltac compare_nats :=
  repeat match goal with
         | |- context [?a <=? ?b] => destruct (Nat.leb_spec a b)
         | |- context [?a <? ?b] => destruct (Nat.ltb_spec a b)
         | |- context [?a =? ?b] => destruct (Nat.eqb_spec a b)
         end;
  cbn [andb orb negb]; try reflexivity; try lia.

Lemma length_assign_slice {A} (v : A) : forall l a b,
  length (assign_slice a b v l) = length l.
Proof.
  induction l as [| x l IH]; intros a b; simpl; [reflexivity |].
  now rewrite IH.
Qed.

Lemma nth_assign_slice {A} (v d : A) : forall l a b j,
  nth j (assign_slice a b v l) d
  = if (a <=? j) && (j <? b) && (j <? length l) then v else nth j l d.
Proof.
  induction l as [| x l IH]; intros a b j.
  - cbn [assign_slice length]. rewrite andb_false_r. reflexivity.
  - destruct j as [| j]; cbn [assign_slice nth length].
    + compare_nats.
    + rewrite IH. compare_nats.
Qed.

Lemma rfold_left_total {A B} (f : A -> B -> result A) : forall l a,
  (forall a b, In b l -> exists a', f a b = Ok a') ->
  exists a', rfold_left f l a = Ok a'.
Proof.
  induction l as [| b l IH]; simpl; intros a H; [eauto |].
  destruct (H a b (or_introl eq_refl)) as [a1 H1]. rewrite H1. simpl.
  apply IH. intros a2 b2 Hb2. apply H. auto.
Qed.

Lemma rfold_left_raise_inv {A B} (f : A -> B -> result A) e : forall l a,
  rfold_left f l a = Raise e -> exists a' b, In b l /\ f a' b = Raise e.
Proof.
  induction l as [| b l IH]; simpl; intros a H; [discriminate |].
  destruct (f a b) as [a1 | e1] eqn:H1; simpl in H.
  - destruct (IH _ H) as (a' & b' & Hb' & Hf). exists a', b'. auto.
  - inversion H; subst. exists a, b. auto.
Qed.

Lemma rfold_left_raises {A B} (f : A -> B -> result A) e : forall l,
  (forall a b, In b l -> f a b = Raise e \/ exists a', f a b = Ok a') ->
  (exists b, In b l /\ forall a, f a b = Raise e) ->
  forall a, rfold_left f l a = Raise e.
Proof.
  induction l as [| x l IH]; intros Hall (b & Hb & Hraise) a.
  - contradiction.
  - simpl. destruct (Hall a x (or_introl eq_refl)) as [Hx | [a' Hx]];
      rewrite Hx; simpl; [reflexivity |].
    destruct Hb as [<- | Hb]; [rewrite Hraise in Hx; discriminate |].
    apply IH; [intros; apply Hall; right; assumption | eauto].
Qed.

Lemma in_name_indices (m ni : nat) :
  In ni (name_indices m) <-> exists b, b < m /\ ni = b * 9 + 1 /\ ni + 1 < m.
Proof.
  unfold name_indices. rewrite filter_In, in_map_iff, Nat.ltb_lt. split.
  - intros [(b & <- & Hb) Hlt]. apply in_seq in Hb. exists b. lia.
  - intros (b & Hb & -> & Hlt). split; [| exact Hlt].
    exists b. split; [reflexivity |]. apply in_seq. lia.
Qed.

Lemma names_fold_length (df0 : list cell) : forall nis row row',
  rfold_left
    (fun row name_index =>
       rbind (index df0 name_index) (fun name =>
         Ok (assign_slice (name_index - 1) (name_index + 8) name row)))
    nis row = Ok row' ->
  length row' = length row.
Proof.
  intros nis row row' H.
  apply (rfold_left_invariant (fun r => length r = length row) _) with (3 := H);
    [| reflexivity].
  intros a b a' Ha Hf. apply rbind_ok in Hf. destruct Hf as (name & _ & Hf).
  inversion Hf; subst. now rewrite length_assign_slice.
Qed.

(** The loop of row 0, from any row and over any list of name indices of
    which at most one has column [j] in its block. *)
Lemma names_fold (df0 : list cell) (d : cell) (j ni0 : nat) (name0 : cell) :
  nth_error df0 ni0 = Some name0 ->
  forall nis row row',
    rfold_left
      (fun row name_index =>
         rbind (index df0 name_index) (fun name =>
           Ok (assign_slice (name_index - 1) (name_index + 8) name row)))
      nis row = Ok row' ->
    (forall ni, In ni nis -> (ni - 1 <=? j) && (j <? ni + 8) = true -> ni = ni0) ->
    j < length row ->
    nth j row' d
    = if existsb (fun ni => (ni - 1 <=? j) && (j <? ni + 8)) nis
      then name0 else nth j row d.
Proof.
  intros Hname. induction nis as [| n nis IH]; intros row row' H Huniq Hj.
  - simpl in H. inversion H; subst. reflexivity.
  - cbn [rfold_left] in H. apply rbind_ok in H. destruct H as (row1 & H1 & H).
    apply rbind_ok in H1. destruct H1 as (name & Hn & H1).
    inversion H1; subst row1; clear H1.
    rewrite (IH _ _ H).
    2: { intros ni Hni. apply Huniq. right. exact Hni. }
    2: { rewrite length_assign_slice. exact Hj. }
    rewrite nth_assign_slice. cbn [existsb].
    destruct (existsb (fun ni => (ni - 1 <=? j) && (j <? ni + 8)) nis);
      [now rewrite orb_true_r |].
    rewrite orb_false_r.
    apply Nat.ltb_lt in Hj. rewrite Hj, andb_true_r.
    destruct ((n - 1 <=? j) && (j <? n + 8)) eqn:Hc; [| reflexivity].
    assert (n = ni0) by (apply Huniq; [left; reflexivity | exact Hc]).
    subst n. unfold index in Hn. rewrite Hname in Hn. congruence.
Qed.

Lemma names_row_blocks (df0 : list cell) (k : nat) :
  9 * k <= length df0 ->
  exists names,
    names_row df0 (9 * k) = Ok names /\ length names = 9 * k /\
    forall j, j < 9 * k -> nth_error names j = nth_error df0 (9 * (j / 9) + 1).
Proof.
  intros Hw. unfold names_row.
  destruct (rfold_left_total
              (fun row name_index =>
                 rbind (index df0 name_index) (fun name =>
                   Ok (assign_slice (name_index - 1) (name_index + 8) name row)))
              (name_indices (9 * k)) (repeat (Num 0) (9 * k))) as [names Hnames].
  { intros a ni Hni. apply in_name_indices in Hni. destruct Hni as (b & _ & _ & Hlt).
    unfold index. destruct (nth_error df0 ni) as [name |] eqn:Hn.
    - simpl. eauto.
    - apply nth_error_None in Hn. lia. }
  exists names. split; [exact Hnames |].
  assert (Hlen : length names = 9 * k).
  { rewrite (names_fold_length _ _ _ _ Hnames). apply repeat_length. }
  split; [exact Hlen |]. intros j Hj.
  pose proof (Nat.div_mod_eq j 9) as Hdm.
  pose proof (Nat.mod_upper_bound j 9) as Hr.
  set (q := j / 9) in *. set (r := j mod 9) in *.
  destruct (nth_error df0 (9 * q + 1)) as [name |] eqn:Hn;
    [| apply nth_error_None in Hn; lia].
  rewrite (nth_error_nth' _ (Num 0)) by lia. f_equal.
  rewrite (names_fold df0 (Num 0) j (9 * q + 1) name Hn _ _ _ Hnames).
  - replace (existsb (fun ni => (ni - 1 <=? j) && (j <? ni + 8))
                     (name_indices (9 * k))) with true; [reflexivity |].
    symmetry. apply existsb_exists. exists (9 * q + 1). split.
    + apply in_name_indices. exists q. lia.
    + apply andb_true_iff. rewrite Nat.leb_le, Nat.ltb_lt. lia.
  - intros ni Hni Hc. apply in_name_indices in Hni.
    destruct Hni as (b & _ & -> & _).
    apply andb_true_iff in Hc. rewrite Nat.leb_le, Nat.ltb_lt in Hc. lia.
  - rewrite repeat_length. exact Hj.
Qed.

Lemma names_row_raises (df0 : list cell) (m : nat) e :
  names_row df0 m = Raise e -> e = IndexError.
Proof.
  unfold names_row. intros H. apply rfold_left_raise_inv in H.
  destruct H as (row & ni & _ & H). unfold index in H.
  destruct (nth_error df0 ni); simpl in H; congruence.
Qed.

Lemma labels_fold_length (m : nat) : forall its row row',
  rfold_left
    (fun row iteration =>
       let start_point := iteration * 9 in
       let row := assign_slice start_point (start_point + 4)
                               (Str "Összes hajtásvég") row in
       let row := assign_slice (start_point + 4) (start_point + 8)
                               (Str "Friss rágott hajtásvég") row in
       if start_point + 8 <? m
       then Ok (assign_slice (start_point + 8) (start_point + 9)
                             (Str "Régi rágott hajtásvég") row)
       else Raise IndexError)
    its row = Ok row' ->
  length row' = length row.
Proof.
  intros its row row' H.
  apply (rfold_left_invariant (fun r => length r = length row) _) with (3 := H);
    [| reflexivity].
  intros a b a' Ha Hf. cbv zeta in Hf.
  destruct (b * 9 + 8 <? m); inversion Hf; subst.
  now rewrite !length_assign_slice.
Qed.

(** The loop of row 1, from any row and over any list of iterations. *)
Lemma labels_fold (m : nat) (d : cell) (j : nat) : forall its row row',
  rfold_left
    (fun row iteration =>
       let start_point := iteration * 9 in
       let row := assign_slice start_point (start_point + 4)
                               (Str "Összes hajtásvég") row in
       let row := assign_slice (start_point + 4) (start_point + 8)
                               (Str "Friss rágott hajtásvég") row in
       if start_point + 8 <? m
       then Ok (assign_slice (start_point + 8) (start_point + 9)
                             (Str "Régi rágott hajtásvég") row)
       else Raise IndexError)
    its row = Ok row' ->
  j < length row ->
  nth j row' d
  = if existsb (fun it => it =? j / 9) its
    then Cases.label_of (j mod 9) else nth j row d.
Proof.
  induction its as [| it its IH]; intros row row' H Hj.
  - simpl in H. inversion H; subst. reflexivity.
  - cbn [rfold_left] in H. apply rbind_ok in H. destruct H as (row1 & H1 & H).
    cbv zeta in H1. destruct (it * 9 + 8 <? m); [| discriminate].
    inversion H1; subst row1; clear H1.
    rewrite (IH _ _ H) by (rewrite !length_assign_slice; exact Hj).
    cbn [existsb].
    destruct (existsb (fun it => it =? j / 9) its); [now rewrite orb_true_r |].
    rewrite orb_false_r, !nth_assign_slice, !length_assign_slice.
    pose proof (Nat.div_mod_eq j 9) as Hdm.
    pose proof (Nat.mod_upper_bound j 9) as Hr.
    unfold Cases.label_of.
    set (q := j / 9) in *. set (r := j mod 9) in *.
    compare_nats.
Qed.

Lemma in_iterations (m it : nat) :
  In it (iterations m) <-> it * 9 < m.
Proof.
  unfold iterations. rewrite filter_In, in_seq, Nat.ltb_lt. lia.
Qed.

Lemma labels_row_blocks (k : nat) :
  exists labels,
    labels_row (9 * k) = Ok labels /\ length labels = 9 * k /\
    forall j, j < 9 * k -> nth_error labels j = Some (Cases.label_of (j mod 9)).
Proof.
  unfold labels_row.
  match goal with
  | |- context [rfold_left ?f ?l ?a] =>
      destruct (rfold_left_total f l a) as [labels Hlabels]
  end.
  { intros a it Hit. apply in_iterations in Hit. cbv zeta.
    replace (it * 9 + 8 <? 9 * k) with true; [eauto |].
    symmetry. apply Nat.ltb_lt. lia. }
  exists labels. split; [exact Hlabels |].
  assert (Hlen : length labels = 9 * k).
  { rewrite (labels_fold_length _ _ _ _ Hlabels). apply repeat_length. }
  split; [exact Hlen |]. intros j Hj.
  rewrite (nth_error_nth' _ (Num 0)) by lia. f_equal.
  rewrite (labels_fold _ (Num 0) j _ _ _ Hlabels) by (rewrite repeat_length; exact Hj).
  replace (existsb (fun it => it =? j / 9) (iterations (9 * k))) with true;
    [reflexivity |].
  symmetry. apply existsb_exists. exists (j / 9). split.
  - apply in_iterations. pose proof (Nat.div_mod_eq j 9). lia.
  - apply Nat.eqb_refl.
Qed.

Lemma labels_row_incomplete (m : nat) :
  m mod 9 <> 0 -> labels_row m = Raise IndexError.
Proof.
  intros Hm. unfold labels_row.
  pose proof (Nat.div_mod_eq m 9) as Hdm.
  pose proof (Nat.mod_upper_bound m 9) as Hr.
  apply rfold_left_raises.
  - intros a it _. cbv zeta. destruct (it * 9 + 8 <? m); eauto.
  - exists (m / 9). split; [apply in_iterations; lia |].
    intros a. cbv zeta.
    replace (m / 9 * 9 + 8 <? m) with false; [reflexivity |].
    symmetry. apply Nat.ltb_ge. lia.
Qed.

Lemma skipn_nth_error {A} (x : A) : forall l s,
  nth_error l s = Some x -> skipn s l = x :: skipn (S s) l.
Proof.
  induction l as [| a l IH]; intros [| s] H; simpl in *; try discriminate.
  - congruence.
  - apply IH. exact H.
Qed.

Lemma copy_rows {A B} (g : A -> B) (df : list A) : forall n s,
  s + n <= length df ->
  rmapM (fun i => rbind (index df i) (fun row => Ok (g row))) (seq s n)
  = Ok (map g (firstn n (skipn s df))).
Proof.
  induction n as [| n IH]; intros s Hs; [reflexivity |].
  cbn [seq rmapM]. unfold index at 1.
  destruct (nth_error df s) as [x |] eqn:Hx;
    [| apply nth_error_None in Hx; lia].
  cbn [rbind]. rewrite (IH (S s)) by lia. cbn [rbind].
  rewrite (skipn_nth_error _ _ _ Hx). reflexivity.
Qed.

Lemma read_forest_data_frame (df : list (list cell)) (df1 : list cell) (k : nat) :
  nth_error df 1 = Some df1 ->
  index_of marker df1 = Ok (9 * k) ->
  9 * k <= length (nth 0 df []) ->
  103 <= length df ->
  exists names labels,
    read_forest_data df
    = Ok (names :: labels :: map (firstn (9 * k)) (firstn 101 (skipn 2 df))) /\
    length names = 9 * k /\ length labels = 9 * k /\
    length (firstn 101 (skipn 2 df)) = 101 /\
    (forall j, j < 9 * k ->
       nth_error names j = nth_error (nth 0 df []) (9 * (j / 9) + 1)) /\
    (forall j, j < 9 * k -> nth_error labels j = Some (Cases.label_of (j mod 9))).
Proof.
  intros H1 Hm Hw Hrows.
  destruct (names_row_blocks (nth 0 df []) k Hw) as (names & Hnames & Hln & Hn).
  destruct (labels_row_blocks k) as (labels & Hlabels & Hll & Hl).
  exists names, labels. split; [| repeat split; auto].
  - assert (Hi : index df 1 = Ok df1) by (unfold index; now rewrite H1).
    unfold read_forest_data. rewrite Hi. cbn [rbind]. rewrite Hm. cbn [rbind].
    rewrite Hnames. cbn [rbind]. rewrite Hlabels. cbn [rbind].
    change (SAMPLING_POINTS + 3 - 2) with 101.
    rewrite (copy_rows (firstn (9 * k)) df 101 2) by lia. reflexivity.
  - rewrite length_firstn, length_skipn. lia.
Qed.

(** X20. On a data frame whose marker is in column 9k of row 1, with 103
    rows or more, [read_forest_data] returns 103 rows of 9k columns: in row
    0 every block of nine columns carries the name found in its second
    column, in row 1 it carries four times the label of all shoots, four
    times the label of freshly browsed shoots and once the label of old
    browsed ones, and the other rows are the rows of the frame up to the
    marker column. *)
Theorem X20_read_forest_data_blocks :
  forall (df : list (list cell)) (df1 : list cell) (k : nat),
    nth_error df 1 = Some df1 ->
    index_of marker df1 = Ok (9 * k) ->
    9 * k <= length (nth 0 df []) ->
    103 <= length df ->
    exists names labels,
      read_forest_data df
      = Ok (names :: labels :: map (firstn (9 * k)) (firstn 101 (skipn 2 df))) /\
      length names = 9 * k /\ length labels = 9 * k /\
      length (firstn 101 (skipn 2 df)) = 101 /\
      (forall j, j < 9 * k ->
         nth_error names j = nth_error (nth 0 df []) (9 * (j / 9) + 1)) /\
      (forall j, j < 9 * k -> nth_error labels j = Some (Cases.label_of (j mod 9))).
Proof.
  exact read_forest_data_frame.
Qed.

Lemma X20_read_forest_data_blocks_witness :
  exists names labels,
    read_forest_data Cases.one_block_frame
    = Ok (names :: labels
          :: map (firstn (9 * 1)) (firstn 101 (skipn 2 Cases.one_block_frame))) /\
    length names = 9 * 1 /\ length labels = 9 * 1 /\
    length (firstn 101 (skipn 2 Cases.one_block_frame)) = 101 /\
    (forall j, j < 9 * 1 ->
       nth_error names j = nth_error (nth 0 Cases.one_block_frame []) (9 * (j / 9) + 1)) /\
    (forall j, j < 9 * 1 -> nth_error labels j = Some (Cases.label_of (j mod 9))).
Proof.
  apply (X20_read_forest_data_blocks
           Cases.one_block_frame
           [Num 0; Num 0; Num 0; Num 0; Num 0; Num 0; Num 0; Num 0; Num 0;
            Str marker] 1).
  - reflexivity.
  - reflexivity.
  - simpl. lia.
  - simpl. lia.
Defined.

(** X21. When the marker of row 1 is in a column that is not a multiple of
    nine, the last block is incomplete and [read_forest_data] raises
    IndexError: the label of old browsed shoots is written at a single index
    beyond the last column. *)
Theorem X21_read_forest_data_incomplete_block :
  forall (df : list (list cell)) (df1 : list cell) (m : nat),
    nth_error df 1 = Some df1 ->
    index_of marker df1 = Ok m ->
    m mod 9 <> 0 ->
    read_forest_data df = Raise IndexError.
Proof.
  intros df df1 m H1 Hm Hmod.
  assert (Hi : index df 1 = Ok df1) by (unfold index; now rewrite H1).
  unfold read_forest_data. rewrite Hi. cbn [rbind]. rewrite Hm. cbn [rbind].
  destruct (names_row (nth 0 df []) m) as [names | e] eqn:Hnames; cbn [rbind].
  - rewrite (labels_row_incomplete m Hmod). reflexivity.
  - now rewrite (names_row_raises _ _ _ Hnames).
Qed.

Lemma X21_read_forest_data_incomplete_block_witness :
  read_forest_data
    [[Num 0; Str "Bükk"; Num 0; Num 0; Num 0];
     [Num 0; Num 0; Num 0; Num 0; Str marker]]
  = Raise IndexError.
Proof.
  apply (X21_read_forest_data_incomplete_block
           [[Num 0; Str "Bükk"; Num 0; Num 0; Num 0];
            [Num 0; Num 0; Num 0; Num 0; Str marker]]
           [Num 0; Num 0; Num 0; Num 0; Str marker] 4).
  - reflexivity.
  - reflexivity.
  - discriminate.
Defined.

(** ** Reading and aggregating a sheet *)

Lemma all_some_texts (l : list string) :
  Cases.all_some (map Cases.cell_text (map Str l)) = Some l.
Proof.
  induction l as [| s l IH]; simpl; [reflexivity |]. now rewrite IH.
Qed.

Lemma all_some_counts (l : list Z) :
  Cases.all_some (map Cases.cell_count (map Num l)) = Some l.
Proof.
  induction l as [| z l IH]; simpl; [reflexivity |]. now rewrite IH.
Qed.

Lemma all_some_rows (rows : list (list Z)) :
  Cases.all_some (map (fun row => Cases.all_some (map Cases.cell_count row))
                      (map (map Num) rows)) = Some rows.
Proof.
  induction rows as [| r rows IH]; simpl; [reflexivity |].
  now rewrite all_some_counts, IH.
Qed.

Lemma length_blocks (species : list string) :
  length (flat_map (fun s => repeat s 9) species) = 9 * length species.
Proof.
  induction species as [| s l IH]; [reflexivity |].
  cbn [flat_map]. rewrite length_app, IH, repeat_length. simpl. lia.
Qed.

Lemma names_are_blocks (names df0 : list cell) (species : list string) :
  length names = 9 * length species ->
  (forall j, j < 9 * length species ->
     nth_error names j = nth_error df0 (9 * (j / 9) + 1)) ->
  (forall b s, nth_error species b = Some s ->
     nth_error df0 (9 * b + 1) = Some (Str s)) ->
  names = map Str (flat_map (fun s => repeat s 9) species).
Proof.
  intros Hlen Hnames Hdf0. apply nth_error_ext. intros j.
  destruct (Nat.lt_ge_cases j (9 * length species)) as [Hj | Hj].
  - pose proof (Nat.div_mod_eq j 9) as Hdm.
    pose proof (Nat.mod_upper_bound j 9) as Hr.
    destruct (nth_error species (j / 9)) as [s |] eqn:Hs;
      [| apply nth_error_None in Hs; lia].
    rewrite (Hnames j Hj), (Hdf0 _ _ Hs), nth_error_map, flat_map_concat_map.
    replace j with (j / 9 * 9 + j mod 9) at 1 by lia.
    rewrite (nth_error_concat_blocks 9 _ (j / 9) (j mod 9) (repeat s 9)).
    + rewrite nth_error_repeat by lia. reflexivity.
    + apply Forall_forall. intros b Hb. apply in_map_iff in Hb.
      destruct Hb as (x & <- & _). apply repeat_length.
    + now rewrite nth_error_map, Hs.
    + lia.
  - replace (nth_error names j) with (@None cell)
      by (symmetry; apply nth_error_None; lia).
    symmetry. apply nth_error_None. rewrite length_map, length_blocks. exact Hj.
Qed.

Lemma aggregate_data_header data lg agg :
  aggregate_data data = (lg, Ok agg) ->
  length (unique_in_order (sheet_names data)) = raw_ncols data / 9 ->
  header agg = flat_map aggregated_names (unique_in_order (sheet_names data)).
Proof.
  unfold aggregate_data. intros H Hsp.
  apply lbind_ok in H. destruct H as (l1 & hd & l2 & Hh & H & ->).
  apply lbind_ok in H. destruct H as (l3 & rows & l4 & Hm & H & ->).
  inversion H; subst; clear H. cbn [header].
  unfold lift, aggregated_header in Hh. rewrite Hsp, Nat.leb_refl in Hh.
  inversion Hh; subst. rewrite Nat.sub_diag. cbn [Nat.mul repeat].
  apply app_nil_r.
Qed.

(** X22. A data frame with a block of nine columns for each of k species of
    different names, and with counts in the rows of the 100 sampling points,
    is read and aggregated without an exception: the array of the path has
    the three names of every species, in the order of the blocks, and one
    row for every sampling point. *)
Theorem X22_frame_read_and_aggregated :
  forall (df : list (list cell)) (df1 : list cell)
         (species : list string) (counts : list (list Z)),
    nth_error df 1 = Some df1 ->
    index_of marker df1 = Ok (9 * length species) ->
    9 * length species <= length (nth 0 df []) ->
    103 <= length df ->
    NoDup species ->
    (forall b s, nth_error species b = Some s ->
       nth_error (nth 0 df []) (9 * b + 1) = Some (Str s)) ->
    map (firstn (9 * length species)) (firstn 100 (skipn 3 df))
    = map (map Num) counts ->
    Forall (fun row => length row = 9 * length species) counts ->
    exists data raw lg agg,
      read_forest_data df = Ok data /\
      Cases.as_raw_sheet data = Some raw /\
      aggregate_data raw = (lg, Ok agg) /\
      header agg = flat_map aggregated_names species /\
      length (body agg) = 100.
Proof.
  intros df df1 species counts H1 Hm Hw Hrows Hnd Hnames Hcounts Hwidth.
  destruct (read_forest_data_frame df df1 (length species) H1 Hm Hw Hrows)
    as (names & labels & Hread & Hln & _ & _ & Hn & _).
  pose proof (names_are_blocks names _ species Hln Hn Hnames) as ->.
  assert (Hthird : exists x, firstn 101 (skipn 2 df) = x :: firstn 100 (skipn 3 df)).
  { destruct (nth_error df 2) as [x |] eqn:Hx;
      [| apply nth_error_None in Hx; lia].
    exists x. now rewrite (skipn_nth_error _ _ _ Hx). }
  destruct Hthird as [x Hthird]. rewrite Hthird in Hread. cbn [map] in Hread.
  rewrite Hcounts in Hread.
  set (raw := mkRaw (flat_map (fun s => repeat s 9) species) counts).
  destruct (block_sheet_accepted species counts Hnd Hwidth) as (Hu & Hk & Hfull).
  fold raw in Hu, Hk, Hfull.
  destruct (aggregate_data_total raw Hk Hfull) as (lg & agg & Hagg).
  eexists. exists raw, lg, agg. split; [exact Hread |].
  split.
  { cbn [Cases.as_raw_sheet]. now rewrite all_some_texts, all_some_rows. }
  split; [exact Hagg |]. split.
  - rewrite (aggregate_data_header _ _ _ Hagg Hk). now rewrite Hu.
  - rewrite (aggregate_data_length _ _ _ Hagg). unfold raw. cbn [sheet_counts].
    apply (f_equal (@length _)) in Hcounts.
    rewrite !length_map, length_firstn, length_skipn in Hcounts. lia.
Qed.

Lemma X22_frame_read_and_aggregated_witness :
  exists data raw lg agg,
    read_forest_data Cases.one_block_frame = Ok data /\
    Cases.as_raw_sheet data = Some raw /\
    aggregate_data raw = (lg, Ok agg) /\
    header agg = flat_map aggregated_names ["Bükk"] /\
    length (body agg) = 100.
Proof.
  apply (X22_frame_read_and_aggregated
           Cases.one_block_frame
           [Num 0; Num 0; Num 0; Num 0; Num 0; Num 0; Num 0; Num 0; Num 0;
            Str marker]
           ["Bükk"] (repeat [1; 0; 2; 0; 1; 0; 0; 0; 3]%Z 100)).
  - reflexivity.
  - reflexivity.
  - simpl. lia.
  - simpl. lia.
  - repeat constructor. intros [].
  - intros [| b] s Hs; simpl in Hs; [| destruct b; discriminate].
    inversion Hs; subst. reflexivity.
  - reflexivity.
  - apply Forall_forall. intros row Hrow. apply repeat_spec in Hrow.
    subst row. reflexivity.
Defined.

(** ** Aggregating unknown species *)

Lemma triples_ind {A} (P : list A -> Prop) :
  P [] -> (forall a, P [a]) -> (forall a b, P [a; b]) ->
  (forall a b c l, P l -> P (a :: b :: c :: l)) ->
  forall l, P l.
Proof.
  intros H0 H1 H2 H3 l.
  assert (H : P l /\ (forall a, P (a :: l)) /\ (forall a b, P (a :: b :: l))).
  { induction l as [| x l (IH0 & IH1 & IH2)]; auto. }
  apply H.
Qed.

Lemma np_sum_app (l1 l2 : list Z) :
  np_sum (l1 ++ l2) = (np_sum l1 + np_sum l2)%Z.
Proof.
  unfold np_sum. induction l1 as [| x l1 IH]; simpl; [reflexivity |].
  rewrite IH. lia.
Qed.

Lemma in_unknown_cols (data : count_table) (k : nat) :
  existsb (Nat.eqb k) (unknown_cols data) = Cases.unknown_at data (k / 3).
Proof.
  pose proof (Nat.div_mod_eq k 3) as Hdm.
  pose proof (Nat.mod_upper_bound k 3) as Hr.
  apply eq_true_iff_eq. unfold Cases.unknown_at, unknown_cols.
  rewrite existsb_exists, andb_true_iff, Nat.ltb_lt. split.
  - intros (x & Hx & Hk). apply Nat.eqb_eq in Hk. subst x.
    apply in_flat_map in Hx. destruct Hx as (i & Hi & Hx). apply in_seq in Hi.
    destruct (is_unknown (nth (i * 3) (header data) EmptyString)) eqn:Hu;
      [| contradiction].
    assert (k / 3 = i) by (cbn [In] in Hx; lia). subst i. split; [lia | exact Hu].
  - intros [Hlt Hu]. exists k. split; [| apply Nat.eqb_refl].
    apply in_flat_map. exists (k / 3). split; [apply in_seq; lia |].
    rewrite Hu. cbn [In]. lia.
Qed.

Lemma third_of (s c : nat) : c < 3 -> (s * 3 + c) / 3 = s.
Proof.
  intros Hc. symmetry. apply (Nat.div_unique _ 3 s c); lia.
Qed.

(** [np.delete] of the columns of the selected species: their triples go,
    the other triples stay. *)
Lemma delete_from_triple (cols : list nat) (U : nat -> bool) :
  (forall k, existsb (Nat.eqb k) cols = U (k / 3)) ->
  forall s a b c (l : list Z),
    delete_from (s * 3) cols (a :: b :: c :: l)
    = if U s then delete_from (S s * 3) cols l
      else a :: b :: c :: delete_from (S s * 3) cols l.
Proof.
  intros HU s a b c l. cbn [delete_from].
  rewrite (HU (s * 3)), (HU (S (s * 3))), (HU (S (S (s * 3)))).
  assert (E0 : s * 3 / 3 = s)
    by (replace (s * 3) with (s * 3 + 0) by lia; apply third_of; lia).
  assert (E1 : S (s * 3) / 3 = s)
    by (replace (S (s * 3)) with (s * 3 + 1) by lia; apply third_of; lia).
  assert (E2 : S (S (s * 3)) / 3 = s)
    by (replace (S (S (s * 3))) with (s * 3 + 2) by lia; apply third_of; lia).
  rewrite E0, E1, E2.
  change (S s * 3) with (S (S (S (s * 3)))).
  destruct (U s); reflexivity.
Qed.

Lemma delete_from_short (cols : list nat) (r s : nat) (l : list Z) :
  length l < 3 -> Cases.field_total r (delete_from s cols l) = 0%Z.
Proof.
  intros Hl. destruct l as [| a [| b [| c l]]]; cbn [length] in Hl; try lia;
    cbn [delete_from].
  - reflexivity.
  - destruct (existsb (Nat.eqb s) cols); reflexivity.
  - destruct (existsb (Nat.eqb s) cols), (existsb (Nat.eqb (S s)) cols); reflexivity.
Qed.

Lemma field_total_delete (cols : list nat) (U : nat -> bool) (r : nat) :
  (forall k, existsb (Nat.eqb k) cols = U (k / 3)) ->
  forall l s,
    (Cases.field_total r (delete_from (s * 3) cols l)
     + Cases.field_total_where U r s l)%Z
    = Cases.field_total r l.
Proof.
  intros HU l. induction l as [| a | a b | a b c l IH] using triples_ind; intros s.
  - reflexivity.
  - rewrite delete_from_short by (simpl; lia). reflexivity.
  - rewrite delete_from_short by (simpl; lia). reflexivity.
  - rewrite (delete_from_triple cols U HU). cbn [Cases.field_total_where].
    specialize (IH (S s)).
    destruct (U s); cbn [Cases.field_total]; lia.
Qed.

Lemma fresh_le_all_delete (cols : list nat) (U : nat -> bool) :
  (forall k, existsb (Nat.eqb k) cols = U (k / 3)) ->
  forall l s,
    Cases.fresh_le_all l -> Cases.fresh_le_all (delete_from (s * 3) cols l).
Proof.
  intros HU l. induction l as [| a | a b | a b c l IH] using triples_ind;
    intros s Hl.
  - exact I.
  - cbn [delete_from]. destruct (existsb _ cols); exact I.
  - cbn [delete_from]. destruct (existsb _ cols), (existsb _ cols); exact I.
  - rewrite (delete_from_triple cols U HU). destruct Hl as [Hba Hl].
    destruct (U s); [apply IH; exact Hl |].
    split; [exact Hba | apply IH; exact Hl].
Qed.

Lemma field_total_where_none (U : nat -> bool) (r : nat) : forall l s,
  (forall i, s <= i -> U i = false) -> Cases.field_total_where U r s l = 0%Z.
Proof.
  intros l. induction l as [| a | a b | a b c l IH] using triples_ind;
    intros s HU; try reflexivity.
  cbn [Cases.field_total_where]. rewrite (HU s) by lia.
  rewrite IH; [reflexivity |]. intros i Hi. apply HU. lia.
Qed.

Lemma kind_of_column (i r : nat) :
  r < 3 ->
  filter (fun col => col mod 3 =? r) [i * 3; i * 3 + 1; i * 3 + 2] = [i * 3 + r].
Proof.
  intros Hr.
  assert (H0 : (i * 3) mod 3 = 0) by apply Nat.Div0.mod_mul.
  assert (H1 : (i * 3 + 1) mod 3 = 1).
  { rewrite Nat.add_comm, Nat.Div0.mod_add. reflexivity. }
  assert (H2 : (i * 3 + 2) mod 3 = 2).
  { rewrite Nat.add_comm, Nat.Div0.mod_add. reflexivity. }
  cbn [filter]. rewrite H0, H1, H2.
  destruct r as [| [| [| r]]]; try lia; cbn [Nat.eqb]; f_equal; lia.
Qed.

(** The sums that the cell takes over the columns of the unknown species of
    one kind. *)
Lemma unknown_sum (u : nat -> bool) (r N : nat) :
  r < 3 ->
  forall m s (prefix l : list Z),
    s + m = N -> length prefix = s * 3 -> m * 3 <= length l ->
    np_sum (pick (filter (fun col => col mod 3 =? r)
                         (flat_map (fun i => if u i
                                             then [i * 3; i * 3 + 1; i * 3 + 2]
                                             else [])
                                   (seq s m)))
                 (prefix ++ l))
    = Cases.field_total_where (fun i => (i <? N) && u i) r s l.
Proof.
  intros Hr. induction m as [| m IH]; intros s prefix l HN Hp Hl.
  - simpl. symmetry. apply field_total_where_none.
    intros i Hi. replace (i <? N) with false; [reflexivity |].
    symmetry. apply Nat.ltb_ge. lia.
  - destruct l as [| a [| b [| c l]]]; simpl in Hl; try lia.
    cbn [seq flat_map]. unfold pick in *.
    rewrite filter_app, map_app, np_sum_app.
    assert (E : (prefix ++ [a; b; c]) ++ l = prefix ++ a :: b :: c :: l)
      by (rewrite <- app_assoc; reflexivity).
    assert (IH' := IH (S s) (prefix ++ [a; b; c]) l).
    rewrite E in IH'. rewrite IH' by (try rewrite length_app; simpl; lia).
    cbn [Cases.field_total_where].
    replace (s <? N) with true by (symmetry; apply Nat.ltb_lt; lia).
    cbn [andb]. f_equal.
    destruct (u s); [| reflexivity].
    rewrite (kind_of_column s r Hr). cbn [map np_sum fold_right].
    rewrite app_nth2 by lia.
    replace (s * 3 + r - length prefix) with r by lia.
    destruct r as [| [| [| r]]]; try lia; cbn [nth]; lia.
Qed.

Lemma unknown_values_sums (data : count_table) (row : list Z) (r : nat) :
  r < 3 -> length row = ncols data ->
  nth r (unknown_values (unknown_cols data) row) 0%Z
  = Cases.field_total_where (Cases.unknown_at data) r 0 row.
Proof.
  intros Hr Hrow.
  pose proof (Nat.div_mod_eq (ncols data) 3) as Hdm.
  assert (E : forall r', r' < 3 ->
            np_sum (pick (filter (fun col => col mod 3 =? r') (unknown_cols data)) row)
            = Cases.field_total_where (Cases.unknown_at data) r' 0 row).
  { intros r' Hr'. unfold unknown_cols.
    apply (unknown_sum (fun i => is_unknown (nth (i * 3) (header data) EmptyString))
                       r' (ncols data / 3) Hr' (ncols data / 3) 0 [] row);
      cbn [length Nat.add Nat.mul]; lia. }
  unfold unknown_values.
  destruct r as [| [| [| r]]]; try lia; cbn [nth]; apply E; lia.
Qed.

Lemma aggregate_unknown_row (data : count_table) (i : nat) (row : list Z) :
  nth_error (body data) i = Some row ->
  nth_error (body (aggregate_unknown data)) i
  = Some (unknown_values (unknown_cols data) row ++ delete (unknown_cols data) row).
Proof.
  intros H. unfold aggregate_unknown. cbn [body].
  now rewrite nth_error_map, H.
Qed.

(** X23. Aggregating the unknown species keeps, at every sampling point, the
    number of shoots of each kind: the three values of the Unknown species
    are the sums over the species taken for unknown, and what the row holds
    of a kind after the cell is what it held before. *)
Theorem X23_unknown_species_conserve_shoots :
  forall (data : count_table) (i : nat) (row : list Z) (r : nat),
    nth_error (body data) i = Some row ->
    length row = ncols data ->
    r < 3 ->
    exists row',
      nth_error (body (aggregate_unknown data)) i = Some row' /\
      nth r row' 0%Z = Cases.field_total_where (Cases.unknown_at data) r 0 row /\
      Cases.field_total r row' = Cases.field_total r row.
Proof.
  intros data i row r Hrow Hlen Hr.
  eexists. split; [apply (aggregate_unknown_row data i row Hrow) |].
  pose proof (unknown_values_sums data row r Hr Hlen) as Hsum.
  split.
  - rewrite app_nth1 by (simpl; lia). exact Hsum.
  - rewrite <- (field_total_delete (unknown_cols data) (Cases.unknown_at data) r
                                   (in_unknown_cols data) row 0).
    rewrite <- Hsum. unfold delete.
    change (unknown_values (unknown_cols data) row)
      with [nth 0 (unknown_values (unknown_cols data) row) 0%Z;
            nth 1 (unknown_values (unknown_cols data) row) 0%Z;
            nth 2 (unknown_values (unknown_cols data) row) 0%Z].
    cbn [app Cases.field_total]. change (0 * 3) with 0.
    destruct r as [| [| [| r]]]; try lia; cbn [nth]; lia.
Qed.

Lemma X23_unknown_species_conserve_shoots_witness :
  exists row',
    nth_error (body (aggregate_unknown Cases.forest_with_unknown)) 0 = Some row' /\
    nth 0 row' 0%Z
    = Cases.field_total_where (Cases.unknown_at Cases.forest_with_unknown) 0 0
                              [3; 1; 0; 6; 2; 1; 4; 4; 2]%Z /\
    Cases.field_total 0 row' = Cases.field_total 0 [3; 1; 0; 6; 2; 1; 4; 4; 2]%Z.
Proof.
  apply (X23_unknown_species_conserve_shoots
           Cases.forest_with_unknown 0 [3; 1; 0; 6; 2; 1; 4; 4; 2]%Z 0).
  - reflexivity.
  - reflexivity.
  - lia.
Defined.

Lemma field_total_where_le (U : nat -> bool) : forall l s,
  Cases.fresh_le_all l ->
  (Cases.field_total_where U 1 s l <= Cases.field_total_where U 0 s l)%Z.
Proof.
  intros l. induction l as [| a | a b | a b c l IH] using triples_ind;
    intros s Hl; try (simpl; lia).
  destruct Hl as [Hba Hl]. specialize (IH (S s) Hl).
  cbn [Cases.field_total_where nth]. destruct (U s); lia.
Qed.

(** X24. If no species of a row has more freshly browsed shoots than shoots,
    this is so after the unknown species are aggregated, for the Unknown
    species as for the others. *)
Theorem X24_unknown_species_keep_fresh_le_all :
  forall (data : count_table) (i : nat) (row : list Z),
    nth_error (body data) i = Some row ->
    length row = ncols data ->
    Cases.fresh_le_all row ->
    exists row',
      nth_error (body (aggregate_unknown data)) i = Some row' /\
      Cases.fresh_le_all row'.
Proof.
  intros data i row Hrow Hlen Hle.
  eexists. split; [apply (aggregate_unknown_row data i row Hrow) |].
  pose proof (unknown_values_sums data row 0 ltac:(lia) Hlen) as H0.
  pose proof (unknown_values_sums data row 1 ltac:(lia) Hlen) as H1.
  change (unknown_values (unknown_cols data) row)
    with [nth 0 (unknown_values (unknown_cols data) row) 0%Z;
          nth 1 (unknown_values (unknown_cols data) row) 0%Z;
          nth 2 (unknown_values (unknown_cols data) row) 0%Z].
  cbn [app Cases.fresh_le_all]. split.
  - rewrite H0, H1. apply field_total_where_le. exact Hle.
  - apply (fresh_le_all_delete (unknown_cols data) (Cases.unknown_at data)
                               (in_unknown_cols data) row 0 Hle).
Qed.

Lemma X24_unknown_species_keep_fresh_le_all_witness :
  exists row',
    nth_error (body (aggregate_unknown Cases.forest_with_unknown)) 0 = Some row' /\
    Cases.fresh_le_all row'.
Proof.
  apply (X24_unknown_species_keep_fresh_le_all
           Cases.forest_with_unknown 0 [3; 1; 0; 6; 2; 1; 4; 4; 2]%Z).
  - reflexivity.
  - reflexivity.
  - simpl. lia.
Defined.

(** ** Adding the distribution properties *)

Lemma insert_column_ok (k : nat) (h : string) (v : Q) (data : value_table) :
  k <= ncols data ->
  insert_column k h v data
  = Ok (mkTable (Cases.inserted k h (header data))
                (map (Cases.inserted k v) (body data))).
Proof.
  intros Hk. unfold insert_column. apply Nat.leb_le in Hk. now rewrite Hk.
Qed.

Lemma length_inserted {A} (k : nat) (x : A) (l : list A) :
  length (Cases.inserted k x l) = S (length l).
Proof.
  unfold Cases.inserted. rewrite length_app. cbn [length].
  rewrite length_firstn, length_skipn. lia.
Qed.

(** The loop over the species, from species [s] on: it succeeds on a table
    with three columns for each species not yet visited and five for each
    one visited, and works on the header and on each row by itself. *)
Lemma add_fold (name1 name2 : nat -> string) (cov sup : nat -> Q) (N : nat) :
  forall m s (T : value_table),
    s + m = N -> ncols T = 3 * N + 2 * s ->
    rfold_left
      (fun updated_data i =>
         rbind (insert_column (i * 3 + 3 + i * 2) (name1 i) (cov i) updated_data)
               (fun updated_data =>
                  insert_column (i * 3 + 4 + i * 2) (name2 i) (sup i) updated_data))
      (seq s m) T
    = Ok (mkTable
            (fold_left (fun l i => Cases.inserted (i * 3 + 4 + i * 2) (name2 i)
                                     (Cases.inserted (i * 3 + 3 + i * 2) (name1 i) l))
                       (seq s m) (header T))
            (map (fold_left (fun l i => Cases.inserted (i * 3 + 4 + i * 2) (sup i)
                                          (Cases.inserted (i * 3 + 3 + i * 2) (cov i) l))
                            (seq s m))
                 (body T))).
Proof.
  induction m as [| m IH]; intros s T Hs Hw.
  - cbn [seq rfold_left fold_left]. rewrite map_id. destruct T; reflexivity.
  - cbn [seq rfold_left fold_left].
    rewrite insert_column_ok by lia. cbn [rbind].
    rewrite insert_column_ok
      by (unfold ncols; cbn [header]; rewrite length_inserted; fold (ncols T); lia).
    cbn [rbind header body]. rewrite IH.
    + cbn [header body]. rewrite !map_map. reflexivity.
    + lia.
    + unfold ncols. cbn [header]. rewrite !length_inserted. fold (ncols T). lia.
Qed.

Lemma flat_map_ext_in {A B} (f g : A -> list B) (l : list A) :
  (forall a, In a l -> f a = g a) -> flat_map f l = flat_map g l.
Proof.
  intros H. rewrite !flat_map_concat_map. f_equal. apply map_ext_in. exact H.
Qed.

Lemma inserted_twice {A} (x y : A) (s : nat) (done rest : list A) (a b c : A) :
  length done = 5 * s ->
  Cases.inserted (s * 3 + 4 + s * 2) y
    (Cases.inserted (s * 3 + 3 + s * 2) x (done ++ a :: b :: c :: rest))
  = (done ++ [a; b; c; x; y]) ++ rest.
Proof.
  intros Hd. unfold Cases.inserted.
  replace (s * 3 + 3 + s * 2) with (length done + 3) by lia.
  replace (s * 3 + 4 + s * 2) with (length (done ++ [a; b; c; x]) + 0)
    by (rewrite length_app; simpl; lia).
  rewrite firstn_app_2, skipn_app, skipn_all2 by lia.
  replace (length done + 3 - length done) with 3 by lia.
  cbn [firstn skipn app].
  replace ((done ++ [a; b; c]) ++ x :: rest) with ((done ++ [a; b; c; x]) ++ rest)
    by (rewrite <- !app_assoc; reflexivity).
  rewrite firstn_app_2, skipn_app, skipn_all2 by lia.
  rewrite Nat.add_0_r, Nat.sub_diag. cbn [firstn skipn app].
  rewrite app_nil_r, <- !app_assoc. reflexivity.
Qed.

(** The same loop on one row: after the three entries of each species come
    its two values. *)
Lemma inserted_fold {A} (d : A) (x y : nat -> A) : forall m s done rest,
  length done = 5 * s -> 3 * m <= length rest ->
  fold_left (fun l i => Cases.inserted (i * 3 + 4 + i * 2) (y i)
                          (Cases.inserted (i * 3 + 3 + i * 2) (x i) l))
            (seq s m) (done ++ rest)
  = done
    ++ flat_map (fun i => [nth (3 * (i - s)) rest d; nth (3 * (i - s) + 1) rest d;
                           nth (3 * (i - s) + 2) rest d; x i; y i])
                (seq s m)
    ++ skipn (3 * m) rest.
Proof.
  induction m as [| m IH]; intros s done rest Hd Hr.
  - reflexivity.
  - destruct rest as [| a [| b [| c rest]]]; cbn [length] in Hr; try lia.
    cbn [seq fold_left flat_map].
    rewrite inserted_twice by exact Hd.
    rewrite IH by (try rewrite length_app; cbn [length]; lia).
    rewrite <- !app_assoc. f_equal.
    assert (E3 : skipn (3 * S m) (a :: b :: c :: rest) = skipn (3 * m) rest).
    { replace (3 * S m) with (S (S (S (3 * m)))) by lia. reflexivity. }
    assert (EF : flat_map (fun i => [nth (3 * (i - s)) (a :: b :: c :: rest) d;
                                     nth (3 * (i - s) + 1) (a :: b :: c :: rest) d;
                                     nth (3 * (i - s) + 2) (a :: b :: c :: rest) d;
                                     x i; y i])
                          (seq (S s) m)
                 = flat_map (fun i => [nth (3 * (i - S s)) rest d;
                                       nth (3 * (i - S s) + 1) rest d;
                                       nth (3 * (i - S s) + 2) rest d; x i; y i])
                            (seq (S s) m)).
    { apply flat_map_ext_in. intros i Hi. apply in_seq in Hi.
      replace (3 * (i - s)) with (S (S (S (3 * (i - S s))))) by lia.
      reflexivity. }
    rewrite E3, EF. replace (s - s) with 0 by lia. reflexivity.
Qed.

Lemma flat_map_by_index {A B} (f : A -> list B) (d : A) (l : list A) :
  flat_map f l = flat_map (fun i => f (nth i l d)) (seq 0 (length l)).
Proof.
  induction l as [| a l IH]; [reflexivity |].
  cbn [length seq flat_map nth]. f_equal.
  rewrite <- seq_shift, (flat_map_concat_map _ (map S _)), map_map,
    <- flat_map_concat_map.
  exact IH.
Qed.

Lemma nth_count_names (species : list string) (i c : nat) :
  i < length species -> c < 3 ->
  nth (3 * i + c) (flat_map Cases.count_names species) EmptyString
  = nth c (Cases.count_names (nth i species EmptyString)) EmptyString.
Proof.
  intros Hi Hc.
  destruct (nth_error species i) as [s |] eqn:Hs;
    [| apply nth_error_None in Hs; lia].
  assert (E : nth_error (flat_map Cases.count_names species) (i * 3 + c)
              = nth_error (Cases.count_names s) c).
  { rewrite flat_map_concat_map.
    apply (nth_error_concat_blocks 3 _ i c (Cases.count_names s)).
    - apply Forall_forall. intros b Hb. apply in_map_iff in Hb.
      destruct Hb as (x & <- & _). reflexivity.
    - now rewrite nth_error_map, Hs.
    - exact Hc. }
  rewrite (nth_error_nth _ _ _ Hs).
  replace (3 * i + c) with (i * 3 + c) by lia.
  destruct (nth_error (Cases.count_names s) c) as [h |] eqn:Hh.
  - rewrite (nth_error_nth _ _ _ E). symmetry. now apply nth_error_nth.
  - apply nth_error_None in Hh. simpl in Hh. lia.
Qed.

Lemma species_of_count_names (species : list string) :
  map species_of (flat_map Cases.count_names species)
  = flat_map (fun s => repeat s 3) species.
Proof.
  induction species as [| s l IH]; [reflexivity |].
  cbn [flat_map]. rewrite map_app, IH. f_equal.
  unfold Cases.count_names. cbn [map repeat].
  rewrite (proj1 (species_and_feature s "all shoots" "all" "shoots" eq_refl)).
  rewrite (proj1 (species_and_feature s "freshly browsed" "freshly" "browsed" eq_refl)).
  rewrite (proj1 (species_and_feature s "old browsed" "old" "browsed" eq_refl)).
  reflexivity.
Qed.

Lemma unique_in_order_triples : forall species,
  NoDup species ->
  unique_in_order (flat_map (fun s => repeat s 3) species) = species.
Proof.
  induction 1 as [| s species Hs Hnd IH]; [reflexivity |].
  cbn [flat_map]. rewrite unique_in_order_repeat, IH.
  now rewrite filter_other_notin.
Qed.

Lemma distribution_of_species (data : count_table) (d : distribution) :
  distribution_of data = Ok d ->
  dist_species d = unique_in_order (map species_of (header data)).
Proof.
  unfold distribution_of. intros H.
  apply rbind_ok in H. destruct H as (t & _ & H).
  apply rbind_ok in H. destruct H as (cs & _ & H).
  apply rbind_ok in H. destruct H as (ss & _ & H).
  inversion H; subst. reflexivity.
Qed.

(** X25. For a forest whose array has the three names of each of its
    species, which differ, the cell that adds the distribution properties
    returns an array with the five names of each species, in the form that
    the merge of the forests expects; at every sampling point the three
    counts of a species are followed by its coverage and its share of the
    supply. *)
Theorem X25_distributions_added :
  forall (species : list string) (rows : list (list Z)) (d : distribution),
    NoDup species ->
    Forall (fun row => length row = 3 * length species) rows ->
    distribution_of (mkTable (flat_map Cases.count_names species) rows) = Ok d ->
    exists out,
      add_distributions (mkTable (flat_map Cases.count_names species) rows) d = Ok out /\
      header out = dataset_header species /\
      Spec.five_per_species out /\
      body out
      = map (fun row =>
               flat_map (fun i => [inject_Z (nth (3 * i) row 0%Z);
                                   inject_Z (nth (3 * i + 1) row 0%Z);
                                   inject_Z (nth (3 * i + 2) row 0%Z);
                                   nth i (coverages d) 0%Q;
                                   nth i (supplyPerces d) 0%Q])
                        (seq 0 (length species)))
            rows.
Proof.
  intros species rows d Hnd Hrows Hd.
  set (data := mkTable (flat_map Cases.count_names species) rows) in *.
  assert (Hsp : dist_species d = species).
  { rewrite (distribution_of_species _ _ Hd). unfold data. cbn [header].
    rewrite species_of_count_names. apply unique_in_order_triples, Hnd. }
  assert (Hw : length (flat_map Cases.count_names species) = 3 * length species).
  { clear. induction species as [| s l IH]; [reflexivity |].
    cbn [flat_map]. rewrite length_app, IH. simpl. lia. }
  assert (Hhead :
    fold_left (fun l i =>
                 Cases.inserted (i * 3 + 4 + i * 2)
                   (nth i species EmptyString ++ " supply percentage")%string
                   (Cases.inserted (i * 3 + 3 + i * 2)
                      (nth i species EmptyString ++ " forest coverage")%string l))
              (seq 0 (length species)) (flat_map Cases.count_names species)
    = dataset_header species).
  { rewrite (inserted_fold EmptyString _ _ (length species) 0 []
                           (flat_map Cases.count_names species)) by (simpl; lia).
    rewrite skipn_all2 by lia. cbn [app]. rewrite app_nil_r.
    unfold dataset_header.
    rewrite (flat_map_by_index dataset_names EmptyString species).
    apply flat_map_ext_in. intros i Hi. apply in_seq in Hi.
    rewrite Nat.sub_0_r.
    replace (3 * i) with (3 * i + 0) at 1 by lia.
    rewrite !nth_count_names by lia. reflexivity. }
  assert (Hbody :
    map (fold_left (fun l i =>
                      Cases.inserted (i * 3 + 4 + i * 2) (nth i (supplyPerces d) 0%Q)
                        (Cases.inserted (i * 3 + 3 + i * 2)
                           (nth i (coverages d) 0%Q) l))
                   (seq 0 (length species)))
        (map (map inject_Z) rows)
    = map (fun row =>
             flat_map (fun i => [inject_Z (nth (3 * i) row 0%Z);
                                 inject_Z (nth (3 * i + 1) row 0%Z);
                                 inject_Z (nth (3 * i + 2) row 0%Z);
                                 nth i (coverages d) 0%Q;
                                 nth i (supplyPerces d) 0%Q])
                      (seq 0 (length species)))
          rows).
  { rewrite map_map. apply map_ext_in. intros row Hrow.
    assert (Hl : length row = 3 * length species)
      by (eapply Forall_forall in Hrows; eauto).
    rewrite (inserted_fold (inject_Z 0) _ _ (length species) 0 [] (map inject_Z row))
      by (try rewrite length_map; simpl; lia).
    rewrite skipn_all2 by (rewrite length_map; lia). cbn [app]. rewrite app_nil_r.
    apply flat_map_ext_in. intros i Hi. rewrite Nat.sub_0_r.
    rewrite !(map_nth inject_Z). reflexivity. }
  eexists. split.
  - unfold add_distributions. rewrite Hsp.
    apply (add_fold
             (fun i => (nth i species EmptyString ++ " forest coverage")%string)
             (fun i => (nth i species EmptyString ++ " supply percentage")%string)
             (fun i => nth i (coverages d) 0%Q)
             (fun i => nth i (supplyPerces d) 0%Q)
             (length species) (length species) 0 (as_values data)).
    + reflexivity.
    + unfold ncols, as_values, data. cbn [header]. lia.
  - cbn [header body as_values data].
    split; [exact Hhead |]. split; [| exact Hbody].
    unfold Spec.five_per_species. cbn [header]. rewrite Hhead.
    now rewrite forest_species_dataset_header.
Qed.

Lemma X25_distributions_added_witness :
  exists d,
    distribution_of
      (mkTable (flat_map Cases.count_names ["Unknown"; "Bükk"])
               (body Cases.small_forest)) = Ok d /\
    exists out,
      add_distributions
        (mkTable (flat_map Cases.count_names ["Unknown"; "Bükk"])
                 (body Cases.small_forest)) d = Ok out /\
      header out = dataset_header ["Unknown"; "Bükk"] /\
      Spec.five_per_species out /\
      body out
      = map (fun row =>
               flat_map (fun i => [inject_Z (nth (3 * i) row 0%Z);
                                   inject_Z (nth (3 * i + 1) row 0%Z);
                                   inject_Z (nth (3 * i + 2) row 0%Z);
                                   nth i (coverages d) 0%Q;
                                   nth i (supplyPerces d) 0%Q])
                        (seq 0 (length ["Unknown"; "Bükk"])))
            (body Cases.small_forest).
Proof.
  eexists. split; [vm_compute; reflexivity |].
  apply (X25_distributions_added ["Unknown"; "Bükk"] (body Cases.small_forest)).
  - repeat constructor; simpl; intuition discriminate.
  - repeat constructor.
  - vm_compute. reflexivity.
Defined.

(** ** Columns chosen by their names *)

Lemma enumerate_from_cons {A} (k : nat) (x : A) (l : list A) :
  enumerate_from k (x :: l) = (k, x) :: enumerate_from (S k) l.
Proof. reflexivity. Qed.

Lemma in_enumerate_from_ge {A} (k : nat) (l : list A) (c : nat) (x : A) :
  In (c, x) (enumerate_from k l) -> k <= c.
Proof.
  intros H. apply In_nth_error in H. destruct H as [n Hn].
  apply nth_error_enumerate_from_inv in Hn. lia.
Qed.

Lemma named_ge (p : string -> bool) (k : nat) (h : list string) (c : nat) :
  In c (map fst (filter (fun kh => p (snd kh)) (enumerate_from k h))) -> k <= c.
Proof.
  intros H. apply in_map_iff in H. destruct H as ([c' x] & <- & H).
  apply filter_In in H. destruct H as [H _].
  apply (in_enumerate_from_ge _ _ _ _ H).
Qed.

Lemma delete_from_ext {A} (cols1 cols2 : list nat) : forall (l : list A) k,
  (forall j, k <= j -> existsb (Nat.eqb j) cols1 = existsb (Nat.eqb j) cols2) ->
  delete_from k cols1 l = delete_from k cols2 l.
Proof.
  induction l as [| x l IH]; intros k H; [reflexivity |].
  cbn [delete_from]. rewrite (H k) by lia.
  rewrite (IH (S k)) by (intros j Hj; apply H; lia). reflexivity.
Qed.

Lemma not_among_later (k : nat) (cols : list nat) :
  (forall c, In c cols -> S k <= c) -> existsb (Nat.eqb k) cols = false.
Proof.
  intros H. destruct (existsb (Nat.eqb k) cols) eqn:E; [| reflexivity].
  apply existsb_exists in E. destruct E as (c & Hc & Hk).
  apply Nat.eqb_eq in Hk. subst c. apply H in Hc. lia.
Qed.

(** [np.delete] of the columns whose names satisfy [p] keeps the entries
    under the other names. *)
Lemma delete_named {A} (p : string -> bool) : forall (h : list string) (l : list A) k,
  length l = length h ->
  delete_from k (map fst (filter (fun kh => p (snd kh)) (enumerate_from k h))) l
  = map snd (filter (fun hx => negb (p (fst hx))) (combine h l)).
Proof.
  induction h as [| x h IH]; intros [| y l] k Hl; try discriminate; [reflexivity |].
  rewrite enumerate_from_cons. cbn [filter snd combine fst delete_from].
  pose proof (not_among_later k _ (named_ge p (S k) h)) as Hk.
  destruct (p x); cbn [map fst existsb negb].
  - rewrite Nat.eqb_refl. cbn [orb].
    rewrite <- (IH l (S k)) by (simpl in Hl; lia).
    apply delete_from_ext. intros j Hj. cbn [existsb].
    replace (j =? k) with false; [reflexivity |].
    symmetry. apply Nat.eqb_neq. lia.
  - rewrite Hk. cbn [map snd]. f_equal. apply IH. simpl in Hl. lia.
Qed.

(** [l[cols]] for the columns whose names satisfy [p]. *)
Lemma select_named {A} (d : A) (p : string -> bool) :
  forall (h : list string) (l : list A) k,
    length l = length h ->
    map (fun c => nth (c - k) l d)
        (map fst (filter (fun kh => p (snd kh)) (enumerate_from k h)))
    = map snd (filter (fun hx => p (fst hx)) (combine h l)).
Proof.
  induction h as [| x h IH]; intros [| y l] k Hl; try discriminate; [reflexivity |].
  rewrite enumerate_from_cons. cbn [filter snd combine fst].
  assert (Hrest : map (fun c => nth (c - k) (y :: l) d)
                      (map fst (filter (fun kh => p (snd kh)) (enumerate_from (S k) h)))
                  = map snd (filter (fun hx => p (fst hx)) (combine h l))).
  { rewrite <- (IH l (S k)) by (simpl in Hl; lia).
    apply map_ext_in. intros c Hc. apply named_ge in Hc.
    replace (c - k) with (S (c - S k)) by lia. reflexivity. }
  destruct (p x); cbn [map fst snd].
  - rewrite Nat.sub_diag. cbn [nth]. f_equal. exact Hrest.
  - exact Hrest.
Qed.

Lemma filter_names (p : string -> bool) (h : list string) :
  map snd (filter (fun hx => p (fst hx)) (combine h h)) = filter p h.
Proof.
  induction h as [| x h IH]; [reflexivity |].
  cbn [combine filter fst]. destruct (p x); cbn [map snd]; now rewrite IH.
Qed.

(** X26. The cell that removes the old browsed shoots keeps the columns
    whose names do not hold the words, in their order, with their values at
    every sampling point, and removes the others. *)
Theorem X26_old_browsed_removed :
  forall dataset : value_table,
    Forall (fun row => length row = ncols dataset) (body dataset) ->
    header (remove_old_browsed dataset)
    = filter (fun h => negb (contains "old browsed" h)) (header dataset) /\
    body (remove_old_browsed dataset)
    = map (fun row =>
             map snd (filter (fun hx => negb (contains "old browsed" (fst hx)))
                             (combine (header dataset) row)))
          (body dataset) /\
    forall h, In h (header (remove_old_browsed dataset)) ->
      contains "old browsed" h = false.
Proof.
  intros dataset Hrows.
  assert (Hh : header (remove_old_browsed dataset)
               = filter (fun h => negb (contains "old browsed" h)) (header dataset)).
  { unfold remove_old_browsed, columns_named, delete. cbn [header].
    rewrite (delete_named (contains "old browsed")) by reflexivity.
    apply (filter_names (fun h => negb (contains "old browsed" h))). }
  split; [exact Hh |]. split.
  - unfold remove_old_browsed, columns_named, delete. cbn [body].
    apply map_ext_in. intros row Hrow.
    apply (delete_named (contains "old browsed")).
    eapply Forall_forall in Hrows; eauto.
  - intros h Hin. rewrite Hh in Hin. apply filter_In in Hin.
    destruct Hin as [_ Hin]. now apply negb_true_iff in Hin.
Qed.

Lemma X26_old_browsed_removed_witness :
  header (remove_old_browsed Cases.two_species_dataset)
  = filter (fun h => negb (contains "old browsed" h))
           (header Cases.two_species_dataset) /\
  body (remove_old_browsed Cases.two_species_dataset)
  = map (fun row =>
           map snd (filter (fun hx => negb (contains "old browsed" (fst hx)))
                           (combine (header Cases.two_species_dataset) row)))
        (body Cases.two_species_dataset) /\
  forall h, In h (header (remove_old_browsed Cases.two_species_dataset)) ->
    contains "old browsed" h = false.
Proof.
  apply (X26_old_browsed_removed Cases.two_species_dataset).
  repeat constructor.
Defined.

Lemma length_filter_split {A} (p : A -> bool) (l : list A) :
  length (filter p l) + length (filter (fun x => negb (p x)) l) = length l.
Proof.
  induction l as [| x l IH]; [reflexivity |].
  cbn [filter]. destruct (p x); cbn [negb length]; lia.
Qed.

Lemma select_columns_named (p : string -> bool) (dataset : value_table) :
  Forall (fun row => length row = ncols dataset) (body dataset) ->
  select_columns
    (map fst (filter (fun kh => p (snd kh)) (enumerate_from 0 (header dataset))))
    dataset
  = mkTable (filter p (header dataset))
            (map (fun row =>
                    map snd (filter (fun hx => p (fst hx))
                                    (combine (header dataset) row)))
                 (body dataset)).
Proof.
  intros Hrows. unfold select_columns. f_equal.
  - rewrite <- (filter_names p (header dataset)).
    rewrite <- (select_named EmptyString p (header dataset) (header dataset) 0)
      by reflexivity.
    apply map_ext. intros c. now rewrite Nat.sub_0_r.
  - apply map_ext_in. intros row Hrow.
    rewrite <- (select_named 0%Q p (header dataset) row 0)
      by (eapply Forall_forall in Hrows; eauto).
    apply map_ext. intros c. now rewrite Nat.sub_0_r.
Qed.

(** X27. The target values are the columns whose names hold the words
    freshly browsed and the predictor values are all the other columns, each
    in the order of the dataset, with the values of every sampling point:
    every column of the dataset is in exactly one of the two arrays. *)
Theorem X27_targets_and_predictors :
  forall dataset : value_table,
    Forall (fun row => length row = ncols dataset) (body dataset) ->
    target_values dataset
    = mkTable (filter (contains "freshly browsed") (header dataset))
              (map (fun row =>
                      map snd (filter (fun hx => contains "freshly browsed" (fst hx))
                                      (combine (header dataset) row)))
                   (body dataset)) /\
    predictor_values dataset
    = mkTable (filter (fun h => negb (contains "freshly browsed" h)) (header dataset))
              (map (fun row =>
                      map snd (filter (fun hx => negb (contains "freshly browsed" (fst hx)))
                                      (combine (header dataset) row)))
                   (body dataset)) /\
    ncols (target_values dataset) + ncols (predictor_values dataset) = ncols dataset.
Proof.
  intros dataset Hrows.
  pose proof (select_columns_named (contains "freshly browsed") dataset Hrows) as Ht.
  pose proof (select_columns_named (fun h => negb (contains "freshly browsed" h))
                                   dataset Hrows) as Hp.
  change (target_values dataset
          = mkTable (filter (contains "freshly browsed") (header dataset))
                    (map (fun row =>
                            map snd (filter (fun hx => contains "freshly browsed" (fst hx))
                                            (combine (header dataset) row)))
                         (body dataset))) in Ht.
  change (predictor_values dataset
          = mkTable (filter (fun h => negb (contains "freshly browsed" h))
                            (header dataset))
                    (map (fun row =>
                            map snd (filter (fun hx =>
                                               negb (contains "freshly browsed" (fst hx)))
                                            (combine (header dataset) row)))
                         (body dataset))) in Hp.
  split; [exact Ht |]. split; [exact Hp |].
  rewrite Ht, Hp. unfold ncols. cbn [header]. apply length_filter_split.
Qed.

Lemma X27_targets_and_predictors_witness :
  target_values Cases.two_species_final
  = mkTable (filter (contains "freshly browsed") (header Cases.two_species_final))
            (map (fun row =>
                    map snd (filter (fun hx => contains "freshly browsed" (fst hx))
                                    (combine (header Cases.two_species_final) row)))
                 (body Cases.two_species_final)) /\
  predictor_values Cases.two_species_final
  = mkTable (filter (fun h => negb (contains "freshly browsed" h))
                    (header Cases.two_species_final))
            (map (fun row =>
                    map snd (filter (fun hx => negb (contains "freshly browsed" (fst hx)))
                                    (combine (header Cases.two_species_final) row)))
                 (body Cases.two_species_final)) /\
  ncols (target_values Cases.two_species_final)
  + ncols (predictor_values Cases.two_species_final)
  = ncols Cases.two_species_final.
Proof.
  apply (X27_targets_and_predictors Cases.two_species_final).
  repeat constructor.
Defined.

(** ** Distinguishing the points without supply *)

Lemma rmapM_map {A B C} (f : B -> result C) (h : A -> B) (g : A -> C) :
  forall l, (forall x, In x l -> f (h x) = Ok (g x)) ->
            rmapM f (map h l) = Ok (map g l).
Proof.
  induction l as [| x l IH]; intros H; [reflexivity |].
  cbn [map rmapM]. rewrite (H x) by (left; reflexivity). cbn [rbind].
  rewrite IH by (intros; apply H; right; assumption). reflexivity.
Qed.

Lemma combine_map_r {A B} (f : A -> B) (l : list A) :
  combine l (map f l) = map (fun x => (x, f x)) l.
Proof.
  induction l as [| x l IH]; [reflexivity |]. cbn [map combine]. now rewrite IH.
Qed.

Lemma index_nth {A} (d : A) (l : list A) (i : nat) :
  i < length l -> index l i = Ok (nth i l d).
Proof.
  intros Hi. unfold index. now rewrite (nth_error_nth' l d Hi).
Qed.

Lemma distinguish_row_values (row : list Q) (n : nat) :
  length row = 4 * n ->
  distinguish_row row (map (fun j => nth (j * 4 + 1) row 0%Q) (seq 0 n))
  = Ok (map (fun j => if Qeq_bool (nth (j * 4) row 0%Q) 0
                      then Finalizing.noSupply_value
                      else nth (j * 4 + 1) row 0%Q)
            (seq 0 n)).
Proof.
  intros Hrow. unfold distinguish_row, enumerate_from.
  rewrite length_map, length_seq, combine_map_r.
  apply rmapM_map. intros j Hj. apply in_seq in Hj.
  rewrite (index_nth 0%Q) by lia. reflexivity.
Qed.

(** X28. On a dataset with four columns for each of n species, of which the
    second is the one of the freshly browsed shoots, the target value of a
    species at a sampling point is replaced by the no-supply value where the
    first column of the species, its shoots, is 0, and kept elsewhere. *)
Theorem X28_targets_distinguished :
  forall (dataset : value_table) (n : nat),
    target_columns dataset = map (fun j => j * 4 + 1) (seq 0 n) ->
    ncols dataset = 4 * n ->
    Forall (fun row => length row = ncols dataset) (body dataset) ->
    target_values_distinguished dataset
    = Ok (mkTable
            (map (fun j => nth (j * 4 + 1) (header dataset) EmptyString) (seq 0 n))
            (map (fun row =>
                    map (fun j => if Qeq_bool (nth (j * 4) row 0%Q) 0
                                  then Finalizing.noSupply_value
                                  else nth (j * 4 + 1) row 0%Q)
                        (seq 0 n))
                 (body dataset))).
Proof.
  intros dataset n Hcols Hw Hrows.
  unfold target_values_distinguished, target_values, select_columns.
  rewrite Hcols. cbn [header body]. rewrite !map_map.
  unfold enumerate_from at 1. rewrite length_map, length_seq, combine_map_r.
  rewrite (rmapM_map _ _ (fun j => nth (j * 4) (header dataset) EmptyString)).
  2: { intros j Hj. apply in_seq in Hj. cbn [fst].
       apply index_nth. fold (ncols dataset). lia. }
  cbn [rbind].
  rewrite combine_map_r.
  rewrite (rmapM_map _ _
             (fun row => map (fun j => if Qeq_bool (nth (j * 4) row 0%Q) 0
                                       then Finalizing.noSupply_value
                                       else nth (j * 4 + 1) row 0%Q)
                             (seq 0 n))).
  - reflexivity.
  - intros row Hrow. cbn [fst snd]. rewrite map_map.
    apply distinguish_row_values.
    eapply Forall_forall in Hrows; eauto. lia.
Qed.

Lemma X28_targets_distinguished_witness :
  target_values_distinguished Cases.two_species_final
  = Ok (mkTable
          (map (fun j => nth (j * 4 + 1) (header Cases.two_species_final) EmptyString)
               (seq 0 2))
          (map (fun row =>
                  map (fun j => if Qeq_bool (nth (j * 4) row 0%Q) 0
                                then Finalizing.noSupply_value
                                else nth (j * 4 + 1) row 0%Q)
                      (seq 0 2))
               (body Cases.two_species_final))).
Proof.
  apply (X28_targets_distinguished Cases.two_species_final 2).
  - reflexivity.
  - reflexivity.
  - repeat constructor.
Defined.

(** ** Frequency and relative proportion of supply in the predictors *)

Lemma nth_triples_rest (a b c : nat -> Q) : forall n s j,
  j < n ->
  nth (j * 3 + 1) (flat_map (fun j => [a j; b j; c j]) (seq s n)) 0%Q = b (s + j) /\
  nth (j * 3 + 2) (flat_map (fun j => [a j; b j; c j]) (seq s n)) 0%Q = c (s + j).
Proof.
  induction n as [| n IH]; intros s [| j] Hj; try lia.
  - simpl. split; f_equal; lia.
  - cbn [seq flat_map app Nat.mul Nat.add nth].
    destruct (IH (S s) j) as [H1 H2]; [lia |].
    rewrite H1, H2. split; f_equal; lia.
Qed.

Lemma nth_map_row {A B} (f : A -> list B) (l : list A) (i : nat) (d : A) :
  i < length l -> nth i (map f l) [] = f (nth i l d).
Proof.
  intros Hi. rewrite (nth_indep _ [] (f d)) by (rewrite length_map; exact Hi).
  apply map_nth.
Qed.

(** X29. In the array that the regressors read, the second and the third
    column of a species hold, in every section, its frequency and its
    relative proportion of supply as the table of properties has them:
    [normalize_TS] leaves them as they are. *)
Theorem X29_properties_reach_the_predictors :
  forall (ds : table string Q) (data0 data : list (list Q)),
    load_dataset ds = Ok (data0, data) ->
    exists f_values rps_values,
      properties_table (body ds) (length (header ds)) = Ok (f_values, rps_values) /\
      forall i j,
        i < length (body ds) / 5 -> j < length (header ds) ->
        nth (j * 3 + 1) (nth i data []) 0%Q = nth j f_values 0%Q /\
        nth (j * 3 + 2) (nth i data []) 0%Q = nth j rps_values 0%Q.
Proof.
  intros ds data0 data H.
  destruct (load_dataset_normalized _ _ _ H) as [Hnorm Hlen0].
  unfold load_dataset in H.
  apply rbind_ok in H. destruct H as ([f rps] & Hprop & H).
  apply rbind_ok in H. destruct H as (d & _ & H).
  inversion H; subst d; clear H. rename H1 into Hdata0.
  cbn [fst snd] in Hdata0.
  exists f, rps. split; [exact Hprop |]. intros i j Hi Hj.
  set (nr := length (header ds)) in *.
  destruct (normalize_TS_columns _ _ _ Hnorm) as [_ Hcols].
  assert (Hi0 : i < length data0) by lia.
  assert (Hkeep : forall c, c < nr * 3 -> c mod 3 <> 0 ->
            nth c (nth i data []) 0%Q = nth c (nth i data0 []) 0%Q).
  { intros c Hc Hm. destruct (Hcols c Hc) as (col & Hcol & Hnth).
    rewrite (Hnth i Hi0), (normalized_column_other _ _ _ Hm Hcol).
    apply nth_column. }
  assert (Hm1 : (j * 3 + 1) mod 3 <> 0).
  { rewrite Nat.add_comm, Nat.Div0.mod_add. discriminate. }
  assert (Hm2 : (j * 3 + 2) mod 3 <> 0).
  { rewrite Nat.add_comm, Nat.Div0.mod_add. discriminate. }
  rewrite (Hkeep (j * 3 + 1)), (Hkeep (j * 3 + 2)) by (auto; lia).
  rewrite <- Hdata0. unfold sections.
  rewrite (nth_map_row _ _ i 0)
    by (rewrite length_seq; unfold unaggregated_data; rewrite length_map; exact Hi).
  rewrite seq_nth
    by (unfold unaggregated_data; rewrite length_map; exact Hi).
  cbn [Nat.add].
  destruct (nth_triples_rest
              (fun j => q_sum (column (j * 3)
                                      (slice (i * 5) (i * 5 + 4 + 1)
                                             (unaggregated_data (body ds) nr f rps))))
              (fun j => nth (j * 3 + 1)
                            (nth (i * 5) (unaggregated_data (body ds) nr f rps) []) 0%Q)
              (fun j => nth (j * 3 + 2)
                            (nth (i * 5) (unaggregated_data (body ds) nr f rps) []) 0%Q)
              nr 0 j Hj) as [E1 E2].
  rewrite E1, E2. cbn [Nat.add].
  assert (Hpoint : i * 5 < length (body ds)).
  { pose proof (Nat.Div0.mul_div_le (length (body ds)) 5). lia. }
  unfold unaggregated_data.
  rewrite (nth_map_row _ _ (i * 5) []) by exact Hpoint.
  destruct (nth_triples_rest
              (fun k => nth k (nth (i * 5) (body ds) []) 0%Q)
              (fun k => nth k f 0%Q) (fun k => nth k rps 0%Q) nr 0 j Hj) as [F1 F2].
  rewrite F1, F2. split; reflexivity.
Qed.

Lemma X29_properties_reach_the_predictors_witness :
  exists data0 data,
    load_dataset Samples.five_points = Ok (data0, data) /\
    exists f_values rps_values,
      properties_table (body Samples.five_points)
                       (length (header Samples.five_points))
      = Ok (f_values, rps_values) /\
      forall i j,
        i < length (body Samples.five_points) / 5 ->
        j < length (header Samples.five_points) ->
        nth (j * 3 + 1) (nth i data []) 0%Q = nth j f_values 0%Q /\
        nth (j * 3 + 2) (nth i data []) 0%Q = nth j rps_values 0%Q.
Proof.
  eexists. eexists. split; [vm_compute; reflexivity |].
  eapply (X29_properties_reach_the_predictors Samples.five_points).
  vm_compute. reflexivity.
Defined.
